(** * ProcessGroupCCL: a shallow embedding of src/ProcessGroupCCL.cpp

    The engine is embedded as functions in a small state-and-exception
    monad.  The state (the [World]) holds what the C++ code reaches
    through pointers and globals: the oneCCL communicator with its request
    objects, the tensor allocator, and a chronological trace of the
    effects performed.  The oneCCL library and ATen are external to the
    repository; the declarations of the first section and the substrate
    section stand for them. *)

From Stdlib Require Import ZArith Lia.
From stdpp Require Import base list strings.

Local Open Scope Z_scope.

(** ** ATen and c10d declarations used by the file *)

(** [at::ScalarType], the element types a tensor can carry. *)
Inductive ScalarType :=
| kByte | kChar | kShort | kInt | kLong | kHalf | kFloat | kDouble
| kComplexHalf | kComplexFloat | kComplexDouble | kBool
| kQInt8 | kQUInt8 | kQInt32 | kBFloat16.

(** [c10d::ReduceOp]. *)
Inductive ReduceOp := SUM | PRODUCT | MIN | MAX | BAND | BOR | BXOR.

(** [ccl::reduction] and [ccl::data_type], the substrate's enumerations. *)
Inductive ccl_reduction := ccl_min | ccl_max | ccl_sum | ccl_prod.
Inductive ccl_data_type :=
| dt_char | dt_int | dt_bfp16 | dt_float | dt_double | dt_int64 | dt_uint64.

#[global] Instance ScalarType_eq_dec : EqDecision ScalarType.
Proof. solve_decision. Defined.
#[global] Instance ReduceOp_eq_dec : EqDecision ReduceOp.
Proof. solve_decision. Defined.
#[global] Instance ccl_data_type_eq_dec : EqDecision ccl_data_type.
Proof. solve_decision. Defined.
#[global] Instance ccl_reduction_eq_dec : EqDecision ccl_reduction.
Proof. solve_decision. Defined.

(** An [at::Tensor] as far as this file looks at it: its shape, element
    type, the identity of its [StorageImpl] and its offset into it, and
    the three layout flags tested by [checkSingleTensorHelper]. *)
Record Tensor := mkTensor {
  sizes : list Z;
  scalar_type : ScalarType;
  storage : nat;
  storage_offset : Z;
  is_contiguous : bool;
  is_sparse : bool;
  is_cuda : bool
}.

#[global] Instance Tensor_eq_dec : EqDecision Tensor.
Proof. solve_decision. Defined.

(** [tensor.numel()]: the product of the dimensions (1 for a scalar). *)
Definition numel (t : Tensor) : Z := foldr Z.mul 1 (sizes t).

(** [storage.is_alias_of(other)]: both handles name one [StorageImpl]. *)
Definition is_alias_of (s1 s2 : nat) : bool := bool_decide (s1 = s2).

(** A tensor ATen can build: non-negative dimensions whose product fits
    [int64_t]. *)
Definition tensor_ok (t : Tensor) : Prop :=
  Forall (λ d, 0 ≤ d) (sizes t) ∧ numel t < 2 ^ 63.

(** Conversions the C++ code performs implicitly. *)
Definition to_size_t (z : Z) : Z := z mod 2 ^ 64.
Definition to_int (z : Z) : Z := (z + 2 ^ 31) mod 2 ^ 32 - 2 ^ 31.

(** ** Exceptions, outcomes and the world *)

Inductive Exn :=
| TorchCheck (msg : string)      (* c10::Error raised by TORCH_CHECK *)
| RuntimeError (msg : string)    (* std::runtime_error *)
| OutOfRange                     (* std::out_of_range, from std::map::at *)
| IndexError                     (* c10::IndexError, from Tensor::size(dim) *)
| CclError.                      (* ccl::ccl_error *)

(** How a call ends: it returns, throws, runs into undefined behaviour
    (an unchecked [operator[]] outside the vector), or reaches
    [std::terminate]. *)
Inductive Outcome (A : Type) :=
| Ret (a : A)
| Throw (e : Exn)
| Undefined
| Terminate.
Arguments Ret {A} a.
Arguments Throw {A} e.
Arguments Undefined {A}.
Arguments Terminate {A}.

(** A [ccl::request] is in flight for a number of further polls, has
    completed, or is broken (its [test]/[wait] throw [ccl::ccl_error]). *)
Inductive ReqState := InFlight (polls : nat) | Completed | Broken.

(** What the substrate does with the next call issued to it. *)
Inductive Behaviour := Raises | Yields (st : ReqState).

(** The collective primitives of the communicator, with the arguments
    the engine passes (buffer addresses left out). *)
Inductive Collective :=
| c_bcast (count : Z) (dt : ccl_data_type) (root : Z)
| c_allreduce (count : Z) (dt : ccl_data_type) (op : ccl_reduction)
| c_reduce (count : Z) (dt : ccl_data_type) (op : ccl_reduction) (root : Z)
| c_allgatherv (send_count : Z) (recv_counts : list Z) (dt : ccl_data_type)
| c_alltoall (count : Z) (dt : ccl_data_type)
| c_alltoallv (send_counts recv_counts : list Z) (dt : ccl_data_type)
| c_barrier.

Inductive Event :=
| EvIssue (c : Collective) (r : nat)   (* a collective was issued, request r *)
| EvBarrier                            (* comm->barrier() *)
| EvWait (r : nat)                     (* req->wait() *)
| EvTest (r : nat)                     (* req->test() *)
| EvCopy (dst src : Tensor)            (* dst.copy_(src) *)
| EvAlloc (t : Tensor)                 (* at::empty *)
| EvStderr.                            (* a line written to std::cerr *)

(** [requests] is the table of request objects, a request being named by
    its index; [script] is the oracle for the substrate's future
    behaviour; [next_storage] names the next fresh [StorageImpl]. *)
Record World := mkWorld {
  requests : list ReqState;
  script : list Behaviour;
  next_storage : nat;
  trace : list Event
}.

Definition log (e : Event) (w : World) : World :=
  mkWorld (requests w) (script w) (next_storage w) (trace w ++ [e]).

(** ** The monad *)

Definition M (A : Type) : Type := World → Outcome A * World.

#[global] Instance M_ret : MRet M := λ A a w, (Ret a, w).
#[global] Instance M_bind : MBind M := λ A B f m w,
  match m w with
  | (Ret a, w') => f a w'
  | (Throw e, w') => (Throw e, w')
  | (Undefined, w') => (Undefined, w')
  | (Terminate, w') => (Terminate, w')
  end.

Definition throw {A} (e : Exn) : M A := λ w, (Throw e, w).
Definition undefined {A} : M A := λ w, (Undefined, w).
Definition terminate {A} : M A := λ w, (Terminate, w).
Definition emit (e : Event) : M unit := λ w, (Ret tt, log e w).

(** [TORCH_CHECK(cond, msg)]. *)
Definition TORCH_CHECK (cond : bool) (msg : string) : M unit :=
  if cond then mret tt else throw (TorchCheck msg).

(** [CCL_CHECK(cmd)]: a [ccl::ccl_error] and, through [catch (...)],
    every other exception leaving [cmd] are rethrown as
    [std::runtime_error]; the file and line of the messages are left
    out. *)
Definition CCL_CHECK {A} (cmd : M A) : M A := λ w,
  match cmd w with
  | (Throw CclError, w') => (Throw (RuntimeError "CCL error in: "), w')
  | (Throw _, w') => (Throw (RuntimeError "unknown error in: "), w')
  | r => r
  end.

(** [v[i]] on a [std::vector], unchecked: outside the vector the
    behaviour is undefined. *)
Definition vec_at {A} (v : list A) (i : nat) : M A :=
  match v !! i with
  | Some a => mret a
  | None => undefined
  end.

(** [v[i] = x] with a signed index converted to [size_t]. *)
Definition vec_set {A} (v : list A) (i : Z) (x : A) : M (list A) :=
  if bool_decide (0 ≤ i < Z.of_nat (length v))
  then mret (<[Z.to_nat i := x]> v)
  else undefined.

(** [for (i = start; i < start + count; i++) s = body(i, s)]. *)
Fixpoint for_range {S} (start count : nat) (body : nat → S → M S) (s : S)
  : M S :=
  match count with
  | O => mret s
  | Datatypes.S k => s' ← body start s; for_range (Datatypes.S start) k body s'
  end.

(** [std::map::at]: throws [std::out_of_range] for a missing key. *)
Fixpoint map_find {K V} `{EqDecision K} (m : list (K * V)) (k : K) : option V :=
  match m with
  | [] => None
  | (k', v) :: m' => if decide (k' = k) then Some v else map_find m' k
  end.

Definition map_at {K V} `{EqDecision K} (m : list (K * V)) (k : K) : M V :=
  match map_find m k with
  | Some v => mret v
  | None => throw OutOfRange
  end.

(** [at::empty(sizes, like.options())]: a dense contiguous tensor on a
    fresh storage, with the element type, layout and device of [like]. *)
Definition at_empty (shape : list Z) (like : Tensor) : M Tensor := λ w,
  let t := mkTensor shape (scalar_type like) (next_storage w) 0
                    true (is_sparse like) (is_cuda like) in
  (Ret t, mkWorld (requests w) (script w) (Datatypes.S (next_storage w))
                  (trace w ++ [EvAlloc t])).

(** [tensor.size(0)]: ATen raises an index error on a 0-dimensional
    tensor. *)
Definition size0 (t : Tensor) : M Z :=
  match sizes t with
  | d :: _ => mret d
  | [] => throw IndexError
  end.

(** ** Lookup tables (lines 58-76) *)

Definition cclOps : list (ReduceOp * ccl_reduction) :=
  [ (MIN, ccl_min); (MAX, ccl_max); (SUM, ccl_sum); (PRODUCT, ccl_prod) ].

Definition cclDatatypes : list (ScalarType * ccl_data_type) :=
  [ (kByte, dt_char); (kChar, dt_char); (kDouble, dt_double);
    (kBFloat16, dt_bfp16); (kFloat, dt_float); (kInt, dt_int);
    (kLong, dt_int64) ].

(** ** Input checks (lines 85-151) *)

Definition checkSingleTensorHelper (tensor : Tensor) : M unit :=
  TORCH_CHECK (is_contiguous tensor) "input tensor has to be contiguous";;
  TORCH_CHECK (negb (is_sparse tensor)) "input tensor has to be dense";;
  TORCH_CHECK (negb (is_cuda tensor))
    "CUDA tensor detected and CCL doesn't support CUDA buffers";;
  TORCH_CHECK (bool_decide (0 ≤ numel tensor))
    "input tensor numel should be non-negative".

Definition checkRank (rank size : Z) : M unit :=
  TORCH_CHECK (bool_decide (0 ≤ rank) && bool_decide (rank < size))
    "unexpected rank".

(** The message of the first check ends with the number of tensors,
    left out here. *)
Definition checkSingleTensor (tensors : list Tensor) : M unit :=
  TORCH_CHECK (bool_decide (length tensors = 1%nat))
    "CCL process group does not support tensors count ";;
  t ← vec_at tensors 0;
  checkSingleTensorHelper t.

Definition checkSameSizeAndType (tensor : Tensor) (tensors : list Tensor)
  : M unit :=
  for_range 0 (length tensors) (λ i _,
    ti ← vec_at tensors i;
    TORCH_CHECK (bool_decide (numel ti = numel tensor) &&
                 bool_decide (scalar_type ti = scalar_type tensor))
      "tensors are not equal in size or data type";;
    checkSingleTensorHelper ti) tt.

Definition checkSameType (tensor : Tensor) (tensors : list Tensor) : M unit :=
  for_range 0 (length tensors) (λ i _,
    ti ← vec_at tensors i;
    TORCH_CHECK (bool_decide (scalar_type ti = scalar_type tensor))
      "tensors are not equal in data type";;
    checkSingleTensorHelper ti) tt.

(** [std::accumulate(first, last, 0)]: the accumulator has the type of
    the initial value, [int]; every partial sum is formed in [int64_t]
    and narrowed back to [int]. *)
Definition accumulate_int (xs : list Z) : Z :=
  foldl (λ acc x, to_int (acc + x)) 0 xs.

Definition checkSplitSizes (split_sizes : list Z) (tensor : Tensor)
    (groupSize : Z) : M unit :=
  if bool_decide (length split_sizes = 0%nat) then
    d ← size0 tensor;
    (* integer division by zero has undefined behaviour *)
    if bool_decide (groupSize = 0) then undefined else
    TORCH_CHECK (bool_decide (Z.rem d groupSize = 0))
      "Tensor's dim 0 does not divide equally across group size"
  else
    TORCH_CHECK (bool_decide (Z.of_nat (length split_sizes) = to_size_t groupSize))
      "Number of tensor splits not equal to group size";;
    let sum := accumulate_int split_sizes in
    d ← size0 tensor;
    TORCH_CHECK (bool_decide (sum = d))
      "Split sizes doesn't match total dim 0 size".

(** ** The buffer layout reconciler (lines 153-199) *)

(** The local variables of [computeLengthsAndCheckAndGetFlat] that the
    loop reads and writes, under their names in the source. *)
Module Loop.
Record state := mk {
  firstLength : Z;
  firstTensor : Tensor;
  storage : nat;
  firstStorageOffset : Z;
  isFlat : bool;
  offset : Z;
  lengths : list Z
}.
End Loop.

(** One iteration of the loop on [curTensor = tensors[i]].  The sums
    of element counts and offsets are taken in [Z]: they are [int64_t]
    in the source, and the buffers of one call hold far fewer than 2^63
    elements. *)
Definition reconcile_step (curTensor : Tensor) (i : nat) (st : Loop.state)
  : Loop.state :=
  let length := numel curTensor in
  let adopt :=
    bool_decide (Loop.firstLength st = 0) && negb (bool_decide (length = 0)) in
  let firstLength := if adopt then length else Loop.firstLength st in
  let firstTensor := if adopt then curTensor else Loop.firstTensor st in
  let storage' := if adopt then storage curTensor else Loop.storage st in
  let firstStorageOffset :=
    if adopt then storage_offset curTensor else Loop.firstStorageOffset st in
  let lengths := <[i := to_size_t length]> (Loop.lengths st) in
  let isFlat :=
    if Loop.isFlat st && negb (bool_decide (length = 0)) &&
       (negb (is_alias_of storage' (storage curTensor)) ||
        negb (bool_decide (storage_offset curTensor =
                           firstStorageOffset + Loop.offset st)))
    then false else Loop.isFlat st in
  Loop.mk firstLength firstTensor storage' firstStorageOffset isFlat
          (Loop.offset st + length) lengths.

(** The values of the locals on entry to the loop. *)
Definition reconcile_init (firstTensor : Tensor) (lengths : list Z)
  : Loop.state :=
  Loop.mk (numel firstTensor) firstTensor (storage firstTensor)
          (storage_offset firstTensor) true 0 lengths.

(** Lines 158-187: the declarations and the loop.  [groupSize] is
    [lengths.size()], and [tensors[0]] is read before the loop. *)
Definition reconcile_loop (tensors : list Tensor) (lengths : list Z)
  : M Loop.state :=
  let groupSize := length lengths in
  firstTensor ← vec_at tensors 0;
  for_range 0 groupSize (λ i st,
      curTensor ← vec_at tensors i;
      mret (reconcile_step curTensor i st))
    (reconcile_init firstTensor lengths).

(** The function returns [isFlat]; its two reference parameters
    [lengths] and [flatTensor] are returned next to it. *)
Definition computeLengthsAndCheckAndGetFlat (tensors : list Tensor)
    (lengths : list Z) : M (bool * list Z * Tensor) :=
  st ← reconcile_loop tensors lengths;
  flatTensor ← (if Loop.isFlat st then mret (Loop.firstTensor st)
                else at_empty [Loop.offset st] (Loop.firstTensor st));
  mret (Loop.isFlat st, Loop.lengths st, flatTensor).

(** ** The substrate: requests and collectives

    oneCCL is not part of the repository.  Its interface is the one the
    engine consumes: collectives that return a request object, and
    [test()] and [wait()] on a request.  A request that has completed
    stays completed, so [test()] after [wait()] reports completion. *)

Definition set_requests (rs : list ReqState) (w : World) : World :=
  mkWorld rs (script w) (next_storage w) (trace w).

(** A collective of the communicator: it throws or hands out a new
    request, as the script says (a request that completes at its first
    poll once the script is used up). *)
Definition issue (c : Collective) : M nat := λ w,
  match script w with
  | Raises :: sc =>
      (Throw CclError, mkWorld (requests w) sc (next_storage w) (trace w))
  | Yields st :: sc =>
      let r := length (requests w) in
      (Ret r, mkWorld (requests w ++ [st]) sc (next_storage w)
                      (trace w ++ [EvIssue c r]))
  | [] =>
      let r := length (requests w) in
      (Ret r, mkWorld (requests w ++ [InFlight 0]) [] (next_storage w)
                      (trace w ++ [EvIssue c r]))
  end.

(** [comm->barrier()]: blocking, no request. *)
Definition comm_barrier : M unit := λ w,
  match script w with
  | Raises :: sc =>
      (Throw CclError, mkWorld (requests w) sc (next_storage w) (trace w))
  | _ :: sc =>
      (Ret tt, mkWorld (requests w) sc (next_storage w) (trace w ++ [EvBarrier]))
  | [] => (Ret tt, log EvBarrier w)
  end.

(** [req->wait()]. *)
Definition req_wait (r : nat) : M unit := λ w,
  match requests w !! r with
  | Some Broken => (Throw CclError, w)
  | Some _ => (Ret tt, log (EvWait r) (set_requests (<[r := Completed]> (requests w)) w))
  | None => (Undefined, w)
  end.

(** [req->test()]. *)
Definition req_test (r : nat) : M bool := λ w,
  match requests w !! r with
  | Some Broken => (Throw CclError, w)
  | Some (InFlight (Datatypes.S n)) =>
      (Ret false, log (EvTest r) (set_requests (<[r := InFlight n]> (requests w)) w))
  | Some _ =>
      (Ret true, log (EvTest r) (set_requests (<[r := Completed]> (requests w)) w))
  | None => (Undefined, w)
  end.

(** ** The work handle (lines 203-264) *)

(** Modelled from the spec: the class [WorkCCL] is declared in
    ProcessGroupCCL.hpp, which is not among the sources.  Following
    section 3 of the specification, a handle wraps zero or one substrate
    request and the buffers it keeps referenced; its constructors store
    what they are given, and the default constructor (used by
    [barrier]) stores no request.  [req] is the
    [std::shared_ptr<ccl::request>] member: [None] is the null pointer,
    [Some r] points to request [r] of the world. *)
Record WorkCCL := mkWork {
  req : option nat;
  tensors : list Tensor
}.

(** The destructor. *)
Definition WorkCCL_dtor (self : WorkCCL) : M unit :=
  match req self with
  | Some _ => emit EvStderr;; terminate
  | None => mret tt
  end.

(** The member functions return their result with the handle as they
    leave it. *)
Definition isCompleted (self : WorkCCL) : M (bool * WorkCCL) :=
  match req self with
  | None => mret (true, self)
  | Some r =>
      flag ← CCL_CHECK (req_test r);
      if flag : bool then mret (flag, mkWork None []) else mret (flag, self)
  end.

Definition isSuccess (self : WorkCCL) : M bool :=
  match req self with
  | Some _ =>
      throw (RuntimeError
               "invalid call to WorkCCL::isSuccess before work has completed")
  | None => mret true
  end.

Definition wait (self : WorkCCL) : M (bool * WorkCCL) :=
  match req self with
  | None => mret (true, self)
  | Some r =>
      CCL_CHECK (req_wait r);;
      mret (true, mkWork None [])
  end.

Definition abort (self : WorkCCL) : M unit :=
  TORCH_CHECK false "ProcessGroupCCL::WorkCCL::abort not implemented.".

(** ** ATen helpers used by the dispatch functions *)

(** [newLikeFlat] of c10d's Utils.hpp: one tensor holding
    [tensors.size()] tensors shaped like the first. *)
Definition newLikeFlat (ts : list Tensor) : M Tensor :=
  match ts with
  | [] => throw (RuntimeError "Received an empty list")
  | t :: _ => at_empty (Z.of_nat (length ts) :: sizes t) t
  end.

(** [flat[i]]: the i-th slice along dimension 0, a view. *)
Definition select0 (flat : Tensor) (i : nat) : Tensor :=
  let inner := tail (sizes flat) in
  mkTensor inner (scalar_type flat) (storage flat)
           (storage_offset flat + Z.of_nat i * foldr Z.mul 1 inner)
           true (is_sparse flat) (is_cuda flat).

(** [t.view({-1})]. *)
Definition view_flat (t : Tensor) : Tensor :=
  mkTensor [numel t] (scalar_type t) (storage t) (storage_offset t)
           (is_contiguous t) (is_sparse t) (is_cuda t).

(** [flat.split_with_sizes(counts, 0)] on a one-dimensional [flat]:
    consecutive views of the given lengths. *)
Fixpoint split_from (flat : Tensor) (start : Z) (counts : list Z)
  : list Tensor :=
  match counts with
  | [] => []
  | c :: cs =>
      mkTensor [c] (scalar_type flat) (storage flat)
               (storage_offset flat + start) true (is_sparse flat)
               (is_cuda flat)
      :: split_from flat (start + c) cs
  end.

Definition split_with_sizes (flat : Tensor) (counts : list Z) : list Tensor :=
  split_from flat 0 counts.

(** Whether a tensor of shape [src] can be broadcast to the shape [dst].
    Both shapes are given last dimension first: [src] has no more
    dimensions than [dst], and each of them is the dimension of [dst]
    it is matched with, or 1. *)
Fixpoint expands_to (src dst : list Z) : bool :=
  match src, dst with
  | [], _ => true
  | _ :: _, [] => false
  | s :: src', d :: dst' =>
      (bool_decide (s = d) || bool_decide (s = 1)) && expands_to src' dst'
  end.

(** The same for two shapes in their usual order, the dimensions
    being matched from the last one, as ATen's broadcasting does. *)
Definition broadcastable (src dst : list Z) : bool :=
  expands_to (reverse src) (reverse dst).

(** [dst.copy_(src)], recorded in the trace.  ATen broadcasts [src] to
    the shape of [dst], which keeps its shape, and raises a [c10::Error]
    when [src] cannot be broadcast to it; the text of the message, which
    names the two shapes, is left out. *)
Definition copy_ (dst src : Tensor) : M unit :=
  if broadcastable (sizes src) (sizes dst) then emit (EvCopy dst src)
  else throw (TorchCheck "copy_: the shapes do not match").

(** [v[i]] with an [int] index. *)
Definition vec_atZ {A} (v : list A) (i : Z) : M A :=
  if bool_decide (0 ≤ i) then vec_at v (Z.to_nat i) else undefined.

(** ** The process group (lines 323-827)

    Every operation takes the global mutex right before its substrate
    call.  The embedding is sequential and has no mutex; it names the
    part of an operation that runs before the lock is taken
    ([..._prepare]: input checks, count tables, flat buffers), and the
    operation itself continues from there with the substrate call and
    what follows it. *)

(** Modelled from the spec: the class is declared in
    ProcessGroupCCL.hpp, which is not among the sources.  Following
    section 3 of the specification, a process group has a fixed rank
    and size agreed with the substrate at construction (line 324), so
    [comm->size()] is [size_] and [0 <= rank_ < size_]. *)
Record ProcessGroupCCL := mkPG {
  rank_ : Z;
  size_ : Z
}.

(** Lines 341-342 (and 394-395 of [reduce]). *)
Definition broadcast_prepare (pg : ProcessGroupCCL) (tensors : list Tensor)
    (rootRank : Z) : M Tensor :=
  checkSingleTensor tensors;;
  checkRank rootRank (size_ pg);;
  vec_at tensors 0.

Definition broadcast (pg : ProcessGroupCCL) (tensors : list Tensor)
    (rootRank : Z) : M WorkCCL :=
  t ← broadcast_prepare pg tensors rootRank;
  req ← CCL_CHECK (
    dt ← map_at cclDatatypes (scalar_type t);
    issue (c_bcast (to_size_t (numel t)) dt (to_size_t rootRank)));
  mret (mkWork (Some req) tensors).

(** Line 364. *)
Definition allreduce_prepare (pg : ProcessGroupCCL) (tensors : list Tensor)
  : M Tensor :=
  checkSingleTensor tensors;;
  vec_at tensors 0.

Definition allreduce (pg : ProcessGroupCCL) (tensors : list Tensor)
    (reduceOp : ReduceOp) : M WorkCCL :=
  t ← allreduce_prepare pg tensors;
  req ← CCL_CHECK (
    dt ← map_at cclDatatypes (scalar_type t);
    op ← map_at cclOps reduceOp;
    issue (c_allreduce (to_size_t (numel t)) dt op));
  mret (mkWork (Some req) tensors).

Definition allreduce_coalesced : M WorkCCL :=
  throw (RuntimeError "ProcessGroupCCL does not support allreduce_coalesced").

Definition reduce (pg : ProcessGroupCCL) (tensors : list Tensor)
    (reduceOp : ReduceOp) (rootRank : Z) : M WorkCCL :=
  t ← broadcast_prepare pg tensors rootRank;
  req ← CCL_CHECK (
    dt ← map_at cclDatatypes (scalar_type t);
    op ← map_at cclOps reduceOp;
    issue (c_reduce (to_size_t (numel t)) dt op (to_size_t rootRank)));
  mret (mkWork (Some req) tensors).

(** Where all-gather receives: with [USE_VECTOR_ALLGATHERV] in the
    output tensors themselves, without it in one flat tensor. *)
Inductive RecvBuffer :=
| agRecvBuffers (bufs : list Tensor)
| flatOutputTensor (t : Tensor).

(** Lines 420-442.  [USE_VECTOR_ALLGATHERV] is the preprocessor
    switch. *)
Definition allgather_prepare (USE_VECTOR_ALLGATHERV : bool)
    (pg : ProcessGroupCCL) (outputTensors : list (list Tensor))
    (inputTensors : list Tensor)
  : M (Tensor * list Tensor * RecvBuffer * list Z) :=
  checkSingleTensor inputTensors;;
  TORCH_CHECK (bool_decide (length outputTensors = 1%nat))
    "ProcessGroupCCL/allgather supports a single tensor op only";;
  out0 ← vec_at outputTensors 0;
  TORCH_CHECK (bool_decide (to_size_t (size_ pg) = Z.of_nat (length out0)))
    "ProcessGroupCCL/allgather: number of output tensors should equal to the world size";;
  in0 ← vec_at inputTensors 0;
  checkSameSizeAndType in0 out0;;
  buf ← (if USE_VECTOR_ALLGATHERV then mret (agRecvBuffers out0)
         else t ← newLikeFlat out0; mret (flatOutputTensor t));
  let recvCounts := replicate (Z.to_nat (size_ pg)) (to_size_t (numel in0)) in
  mret (in0, out0, buf, recvCounts).

Definition allgather (USE_VECTOR_ALLGATHERV : bool) (pg : ProcessGroupCCL)
    (outputTensors : list (list Tensor)) (inputTensors : list Tensor)
  : M WorkCCL :=
  '(in0, out0, buf, recvCounts) ←
    allgather_prepare USE_VECTOR_ALLGATHERV pg outputTensors inputTensors;
  req ← CCL_CHECK (
    dt ← map_at cclDatatypes (scalar_type in0);
    issue (c_allgatherv (to_size_t (numel in0)) recvCounts dt));
  match buf with
  | agRecvBuffers _ =>
      mret (mkWork (Some req) (out0 ++ [in0]))
  | flatOutputTensor flat =>
      req_wait req;;
      for_range 0 (length out0) (λ i _,
        o ← vec_at out0 i;
        copy_ o (select0 flat i)) tt;;
      mret (mkWork (Some req) [])
  end.

Definition allgather_base : M WorkCCL :=
  throw (RuntimeError "ProcessGroupCCL does not support allgather_base").

Definition allgather_coalesced : M WorkCCL :=
  throw (RuntimeError "ProcessGroupCCL does not support allgather_coalesced").

(** The copy loops of gather, scatter and all-to-all. *)
Definition copy_out (size_ : Z) (outputs splits : list Tensor) : M unit :=
  for_range 0 (Z.to_nat size_) (λ i _,
    o ← vec_at outputs i;
    s ← vec_at splits i;
    copy_ (view_flat o) s) tt.

Definition copy_in (size_ : Z) (splits inputs : list Tensor) : M unit :=
  for_range 0 (Z.to_nat size_) (λ i _,
    s ← vec_at splits i;
    t ← vec_at inputs i;
    copy_ s (view_flat t)) tt.

(** Lines 494-533. *)
Definition gather_prepare (pg : ProcessGroupCCL)
    (outputTensors : list (list Tensor)) (inputTensors : list Tensor)
    (rootRank : Z) : M (Tensor * list Z * list Z * bool * Tensor) :=
  checkSingleTensor inputTensors;;
  in0 ← vec_at inputTensors 0;
  (if bool_decide (rank_ pg ≠ rootRank) then
     TORCH_CHECK (bool_decide (length outputTensors = 0%nat))
       "Gather: number of output tensors should be 0 for non-root"
   else
     TORCH_CHECK (bool_decide (length outputTensors = 1%nat))
       "Gather: multi-GPU collective is not supported";;
     out0 ← vec_at outputTensors 0;
     TORCH_CHECK (bool_decide (to_size_t (size_ pg) = Z.of_nat (length out0)))
       "Gather: number of output tensors should equal to the world size";;
     checkSameSizeAndType in0 out0);;
  let sendCounts := replicate (Z.to_nat (size_ pg)) 0 in
  let recvCounts := replicate (Z.to_nat (size_ pg)) 0 in
  sendCounts ← vec_set sendCounts rootRank (to_size_t (numel in0));
  if bool_decide (rank_ pg = rootRank) then
    out0 ← vec_at outputTensors 0;
    '(isOutputFlat, recvCounts, flatOutput) ←
      computeLengthsAndCheckAndGetFlat out0 recvCounts;
    s ← vec_atZ sendCounts (rank_ pg);
    c ← vec_atZ recvCounts (rank_ pg);
    TORCH_CHECK (bool_decide (s = c))
      "Gather: Send and recv count doesn't match";;
    mret (in0, sendCounts, recvCounts, isOutputFlat, flatOutput)
  else
    flatOutput ← at_empty [0] in0;
    mret (in0, sendCounts, recvCounts, false, flatOutput).

Definition gather (pg : ProcessGroupCCL) (outputTensors : list (list Tensor))
    (inputTensors : list Tensor) (rootRank : Z) : M WorkCCL :=
  '(in0, sendCounts, recvCounts, isOutputFlat, flatOutput) ←
    gather_prepare pg outputTensors inputTensors rootRank;
  req ← CCL_CHECK (
    dt ← map_at cclDatatypes (scalar_type flatOutput);
    issue (c_alltoallv sendCounts recvCounts dt));
  gatherTensors ←
    (if bool_decide (rank_ pg = rootRank) then
       if negb isOutputFlat then
         req_wait req;;
         out0 ← vec_at outputTensors 0;
         copy_out (size_ pg) out0 (split_with_sizes flatOutput recvCounts);;
         mret []
       else mret [flatOutput; in0]
     else mret [in0]);
  mret (mkWork (Some req) gatherTensors).

(** Lines 582-632. *)
Definition scatter_prepare (pg : ProcessGroupCCL) (outputTensors : list Tensor)
    (inputTensors : list (list Tensor)) (rootRank : Z)
  : M (Tensor * list Z * list Z * Tensor) :=
  checkSingleTensor outputTensors;;
  out0 ← vec_at outputTensors 0;
  (if bool_decide (rank_ pg ≠ rootRank) then
     TORCH_CHECK (bool_decide (length inputTensors = 0%nat))
       "Scatter: number of input tensors should be 0 for non-root"
   else
     TORCH_CHECK (bool_decide (length inputTensors = 1%nat))
       "Scatter: multi-GPU collective is not supported";;
     in0 ← vec_at inputTensors 0;
     TORCH_CHECK (bool_decide (to_size_t (size_ pg) = Z.of_nat (length in0)))
       "Scatter: number of input tensors should equal to the world size";;
     checkSameSizeAndType out0 in0);;
  let sendCounts := replicate (Z.to_nat (size_ pg)) 0 in
  let recvCounts := replicate (Z.to_nat (size_ pg)) 0 in
  recvCounts ← vec_set recvCounts rootRank (to_size_t (numel out0));
  if bool_decide (rank_ pg = rootRank) then
    in0 ← vec_at inputTensors 0;
    '(isInputFlat, sendCounts, flatInput) ←
      computeLengthsAndCheckAndGetFlat in0 sendCounts;
    (if negb isInputFlat
     then copy_in (size_ pg) (split_with_sizes flatInput sendCounts) in0
     else mret tt);;
    c ← vec_atZ recvCounts (rank_ pg);
    s ← vec_atZ sendCounts (rank_ pg);
    TORCH_CHECK (bool_decide (c = s))
      "Scatter: Send and recv count doesn't match";;
    mret (out0, sendCounts, recvCounts, flatInput)
  else
    flatInput ← at_empty [0] out0;
    mret (out0, sendCounts, recvCounts, flatInput).

Definition scatter (pg : ProcessGroupCCL) (outputTensors : list Tensor)
    (inputTensors : list (list Tensor)) (rootRank : Z) : M WorkCCL :=
  '(out0, sendCounts, recvCounts, flatInput) ←
    scatter_prepare pg outputTensors inputTensors rootRank;
  req ← CCL_CHECK (
    dt ← map_at cclDatatypes (scalar_type flatInput);
    issue (c_alltoallv sendCounts recvCounts dt));
  let scatterTensors :=
    if bool_decide (rank_ pg = rootRank) then [out0; flatInput] else [out0] in
  mret (mkWork (Some req) scatterTensors).

Definition reduce_scatter : M WorkCCL :=
  throw (RuntimeError "ProcessGroupCCL does not support reduce_scatter").

(** Lines 702-705: the per-row length, [numel] over the group size for
    an even split and over the leading dimension otherwise; the
    division is carried out in [size_t]. *)
Definition split_len (size_ : Z) (tensor : Tensor) (splitsEqual : bool)
  : M Z :=
  let len := to_size_t (numel tensor) in
  if bool_decide (len = 0) then mret len
  else
    d ← (if splitsEqual then mret size_ else size0 tensor);
    if bool_decide (to_size_t d = 0) then undefined
    else mret (len / to_size_t d).

(** Lines 695-711: the send and receive counts of the variable
    all-to-all. *)
Definition alltoall_base_counts (size_ : Z) (outputTensor inputTensor : Tensor)
    (outputSplitSizes inputSplitSizes : list Z) : M (list Z * list Z) :=
  let sendCounts := replicate (Z.to_nat size_) 0 in
  let recvCounts := replicate (Z.to_nat size_) 0 in
  let inputSplitsEqual := bool_decide (length inputSplitSizes = 0%nat) in
  let outputSplitsEqual := bool_decide (length outputSplitSizes = 0%nat) in
  inLen ← split_len size_ inputTensor inputSplitsEqual;
  outLen ← split_len size_ outputTensor outputSplitsEqual;
  for_range 0 (Z.to_nat size_) (λ i '(sendCounts, recvCounts),
    s ← (if inputSplitsEqual then mret inLen
         else x ← vec_at inputSplitSizes i; mret (to_size_t (x * inLen)));
    r ← (if outputSplitsEqual then mret outLen
         else x ← vec_at outputSplitSizes i; mret (to_size_t (x * outLen)));
    mret (<[i := s]> sendCounts, <[i := r]> recvCounts))
    (sendCounts, recvCounts).

(** Lines 667-681 and 692-711: the checks of the branch taken and, for
    the variable all-to-all, the count tables ([None] stands for the
    fixed-size branch). *)
Definition alltoall_base_prepare (pg : ProcessGroupCCL)
    (outputTensor inputTensor : Tensor)
    (outputSplitSizes inputSplitSizes : list Z)
  : M (option (list Z * list Z)) :=
  checkSingleTensorHelper inputTensor;;
  checkSingleTensorHelper outputTensor;;
  if bool_decide (length outputSplitSizes = 0%nat) &&
     bool_decide (length inputSplitSizes = 0%nat)
  then
    TORCH_CHECK (bool_decide (numel outputTensor = numel inputTensor) &&
                 bool_decide (scalar_type outputTensor = scalar_type inputTensor))
      "Tensors are not equal in size or data type";;
    d ← size0 outputTensor;
    (if bool_decide (size_ pg = 0) then undefined else
     TORCH_CHECK (bool_decide (Z.rem d (size_ pg) = 0))
       "Tensor's dim 0 does not divide equally across group size");;
    mret None
  else
    checkSplitSizes inputSplitSizes inputTensor (size_ pg);;
    checkSplitSizes outputSplitSizes outputTensor (size_ pg);;
    counts ← alltoall_base_counts (size_ pg) outputTensor inputTensor
                                  outputSplitSizes inputSplitSizes;
    mret (Some counts).

Definition alltoall_base (pg : ProcessGroupCCL) (outputTensor inputTensor : Tensor)
    (outputSplitSizes inputSplitSizes : list Z) : M WorkCCL :=
  counts ← alltoall_base_prepare pg outputTensor inputTensor
                                 outputSplitSizes inputSplitSizes;
  req ← CCL_CHECK (
    dt ← map_at cclDatatypes (scalar_type outputTensor);
    match counts with
    | None =>
        issue (c_alltoall
                 (to_size_t (numel outputTensor) / to_size_t (size_ pg)) dt)
    | Some (sendCounts, recvCounts) =>
        issue (c_alltoallv sendCounts recvCounts dt)
    end);
  mret (mkWork (Some req) [inputTensor; outputTensor]).

(** Lines 731-762. *)
Definition alltoall_prepare (pg : ProcessGroupCCL)
    (outputTensors inputTensors : list Tensor)
  : M (list Z * list Z * Tensor * bool * Tensor) :=
  TORCH_CHECK (bool_decide (Z.of_nat (length inputTensors) = to_size_t (size_ pg)))
    "Number of input tensors are not equal to group size";;
  TORCH_CHECK (bool_decide (Z.of_nat (length outputTensors) = to_size_t (size_ pg)))
    "Number of output tensors are not equal to group size";;
  out0 ← vec_at outputTensors 0;
  checkSameType out0 inputTensors;;
  in0 ← vec_at inputTensors 0;
  checkSameType in0 outputTensors;;
  let sendCounts := replicate (Z.to_nat (size_ pg)) 0 in
  let recvCounts := replicate (Z.to_nat (size_ pg)) 0 in
  '(isInputFlat, sendCounts, flatInput) ←
    computeLengthsAndCheckAndGetFlat inputTensors sendCounts;
  '(isOutputFlat, recvCounts, flatOutput) ←
    computeLengthsAndCheckAndGetFlat outputTensors recvCounts;
  (if negb isInputFlat
   then copy_in (size_ pg) (split_with_sizes flatInput sendCounts) inputTensors
   else mret tt);;
  mret (sendCounts, recvCounts, flatInput, isOutputFlat, flatOutput).

Definition alltoall (pg : ProcessGroupCCL) (outputTensors inputTensors : list Tensor)
  : M WorkCCL :=
  '(sendCounts, recvCounts, flatInput, isOutputFlat, flatOutput) ←
    alltoall_prepare pg outputTensors inputTensors;
  req ← CCL_CHECK (
    dt ← map_at cclDatatypes (scalar_type flatOutput);
    issue (c_alltoallv sendCounts recvCounts dt));
  a2aTensors ←
    (if negb isOutputFlat then
       req_wait req;;
       copy_out (size_ pg) outputTensors (split_with_sizes flatOutput recvCounts);;
       mret []
     else mret [flatOutput; flatInput]);
  mret (mkWork (Some req) a2aTensors).

Definition send : M WorkCCL :=
  throw (RuntimeError "ProcessGroupCCL does not support send").

Definition recv : M WorkCCL :=
  throw (RuntimeError "ProcessGroupCCL does not support recv").

Definition recvAnysource : M WorkCCL :=
  throw (RuntimeError "ProcessGroupCCL does not support recvAnysource").

Definition barrier (pg : ProcessGroupCCL) : M WorkCCL :=
  CCL_CHECK comm_barrier;;
  mret (mkWork None []).

(** ** Running the engine on concrete inputs *)

(** A dense host tensor of the given shape and type at an offset into a
    storage. *)
Definition dense (shape : list Z) (ty : ScalarType) (st : nat) (off : Z)
  : Tensor :=
  mkTensor shape ty st off true false false.

(** A world with [n] storages allocated, no request and an unscripted
    substrate. *)
Definition fresh_world (n : nat) : World := mkWorld [] [] n [].

(** ** Vocabulary of the specification *)

Definition total (xs : list Z) : Z := foldr Z.add 0 xs.

(** The first buffer of the list with a non-zero element count. *)
Fixpoint first_nonempty (ts : list Tensor) : option Tensor :=
  match ts with
  | [] => None
  | t :: ts' => if bool_decide (numel t = 0) then first_nonempty ts' else Some t
  end.

(** The layout anchor: the first non-empty buffer, and the first buffer
    when all are empty. *)
Definition anchor (ts : list Tensor) : option Tensor :=
  match first_nonempty ts with
  | Some a => Some a
  | None => head ts
  end.

(** A buffer is in place when it aliases the anchor's backing allocation
    and sits at the anchor's offset plus the running sum [run] of the
    lengths before it. *)
Definition in_place (a : Tensor) (run : Z) (t : Tensor) : bool :=
  is_alias_of (storage a) (storage t) &&
  bool_decide (storage_offset t = storage_offset a + run).

(** Every non-empty buffer of [ts] is in place, the running sum
    starting at [run]. *)
Fixpoint all_in_place (a : Tensor) (run : Z) (ts : list Tensor) : bool :=
  match ts with
  | [] => true
  | t :: ts' =>
      (bool_decide (numel t = 0) || in_place a run t) &&
      all_in_place a (run + numel t) ts'
  end.

(** The loop unrolled over the buffers it visits. *)
Fixpoint reconcile_fold (i : nat) (ts : list Tensor) (st : Loop.state)
  : Loop.state :=
  match ts with
  | [] => st
  | t :: ts' => reconcile_fold (Datatypes.S i) ts' (reconcile_step t i st)
  end.

(** The length table after the loop has visited [ts] from index [i]. *)
Fixpoint fill_lengths (i : nat) (ts : list Tensor) (l : list Z) : list Z :=
  match ts with
  | [] => l
  | t :: ts' => fill_lengths (Datatypes.S i) ts' (<[i := to_size_t (numel t)]> l)
  end.

(** The verdict of the reconciler, when it returns one. *)
Definition flat_verdict (ts : list Tensor) (lengths : list Z) (w : World)
  : option bool :=
  match (computeLengthsAndCheckAndGetFlat ts lengths w).1 with
  | Ret r => Some r.1.1
  | _ => None
  end.

(** A split list as section 4.3 of the specification asks for it: empty
    with the group size dividing the leading dimension [d], or one entry
    per rank with the entries summing to [d]. *)
Definition valid_split (groupSize : Z) (d : Z) (split_sizes : list Z) : Prop :=
  match split_sizes with
  | [] => Z.rem d groupSize = 0
  | _ => Z.of_nat (length split_sizes) = groupSize ∧ total split_sizes = d
  end.

(** The count table lines 707-711 build from a row length and a split
    list: the row length for every rank when the list is empty, and
    the split sizes scaled by the row length, in [size_t], otherwise. *)
Definition split_counts (size_ : Z) (len : Z) (split_sizes : list Z) : list Z :=
  match split_sizes with
  | [] => replicate (Z.to_nat size_) len
  | _ => (λ x, to_size_t (x * len)) <$> split_sizes
  end.



Definition is_copy (e : Event) : Prop :=
  match e with
  | EvCopy _ _ => True
  | _ => False
  end.

(** What [req->wait()] and the copies after it leave behind: request
    [r] has completed, and the trace has grown from [tr] by the wait
    and the copies. *)
Definition waited (tr : list Event) (r : nat) (w : World) : Prop :=
  requests w !! r = Some Completed ∧
  ∃ copies, trace w = tr ++ EvWait r :: copies ∧ Forall is_copy copies.

(** The state of a handle whose request was waited for before the
    handle was built.  [locked] is the world in which the operation took
    the lock: since then the collective was issued, its request [r] was
    waited for and the results were copied, in this order and nothing
    else; [r] has completed; the handle holds [r] and no buffer. *)
Definition waited_in_dispatch (locked : World) (h : WorkCCL) (w : World)
  : Prop :=
  ∃ r c copies,
    req h = Some r ∧ tensors h = [] ∧
    requests w !! r = Some Completed ∧
    trace w = trace locked ++ EvIssue c r :: EvWait r :: copies ∧
    Forall is_copy copies.

(** ** Concrete inputs *)

(** Three float buffers carved out of storage 0 one after the other,
    starting at offset 5. *)
Definition contiguous3 : list Tensor :=
  [ dense [2] kFloat 0 5; dense [3] kFloat 0 7; dense [2; 2] kFloat 0 10 ].

(** A list that begins with an empty buffer of another allocation,
    followed by two buffers of storage 1. *)
Definition empty_then_two : list Tensor :=
  [ dense [0] kInt 2 9; dense [4] kInt 1 3; dense [2] kInt 1 7 ].

(** Inputs of the dispatch examples: a group of two ranks, one input
    buffer and two output buffers of separate allocations. *)
Definition pg2 : ProcessGroupCCL := mkPG 0 2.
Definition in3 : Tensor := dense [3] kInt 0 0.
Definition out3a : Tensor := dense [3] kInt 1 0.
Definition out3b : Tensor := dense [3] kInt 2 0.

(** ** Vocabulary of the further properties *)

(** What [checkSingleTensorHelper] asks of a buffer: contiguous, dense,
    on the host, with a non-negative element count. *)
Definition host_dense (t : Tensor) : bool :=
  is_contiguous t && negb (is_sparse t) && negb (is_cuda t) &&
  bool_decide (0 ≤ numel t).

(** A buffer of the element count and type of [t] that passes the
    checks of [checkSingleTensorHelper]. *)
Definition like (t : Tensor) (ti : Tensor) : bool :=
  bool_decide (numel ti = numel t) &&
  bool_decide (scalar_type ti = scalar_type t) && host_dense ti.

(** The same without the element count. *)
Definition same_type (t : Tensor) (ti : Tensor) : bool :=
  bool_decide (scalar_type ti = scalar_type t) && host_dense ti.

(** A [std::runtime_error]. *)
Definition is_runtime_error (e : Exn) : Prop :=
  match e with
  | RuntimeError _ => True
  | _ => False
  end.

(** What the substrate does with the next call, as [issue] and
    [comm_barrier] read it off the script. *)
Definition next_behaviour (w : World) : Behaviour :=
  match script w with
  | [] => Yields (InFlight 0)
  | b :: _ => b
  end.

(** The world after the substrate has refused a call. *)
Definition refused (w : World) : World :=
  mkWorld (requests w) (tail (script w)) (next_storage w) (trace w).

(** The world after the substrate has accepted collective [c] and
    handed out a request in state [st]. *)
Definition accepted (c : Collective) (st : ReqState) (w : World) : World :=
  mkWorld (requests w ++ [st]) (tail (script w)) (next_storage w)
          (trace w ++ [EvIssue c (length (requests w))]).

(** An asynchronous launch: the collective [c] is issued through
    [CCL_CHECK]; a substrate error comes back as [std::runtime_error],
    and otherwise the handle holds the new request and keeps [keep]. *)
Definition launched (c : Collective) (keep : list Tensor) (w : World)
  : Outcome WorkCCL * World :=
  match next_behaviour w with
  | Raises => (Throw (RuntimeError "CCL error in: "), refused w)
  | Yields st => (Ret (mkWork (Some (length (requests w))) keep), accepted c st w)
  end.

(** A world with further events in its trace. *)
Definition add_trace (evs : list Event) (w : World) : World :=
  mkWorld (requests w) (script w) (next_storage w) (trace w ++ evs).

(** The world after [at::empty] has allocated [t]. *)
Definition allocated (t : Tensor) (w : World) : World :=
  mkWorld (requests w) (script w) (Datatypes.S (next_storage w))
          (trace w ++ [EvAlloc t]).

(** What the reconciler returns for a list with anchor [a] in world
    [w]: the verdict, the flat buffer (the anchor, or a fresh buffer of
    the summed element count) and the world it leaves. *)
Definition reconciled (ts : list Tensor) (a : Tensor) (w : World)
  : bool * Tensor * World :=
  if all_in_place a 0 ts then (true, a, w)
  else
    let flat := mkTensor [total (numel <$> ts)] (scalar_type a) (next_storage w)
                         0 true (is_sparse a) (is_cuda a) in
    (false, flat, allocated flat w).

(** The length table the reconciler fills in. *)
Definition lengths_of (ts : list Tensor) : list Z :=
  (λ t, to_size_t (numel t)) <$> ts.

(** The world after the inputs [ts] were staged in the flat buffer: when
    the list was not flat, every input has been copied into its slice. *)
Definition staged (ts : list Tensor) (isFlat : bool) (flat : Tensor)
    (w : World) : World :=
  if isFlat then w
  else add_trace (zip_with (λ s t, EvCopy s (view_flat t))
                    (split_with_sizes flat (lengths_of ts)) ts) w.

(** ** Process-wide initialisation (lines 73-77 and 270-335)

    The globals of the file live outside the [World] of the collective
    operations; the functions below pass them explicitly. *)

(** A [ccl::communicator] as far as the engine looks at it: its rank and
    size, both [size_t]. *)
Record Communicator := mkComm {
  comm_rank : Z;
  comm_size : Z
}.

(** [cclInitOnceFlag], [globalComm] (a smart pointer, [None] when
    null), how many times [cclFini] is registered with [std::atexit] and
    how many communicators were created; then the oracle for the
    process: the communicator the substrate hands out, and whether the
    next calls of [create_communicator] and of [std::atexit] succeed
    (they do once a script is used up). *)
Record Globals := mkGlobals {
  cclInitOnceFlag : bool;
  globalComm : option Communicator;
  exit_handlers : nat;
  created : nat;
  substrate_comm : Communicator;
  create_script : list bool;
  atexit_script : list bool
}.

Definition G (A : Type) : Type := Globals → Outcome A * Globals.

Definition G_bind {A B} (m : G A) (f : A → G B) : G B := λ g,
  match m g with
  | (Ret a, g') => f a g'
  | (Throw e, g') => (Throw e, g')
  | (Undefined, g') => (Undefined, g')
  | (Terminate, g') => (Terminate, g')
  end.

(** [ccl::environment::instance().create_communicator()]. *)
Definition create_communicator : G Communicator := λ g,
  match create_script g with
  | false :: s =>
      (Throw CclError,
       mkGlobals (cclInitOnceFlag g) (globalComm g) (exit_handlers g)
                 (created g) (substrate_comm g) s (atexit_script g))
  | s =>
      (Ret (substrate_comm g),
       mkGlobals (cclInitOnceFlag g) (globalComm g) (exit_handlers g)
                 (Datatypes.S (created g)) (substrate_comm g) (tail s)
                 (atexit_script g))
  end.

(** [std::atexit(ProcessGroupCCL::cclFini)]: [true] stands for the
    return value 0. *)
Definition atexit_cclFini : G bool := λ g,
  match atexit_script g with
  | false :: s =>
      (Ret false,
       mkGlobals (cclInitOnceFlag g) (globalComm g) (exit_handlers g)
                 (created g) (substrate_comm g) (create_script g) s)
  | s =>
      (Ret true,
       mkGlobals (cclInitOnceFlag g) (globalComm g)
                 (Datatypes.S (exit_handlers g))
                 (created g) (substrate_comm g) (create_script g) (tail s))
  end.

Definition set_globalComm (c : option Communicator) : G unit := λ g,
  (Ret tt,
   mkGlobals (cclInitOnceFlag g) c (exit_handlers g) (created g)
             (substrate_comm g) (create_script g) (atexit_script g)).

(** [globalComm->...]: dereferencing the null pointer is undefined. *)
Definition deref_globalComm : G Communicator := λ g,
  match globalComm g with
  | Some c => (Ret c, g)
  | None => (Undefined, g)
  end.

(** [CCL_CHECK] over the globals. *)
Definition CCL_CHECK_init {A} (cmd : G A) : G A := λ g,
  match cmd g with
  | (Throw CclError, g') => (Throw (RuntimeError "CCL error in: "), g')
  | (Throw _, g') => (Throw (RuntimeError "unknown error in: "), g')
  | r => r
  end.

(** Lines 270-274. *)
Definition cclFini : G unit := set_globalComm None.

(** Lines 278-300, the function passed to [std::call_once]; the
    attributes set under USE_CACHE and USE_VECTOR_ALLGATHERV are not
    modelled. *)
Definition cclInitOnce_body : G unit :=
  G_bind (CCL_CHECK_init create_communicator) (λ c,
  G_bind (set_globalComm (Some c)) (λ _,
  G_bind atexit_cclFini (λ ok,
  if ok then (λ g, (Ret tt, g))
  else (λ g,
    (Throw (RuntimeError "failed to register the CCL exit handler"), g))))).

(** Lines 276-301.  [std::call_once] does nothing once the flag is set;
    otherwise it runs the function and sets the flag when the function
    returns; when the function throws, the exception goes to the caller
    and the flag stays unset. *)
Definition cclInitOnce : G unit := λ g,
  if cclInitOnceFlag g then (Ret tt, g)
  else
    match cclInitOnce_body g with
    | (Ret tt, g') =>
        (Ret tt,
         mkGlobals true (globalComm g') (exit_handlers g') (created g')
                   (substrate_comm g') (create_script g') (atexit_script g'))
    | r => r
    end.

(** Lines 323-329: the base class receives the rank and size of the
    global communicator, converted from [size_t] to [int]; the group
    then creates a communicator of its own. *)
Definition ProcessGroupCCL_ctor (rank size : Z) : G ProcessGroupCCL :=
  G_bind deref_globalComm (λ c,
  G_bind (CCL_CHECK_init create_communicator) (λ _ g,
  (Ret (mkPG (to_int (comm_rank c)) (to_int (comm_size c))), g))).

(** Lines 303-321; the numbers that end the two messages are left
    out. *)
Definition createProcessGroupCCL (rank size : Z) : G ProcessGroupCCL :=
  G_bind cclInitOnce (λ _,
  G_bind (if bool_decide (rank = -1) then (λ g, (Ret tt, g))
          else G_bind deref_globalComm (λ c g,
            if bool_decide (to_size_t rank = comm_rank c) then (Ret tt, g)
            else (Throw (TorchCheck "unexpected rank "), g))) (λ _,
  G_bind (if bool_decide (size = -1) then (λ g, (Ret tt, g))
          else G_bind deref_globalComm (λ c g,
            if bool_decide (to_size_t size = comm_size c) then (Ret tt, g)
            else (Throw (TorchCheck "unexpected size "), g))) (λ _,
  ProcessGroupCCL_ctor rank size))).

(** The exit handler is registered exactly when the initialisation has
    completed. *)
Definition init_inv (g : Globals) : Prop :=
  exit_handlers g = (if cclInitOnceFlag g then 1 else 0)%nat.

(** The globals when the process starts, for a substrate that gives
    communicator [c]. *)
Definition start (c : Communicator) (creates exits : list bool) : Globals :=
  mkGlobals false None 0 0 c creates exits.

(** A process on rank 0 of 2. *)
Definition start2 : Globals := start (mkComm 0 2) [] [].

(** The same after the initialisation and one group. *)
Definition running2 : Globals :=
  mkGlobals true (Some (mkComm 0 2)) 1 2 (mkComm 0 2) [] [].

(** ** Reasoning about the monad *)

Lemma bind_ret {A B} (m : M A) (f : A → M B) w a w' :
  m w = (Ret a, w') → (m ≫= f) w = f a w'.
Proof. intros H. unfold mbind, M_bind. by rewrite H. Qed.

Lemma bind_inv {A B} (m : M A) (f : A → M B) w b w2 :
  (m ≫= f) w = (Ret b, w2) →
  ∃ a w1, m w = (Ret a, w1) ∧ f a w1 = (Ret b, w2).
Proof.
  unfold mbind, M_bind. destruct (m w) as [[a| | |] w1]; try discriminate.
  intros H. by exists a, w1.
Qed.

Lemma bind_throw {A B} (m : M A) (f : A → M B) w e w' :
  m w = (Throw e, w') → (m ≫= f) w = (Throw e, w').
Proof. intros H. unfold mbind, M_bind. by rewrite H. Qed.

Lemma bind_undefined {A B} (m : M A) (f : A → M B) w w' :
  m w = (Undefined, w') → (m ≫= f) w = (Undefined, w').
Proof. intros H. unfold mbind, M_bind. by rewrite H. Qed.

Lemma ret_inv {A} (a b : A) w w' :
  (mret a : M A) w = (Ret b, w') → a = b ∧ w = w'.
Proof. intros [= -> ->]. done. Qed.

Lemma CCL_CHECK_inv {A} (m : M A) w a w' :
  CCL_CHECK m w = (Ret a, w') → m w = (Ret a, w').
Proof.
  unfold CCL_CHECK. destruct (m w) as [[x|e| |] w1]; try done.
  by destruct e.
Qed.

(** Evaluates the checks whose outcome is known and the binds after
    them. *)
Ltac msimpl :=
  repeat first
    [ rewrite bool_decide_eq_true_2 by (done || lia)
    | rewrite bool_decide_eq_false_2 by (done || lia)
    | progress unfold mbind, M_bind, mret, M_ret, TORCH_CHECK, throw, undefined
    | progress cbn beta iota delta [andb negb orb fst snd] ].

(** ** The reconciler *)

Section reconciler.
Implicit Types (ts pre post : list Tensor) (st : Loop.state) (l : list Z).

Lemma for_range_reconcile tensors post : ∀ pre st w,
  tensors = pre ++ post →
  for_range (length pre) (length post)
    (λ i st, curTensor ← vec_at tensors i; mret (reconcile_step curTensor i st))
    st w
  = (Ret (reconcile_fold (length pre) post st), w).
Proof.
  induction post as [|t post IH]; intros pre st w ->; [done|].
  cbn [for_range length reconcile_fold].
  erewrite bind_ret; last first.
  { unfold vec_at. rewrite list_lookup_middle by done. reflexivity. }
  specialize (IH (pre ++ [t]) (reconcile_step t (length pre) st) w).
  rewrite length_app, Nat.add_1_r in IH. apply IH.
  by rewrite <- app_assoc.
Qed.

Lemma reconcile_loop_run t0 ts l w :
  length l = length (t0 :: ts) →
  reconcile_loop (t0 :: ts) l w
  = (Ret (reconcile_fold 0 (t0 :: ts) (reconcile_init t0 l)), w).
Proof.
  intros Hl. unfold reconcile_loop. rewrite Hl.
  erewrite bind_ret by reflexivity.
  by apply (for_range_reconcile (t0 :: ts) (t0 :: ts) []).
Qed.

Lemma step_flat t i st :
  Loop.isFlat (reconcile_step t i st)
  = Loop.isFlat st &&
    (bool_decide (numel t = 0) ||
     (is_alias_of (Loop.storage (reconcile_step t i st)) (storage t) &&
      bool_decide (storage_offset t =
        Loop.firstStorageOffset (reconcile_step t i st) + Loop.offset st))).
Proof.
  cbn. destruct (Loop.isFlat st), (bool_decide (numel t = 0)); cbn; try done.
  destruct (is_alias_of _ _), (bool_decide (storage_offset t = _)); done.
Qed.

Lemma fold_zeros zs : ∀ i st,
  Loop.firstLength st = 0 →
  Forall (λ t, numel t = 0) zs →
  reconcile_fold i zs st
  = Loop.mk 0 (Loop.firstTensor st) (Loop.storage st)
      (Loop.firstStorageOffset st) (Loop.isFlat st) (Loop.offset st)
      (fill_lengths i zs (Loop.lengths st)).
Proof.
  induction zs as [|z zs IH]; intros i st H0 Hz.
  - destruct st; cbn in *. by subst.
  - apply Forall_cons in Hz as [Hz Hzs]. cbn [reconcile_fold fill_lengths].
    assert (Hb : bool_decide (numel z = 0) = true) by by apply bool_decide_eq_true.
    rewrite IH; [|cbn; by rewrite Hb, andb_false_r|done].
    rewrite step_flat. cbn. rewrite Hb, andb_false_r. cbn.
    by rewrite andb_true_r, Hz, Z.add_0_r.
Qed.

Lemma fold_anchored a ts : ∀ i st,
  Loop.firstLength st ≠ 0 →
  Loop.storage st = storage a →
  Loop.firstStorageOffset st = storage_offset a →
  reconcile_fold i ts st
  = Loop.mk (Loop.firstLength st) (Loop.firstTensor st) (storage a)
      (storage_offset a)
      (Loop.isFlat st && all_in_place a (Loop.offset st) ts)
      (Loop.offset st + total (numel <$> ts))
      (fill_lengths i ts (Loop.lengths st)).
Proof.
  induction ts as [|t ts IH]; intros i st Hne Hs Ho.
  - destruct st; cbn in *. subst. by rewrite andb_true_r, Z.add_0_r.
  - assert (Hadopt : bool_decide (Loop.firstLength st = 0) = false)
      by by apply bool_decide_eq_false.
    cbn [reconcile_fold fill_lengths all_in_place fmap list_fmap].
    rewrite IH; cbn; rewrite ?Hadopt; cbn; try done.
    f_equal.
    + pose proof (step_flat t i st) as Hf. cbn in Hf.
      rewrite Hadopt in Hf. cbn in Hf. rewrite Hf, Hs, Ho.
      unfold in_place. by rewrite andb_assoc.
    + unfold total. cbn. lia.
Qed.

Lemma reconcile_fold_app xs ys : ∀ i st,
  reconcile_fold i (xs ++ ys) st
  = reconcile_fold (i + length xs) ys (reconcile_fold i xs st).
Proof.
  induction xs as [|x xs IH]; intros i st; cbn.
  - by rewrite Nat.add_0_r.
  - rewrite IH. f_equal. lia.
Qed.

Lemma fill_lengths_app xs ys : ∀ i l,
  fill_lengths i (xs ++ ys) l
  = fill_lengths (i + length xs) ys (fill_lengths i xs l).
Proof.
  induction xs as [|x xs IH]; intros i l; cbn.
  - by rewrite Nat.add_0_r.
  - rewrite IH. f_equal. lia.
Qed.

Lemma total_app (xs ys : list Z) : total (xs ++ ys) = total xs + total ys.
Proof. unfold total. induction xs as [|x xs IH]; cbn; lia. Qed.

Lemma total_zeros zs :
  Forall (λ t, numel t = 0) zs → total (numel <$> zs) = 0.
Proof. induction 1 as [|z zs Hz _ IH]; cbn; [done|]. unfold total in IH. lia. Qed.

Lemma all_in_place_zeros a zs ts : ∀ run,
  Forall (λ t, numel t = 0) zs →
  all_in_place a run (zs ++ ts) = all_in_place a run ts.
Proof.
  intros run Hz. induction Hz as [|z zs Hz _ IH]; cbn; [done|].
  rewrite bool_decide_eq_true_2 by done. by rewrite Hz, Z.add_0_r.
Qed.

Lemma in_place_self a : in_place a 0 a = true.
Proof.
  unfold in_place, is_alias_of.
  rewrite !bool_decide_eq_true_2; [done|lia|done].
Qed.

(** The iteration that meets the first non-empty buffer [a], coming
    from the initial state or from a run of empty buffers. *)
Lemma step_first_nonempty a i st :
  numel a ≠ 0 →
  Loop.isFlat st = true →
  Loop.offset st = 0 →
  Loop.firstLength st = 0 ∨
    (Loop.firstLength st = numel a ∧ Loop.firstTensor st = a ∧
     Loop.storage st = storage a ∧
     Loop.firstStorageOffset st = storage_offset a) →
  reconcile_step a i st
  = Loop.mk (numel a) a (storage a) (storage_offset a) true (numel a)
      (<[i := to_size_t (numel a)]> (Loop.lengths st)).
Proof.
  intros Hne Hf Ho Hst.
  pose proof (step_flat a i st) as Hflat. revert Hflat.
  unfold reconcile_step. cbn [Loop.isFlat Loop.storage Loop.firstStorageOffset].
  rewrite (bool_decide_eq_false_2 (numel a = 0)) by done.
  destruct Hst as [H0 | (Hl & Ht & Hs & Hso)].
  - rewrite (bool_decide_eq_true_2 _ H0). cbn [andb negb orb].
    intros ->. rewrite Hf, Ho. f_equal.
    pose proof (in_place_self a) as Hp. unfold in_place in Hp. by rewrite Hp.
  - rewrite bool_decide_eq_false_2 by congruence. cbn [andb negb orb].
    intros ->. rewrite Hf, Ho, Hl, Ht, Hs, Hso. f_equal.
    pose proof (in_place_self a) as Hp. unfold in_place in Hp. by rewrite Hp.
Qed.

(** The loop on a list whose first non-empty buffer is [a]. *)
Lemma fold_from_init zs a rest l t0 :
  Forall (λ t, numel t = 0) zs →
  numel a ≠ 0 →
  head (zs ++ a :: rest) = Some t0 →
  reconcile_fold 0 (zs ++ a :: rest) (reconcile_init t0 l)
  = Loop.mk (numel a) a (storage a) (storage_offset a)
      (all_in_place a 0 (zs ++ a :: rest))
      (total (numel <$> zs ++ a :: rest))
      (fill_lengths 0 (zs ++ a :: rest) l).
Proof.
  intros Hz Hne Hhd.
  rewrite reconcile_fold_app, fill_lengths_app, fmap_app, total_app.
  rewrite total_zeros, all_in_place_zeros by done.
  cbn [reconcile_fold fill_lengths all_in_place fmap list_fmap].
  set (st := reconcile_fold 0 zs (reconcile_init t0 l)).
  assert (Hst : Loop.isFlat st = true ∧ Loop.offset st = 0 ∧
                Loop.lengths st = fill_lengths 0 zs l ∧
                (Loop.firstLength st = 0 ∨
                 (Loop.firstLength st = numel a ∧ Loop.firstTensor st = a ∧
                  Loop.storage st = storage a ∧
                  Loop.firstStorageOffset st = storage_offset a))).
  { subst st. destruct Hz as [|z zs Hz0 Hzs]; cbn in Hhd.
    - injection Hhd as <-. cbn. auto 10.
    - injection Hhd as <-.
      rewrite fold_zeros by (done || by constructor). cbn. auto. }
  destruct Hst as (Hf & Ho & Hl & Hanchor).
  rewrite step_first_nonempty by done.
  rewrite (fold_anchored a) by done. cbn.
  rewrite Hl, bool_decide_eq_false_2, in_place_self by done. cbn.
  f_equal.
Qed.

(** The loop on a list of empty buffers. *)
Lemma fold_all_empty t0 zs l :
  Forall (λ t, numel t = 0) (t0 :: zs) →
  reconcile_fold 0 (t0 :: zs) (reconcile_init t0 l)
  = Loop.mk 0 t0 (storage t0) (storage_offset t0) true 0
      (fill_lengths 0 (t0 :: zs) l).
Proof.
  intros Hz. rewrite fold_zeros; [done| |done].
  cbn. by apply Forall_cons in Hz as [? _].
Qed.

(** A list is a run of empty buffers, followed or not by a first
    non-empty buffer and the rest. *)
Lemma first_nonempty_split ts :
  match first_nonempty ts with
  | None => Forall (λ t, numel t = 0) ts
  | Some a => ∃ zs rest, ts = zs ++ a :: rest ∧
                Forall (λ t, numel t = 0) zs ∧ numel a ≠ 0
  end.
Proof.
  induction ts as [|t ts IH]; cbn; [done|].
  case_bool_decide as Ht.
  - destruct (first_nonempty ts) as [a|].
    + destruct IH as (zs & rest & -> & Hz & Ha).
      exists (t :: zs), rest. split_and!; [done|by constructor|done].
    + by constructor.
  - exists [], ts. split_and!; [done|constructor|done].
Qed.

Lemma fill_lengths_spec ts : ∀ done_ l,
  length l = length ts →
  fill_lengths (length done_) ts (done_ ++ l)
  = done_ ++ ((λ t, to_size_t (numel t)) <$> ts).
Proof.
  induction ts as [|t ts IH]; intros done_ l Hl.
  - destruct l; [done|discriminate].
  - destruct l as [|x l]; [discriminate|]. cbn [fill_lengths].
    replace (<[length done_:=to_size_t (numel t)]> (done_ ++ x :: l))
      with ((done_ ++ [to_size_t (numel t)]) ++ l).
    2:{ rewrite <- app_assoc. cbn.
        by rewrite insert_app_r_alt, Nat.sub_diag by lia. }
    specialize (IH (done_ ++ [to_size_t (numel t)]) l).
    rewrite length_app, Nat.add_1_r in IH. rewrite IH by (cbn in Hl; lia).
    by rewrite <- app_assoc.
Qed.

Lemma fill_lengths_all ts l :
  length l = length ts →
  fill_lengths 0 ts l = (λ t, to_size_t (numel t)) <$> ts.
Proof. intros Hl. by apply (fill_lengths_spec ts [] l). Qed.

(** The locals after the loop, for a list with anchor [a]. *)
Lemma reconcile_final t0 ts l a :
  anchor (t0 :: ts) = Some a →
  reconcile_fold 0 (t0 :: ts) (reconcile_init t0 l)
  = Loop.mk (numel a) a (storage a) (storage_offset a)
      (all_in_place a 0 (t0 :: ts))
      (total (numel <$> t0 :: ts))
      (fill_lengths 0 (t0 :: ts) l).
Proof.
  unfold anchor. pose proof (first_nonempty_split (t0 :: ts)) as Hsplit.
  destruct (first_nonempty (t0 :: ts)) as [a'|].
  - intros [= ->]. destruct Hsplit as (zs & rest & Heq & Hz & Ha).
    rewrite Heq. apply fold_from_init; [done..|]. by rewrite <- Heq.
  - intros [= ->]. rewrite fold_all_empty by done.
    pose proof (all_in_place_zeros a (a :: ts) [] 0 Hsplit) as Hp.
    rewrite app_nil_r in Hp. rewrite Hp, total_zeros by done.
    apply Forall_cons in Hsplit as [-> _]. done.
Qed.

Lemma first_nonempty_insert pre z post :
  numel z = 0 →
  first_nonempty (pre ++ z :: post) = first_nonempty (pre ++ post).
Proof.
  intros Hz. induction pre as [|p pre IH]; cbn.
  - by rewrite bool_decide_eq_true_2.
  - by rewrite IH.
Qed.

Lemma all_in_place_insert a pre z post : ∀ run,
  numel z = 0 →
  all_in_place a run (pre ++ z :: post) = all_in_place a run (pre ++ post).
Proof.
  intros run Hz. revert run. induction pre as [|p pre IH]; intros run; cbn.
  - rewrite bool_decide_eq_true_2 by done. by rewrite Hz, Z.add_0_r.
  - by rewrite IH.
Qed.

Lemma all_in_place_true a ts : ∀ run,
  (∀ i t, ts !! i = Some t →
     storage t = storage a ∧
     storage_offset t = storage_offset a + (run + total (numel <$> take i ts))) →
  all_in_place a run ts = true.
Proof.
  induction ts as [|t ts IH]; intros run H; cbn; [done|].
  destruct (H 0%nat t eq_refl) as [Hs Ho]. cbn in Ho.
  rewrite IH.
  - unfold in_place, is_alias_of.
    rewrite (bool_decide_eq_true_2 (storage a = storage t)) by done.
    rewrite (bool_decide_eq_true_2 (storage_offset t = _)) by lia.
    by rewrite orb_true_r.
  - intros i t' Hi. destruct (H (S i) t' Hi) as [Hs' Ho']. split; [done|].
    rewrite Ho'. cbn. unfold total. cbn. lia.
Qed.

Lemma numel_nonneg t : Forall (λ d, 0 ≤ d) (sizes t) → 0 ≤ numel t.
Proof. unfold numel. induction 1; cbn; lia. Qed.

Lemma to_size_t_numel t : tensor_ok t → to_size_t (numel t) = numel t.
Proof.
  intros [Hd Hlt]. apply numel_nonneg in Hd. unfold to_size_t.
  apply Z.mod_small. lia.
Qed.

(** The reconciler on a non-empty list with a length table of the
    same size, in terms of the anchor. *)
Lemma reconciler_run t0 ts l a w :
  length l = length (t0 :: ts) →
  anchor (t0 :: ts) = Some a →
  computeLengthsAndCheckAndGetFlat (t0 :: ts) l w
  = if all_in_place a 0 (t0 :: ts)
    then (Ret (true, (λ t, to_size_t (numel t)) <$> t0 :: ts, a), w)
    else (a' ← at_empty [total (numel <$> t0 :: ts)] a;
          mret (false, (λ t, to_size_t (numel t)) <$> t0 :: ts, a')) w.
Proof.
  intros Hl Ha. unfold computeLengthsAndCheckAndGetFlat.
  erewrite bind_ret by by apply reconcile_loop_run.
  rewrite (reconcile_final _ _ _ a), fill_lengths_all by done.
  cbn [Loop.isFlat Loop.firstTensor Loop.offset Loop.lengths].
  by destruct (all_in_place a 0 (t0 :: ts)).
Qed.

Lemma flat_verdict_spec t0 ts l a w :
  length l = length (t0 :: ts) →
  anchor (t0 :: ts) = Some a →
  flat_verdict (t0 :: ts) l w = Some (all_in_place a 0 (t0 :: ts)).
Proof.
  intros Hl Ha. unfold flat_verdict. rewrite (reconciler_run _ _ _ a) by done.
  by destruct (all_in_place a 0 (t0 :: ts)).
Qed.

End reconciler.

(** The in-place check of a list, spelled out. *)
Lemma all_in_place_iff a ts : ∀ run,
  all_in_place a run ts = true ↔
  ∀ i t, ts !! i = Some t → numel t ≠ 0 →
    storage t = storage a ∧
    storage_offset t = storage_offset a + (run + total (numel <$> take i ts)).
Proof.
  induction ts as [|t ts IH]; intros run; cbn [all_in_place].
  - split; [intros _ i t' [=]|done].
  - rewrite andb_true_iff, IH, orb_true_iff, bool_decide_eq_true.
    unfold in_place, is_alias_of.
    rewrite andb_true_iff, !bool_decide_eq_true. split.
    + intros [Ht Hts] [|i] t' Hi Hne.
      * injection Hi as <-. cbn. unfold total. cbn.
        destruct Ht as [Ht | [Hs Ho]]; [done|]. split; [done|lia].
      * destruct (Hts i t' Hi Hne) as [Hs Ho]. split; [done|].
        rewrite Ho. cbn. unfold total. cbn. lia.
    + intros H. split.
      * destruct (decide (numel t = 0)) as [H0|H0]; [by left|right].
        destruct (H 0%nat t eq_refl H0) as [Hs Ho]. split; [done|].
        rewrite Ho. cbn. unfold total. cbn. lia.
      * intros i t' Hi Hne. destruct (H (S i) t' Hi Hne) as [Hs Ho].
        split; [done|]. rewrite Ho. cbn. unfold total. cbn. lia.
Qed.

(** ** The claims about the reconciler *)

(** C3.  For a non-empty list of buffers that lie in one backing
    allocation in rank order (every buffer aliases the anchor's storage
    and starts at the anchor's offset plus the sum of the lengths before
    it), the reconciler returns "flat", the length table holds every
    buffer's element count, and the flat buffer is the anchor itself;
    the world is unchanged, so nothing was allocated. *)
Theorem contiguous_buffers_are_flat (ts : list Tensor) (lengths : list Z)
    (a : Tensor) (w : World) :
  length lengths = length ts →
  Forall tensor_ok ts →
  anchor ts = Some a →
  (∀ i t, ts !! i = Some t →
     storage t = storage a ∧
     storage_offset t = storage_offset a + total (numel <$> take i ts)) →
  computeLengthsAndCheckAndGetFlat ts lengths w
  = (Ret (true, numel <$> ts, a), w).
Proof.
  intros Hl Hok Ha Hplace. destruct ts as [|t0 ts]; [discriminate|].
  rewrite (reconciler_run _ _ _ a) by done.
  rewrite all_in_place_true by (intros i t Hi; rewrite Z.add_0_l; eauto).
  do 4 f_equal. apply Forall_fmap_ext_1.
  eapply Forall_impl; [exact Hok|]. intros t Ht. by apply to_size_t_numel.
Qed.

(** The theorem at three buffers carved out of one storage. *)
Lemma contiguous_buffers_are_flat_witness :
  computeLengthsAndCheckAndGetFlat contiguous3 [0; 0; 0] (fresh_world 1)
  = (Ret (true, [2; 3; 4], dense [2] kFloat 0 5), fresh_world 1).
Proof.
  apply (contiguous_buffers_are_flat contiguous3 [0; 0; 0]
           (dense [2] kFloat 0 5) (fresh_world 1)).
  - reflexivity.
  - unfold contiguous3, tensor_ok. repeat constructor; cbn; lia.
  - reflexivity.
  - intros [|[|[|i]]] t [= <-]; split; reflexivity.
Defined.

(** C4.  When the first buffer is empty and the list has a non-empty
    buffer, the first non-empty buffer [a] is the anchor: the loop
    leaves with [a] as its first tensor, storage and storage offset,
    and the reconciler returns the element counts, the verdict of the
    in-place check of every non-empty buffer against the storage and
    the offset of [a], and as flat buffer [a] itself when the verdict is
    "flat", and otherwise a fresh buffer of the summed element count
    with the options of [a].  When every buffer is empty the reconciler
    returns "flat" with the empty first buffer as the flat buffer, a
    table of zeros, and no allocation. *)
Theorem empty_first_buffer_anchor (t0 : Tensor) (rest : list Tensor)
    (lengths : list Z) (w : World) :
  numel t0 = 0 →
  length lengths = length (t0 :: rest) →
  let ts := t0 :: rest in
  (∀ a, first_nonempty ts = Some a →
     (∃ st, reconcile_loop ts lengths w = (Ret st, w) ∧
            Loop.firstTensor st = a ∧
            Loop.storage st = storage a ∧
            Loop.firstStorageOffset st = storage_offset a ∧
            Loop.isFlat st = all_in_place a 0 ts) ∧
     ∃ (verdict : bool) (flat : Tensor) (w' : World),
       computeLengthsAndCheckAndGetFlat ts lengths w
       = (Ret (verdict, (λ t, to_size_t (numel t)) <$> ts, flat), w') ∧
       (verdict = true ↔
        ∀ i t, ts !! i = Some t → numel t ≠ 0 →
          storage t = storage a ∧
          storage_offset t = storage_offset a + total (numel <$> take i ts)) ∧
       (verdict = true → flat = a ∧ w' = w) ∧
       (verdict = false →
          flat = mkTensor [total (numel <$> ts)] (scalar_type a) (next_storage w)
                          0 true (is_sparse a) (is_cuda a) ∧
          w' = mkWorld (requests w) (script w) (Datatypes.S (next_storage w))
                       (trace w ++ [EvAlloc flat]))) ∧
  (Forall (λ t, numel t = 0) rest →
     computeLengthsAndCheckAndGetFlat ts lengths w
     = (Ret (true, replicate (length lengths) 0, t0), w)).
Proof.
  intros H0 Hl ts. split.
  - intros a Ha.
    assert (Hanchor : anchor ts = Some a) by (unfold anchor; by rewrite Ha).
    split.
    { eexists. split; [by apply reconcile_loop_run|].
      subst ts. by rewrite (reconcile_final _ _ _ a). }
    assert (Hiff : all_in_place a 0 ts = true ↔
              ∀ i t, ts !! i = Some t → numel t ≠ 0 →
                storage t = storage a ∧
                storage_offset t
                = storage_offset a + total (numel <$> take i ts)).
    { rewrite all_in_place_iff. split; intros H i t Hi Hne;
        destruct (H i t Hi Hne) as [Hs Ho]; (split; [done|]);
        rewrite Ho; by rewrite Z.add_0_l. }
    subst ts. rewrite (reconciler_run _ _ _ a) by done.
    destruct (all_in_place a 0 (t0 :: rest)) eqn:Hp.
    + exists true, a, w. split_and!; [done|by rewrite <- Hiff|done|done].
    + eexists false, _, _. split_and!; [reflexivity| |done|done].
      rewrite <- Hiff. split; intros [=].
  - intros Hz. subst ts.
    assert (Hall : Forall (λ t, numel t = 0) (t0 :: rest)) by by constructor.
    assert (Ha : anchor (t0 :: rest) = Some t0).
    { unfold anchor. pose proof (first_nonempty_split (t0 :: rest)) as Hs.
      destruct (first_nonempty (t0 :: rest)) as [a|]; [|done].
      destruct Hs as (zs & r & Heq & _ & Hne). rewrite Heq in Hall.
      apply Forall_app in Hall as [_ Hall]. by apply Forall_cons in Hall as [? _]. }
    rewrite (reconciler_run _ _ _ t0) by done.
    pose proof (all_in_place_zeros t0 (t0 :: rest) [] 0 Hall) as Hp.
    rewrite app_nil_r in Hp. rewrite Hp. do 4 f_equal.
    rewrite Hl. clear -Hall. induction Hall as [|t ts Ht _ IH]; [done|].
    cbn. rewrite Ht. by f_equal.
Qed.

(** The theorem at a list that starts with an empty buffer of a foreign
    allocation and goes on with two buffers of storage 1, and at a list
    of two empty buffers. *)
Lemma empty_first_buffer_anchor_witness :
  ((∃ st, reconcile_loop empty_then_two [0; 0; 0] (fresh_world 3)
          = (Ret st, fresh_world 3) ∧
          Loop.firstTensor st = dense [4] kInt 1 3 ∧
          Loop.storage st = 1%nat ∧
          Loop.firstStorageOffset st = 3 ∧
          Loop.isFlat st = all_in_place (dense [4] kInt 1 3) 0 empty_then_two) ∧
   ∃ (verdict : bool) (flat : Tensor) (w' : World),
     computeLengthsAndCheckAndGetFlat empty_then_two [0; 0; 0] (fresh_world 3)
     = (Ret (verdict, (λ t, to_size_t (numel t)) <$> empty_then_two, flat), w') ∧
     (verdict = true ↔
      ∀ i t, empty_then_two !! i = Some t → numel t ≠ 0 →
        storage t = 1%nat ∧
        storage_offset t = 3 + total (numel <$> take i empty_then_two)) ∧
     (verdict = true → flat = dense [4] kInt 1 3 ∧ w' = fresh_world 3) ∧
     (verdict = false →
        flat = mkTensor [total (numel <$> empty_then_two)] kInt 3 0 true false false ∧
        w' = mkWorld [] [] 4 ([] ++ [EvAlloc flat]))) ∧
  computeLengthsAndCheckAndGetFlat [dense [0] kInt 2 9; dense [2; 0] kFloat 1 4]
    [7; 7] (fresh_world 3)
  = (Ret (true, replicate 2 0, dense [0] kInt 2 9), fresh_world 3).
Proof.
  split.
  - apply (proj1 (empty_first_buffer_anchor (dense [0] kInt 2 9)
                    [dense [4] kInt 1 3; dense [2] kInt 1 7] [0; 0; 0]
                    (fresh_world 3) eq_refl eq_refl)
             (dense [4] kInt 1 3) eq_refl).
  - apply (proj2 (empty_first_buffer_anchor (dense [0] kInt 2 9)
                    [dense [2; 0] kFloat 1 4] [7; 7] (fresh_world 3)
                    eq_refl eq_refl)).
    by repeat constructor.
Defined.

(** C10.  A buffer without elements has no influence on the verdict:
    whatever its storage and offset, putting an empty buffer [z] at any
    position of a list gives the verdict of the list without it, and
    exchanging it for another empty buffer [z'] gives the same verdict
    again. *)
Theorem empty_buffer_keeps_verdict (pre post : list Tensor) (z z' : Tensor)
    (lengths lengths' : list Z) (w : World) :
  numel z = 0 →
  numel z' = 0 →
  length lengths = length (pre ++ post) →
  length lengths' = S (length (pre ++ post)) →
  ∃ b : bool,
    flat_verdict (pre ++ z :: post) lengths' w = Some b ∧
    flat_verdict (pre ++ z' :: post) lengths' w = Some b ∧
    (pre ++ post ≠ [] → flat_verdict (pre ++ post) lengths w = Some b).
Proof.
  intros Hz Hz' Hl Hl'.
  assert (Hins : ∀ y, numel y = 0 → ∃ t0 ts, pre ++ y :: post = t0 :: ts ∧
            length lengths' = length (t0 :: ts)).
  { intros y _. destruct pre as [|p pre]; cbn in *; eauto.
    eexists _, _. split; [done|]. cbn. rewrite Hl', !length_app. cbn. lia. }
  destruct (first_nonempty (pre ++ post)) as [a|] eqn:Hfirst.
  - exists (all_in_place a 0 (pre ++ post)).
    assert (Hy : ∀ y, numel y = 0 →
              flat_verdict (pre ++ y :: post) lengths' w
              = Some (all_in_place a 0 (pre ++ post))).
    { intros y Hy. destruct (Hins y Hy) as (t0 & ts & Heq & Hlen).
      rewrite <- (all_in_place_insert a pre y post 0 Hy), Heq.
      apply flat_verdict_spec; [done|]. rewrite <- Heq. unfold anchor.
      by rewrite first_nonempty_insert, Hfirst. }
    split_and!; [by apply Hy..|]. intros Hne.
    destruct (pre ++ post) as [|t0 ts] eqn:Heq; [done|].
    apply flat_verdict_spec; [done|]. unfold anchor. by rewrite Hfirst.
  - exists true.
    pose proof (first_nonempty_split (pre ++ post)) as Hall.
    rewrite Hfirst in Hall.
    assert (Hzero : ∀ t0 ts l, Forall (λ t, numel t = 0) (t0 :: ts) →
              length l = length (t0 :: ts) →
              flat_verdict (t0 :: ts) l w = Some true).
    { intros t0 ts l Hts Hlen.
      pose proof (first_nonempty_split (t0 :: ts)) as Hs.
      assert (Hanchor : anchor (t0 :: ts) = Some t0).
      { unfold anchor. destruct (first_nonempty (t0 :: ts)) as [a|]; [|done].
        destruct Hs as (zs & r & Heq & _ & Hne). rewrite Heq in Hts.
        apply Forall_app in Hts as [_ Hts].
        by apply Forall_cons in Hts as [? _]. }
      rewrite (flat_verdict_spec _ _ _ t0) by done.
      pose proof (all_in_place_zeros t0 (t0 :: ts) [] 0 Hts) as Hp.
      rewrite app_nil_r in Hp. by rewrite Hp. }
    assert (Hy : ∀ y, numel y = 0 →
              flat_verdict (pre ++ y :: post) lengths' w = Some true).
    { intros y Hy. destruct (Hins y Hy) as (t0 & ts & Heq & Hlen).
      rewrite Heq. apply Hzero; [|done]. rewrite <- Heq.
      apply Forall_app in Hall as [Hpre Hpost].
      apply Forall_app. split; [done|]. by constructor. }
    split_and!; [by apply Hy..|]. intros Hne.
    destruct (pre ++ post) as [|t0 ts] eqn:Heq; [done|]. by apply Hzero.
Qed.

(** The theorem with empty buffers put between the first and the second
    of three contiguous buffers. *)
Lemma empty_buffer_keeps_verdict_witness :
  ∃ b : bool,
    flat_verdict (take 1 contiguous3 ++ dense [0] kInt 4 1 :: drop 1 contiguous3)
      [0; 0; 0; 0] (fresh_world 5) = Some b ∧
    flat_verdict (take 1 contiguous3 ++ dense [3; 0] kByte 2 8 :: drop 1 contiguous3)
      [0; 0; 0; 0] (fresh_world 5) = Some b ∧
    (take 1 contiguous3 ++ drop 1 contiguous3 ≠ [] →
     flat_verdict (take 1 contiguous3 ++ drop 1 contiguous3) [0; 0; 0]
       (fresh_world 5) = Some b).
Proof.
  apply (empty_buffer_keeps_verdict (take 1 contiguous3) (drop 1 contiguous3)
           (dense [0] kInt 4 1) (dense [3; 0] kByte 2 8)
           [0; 0; 0] [0; 0; 0; 0] (fresh_world 5));
    reflexivity.
Defined.

(** ** The claims about the work handle *)

(** C7.  The destructor of a handle that holds a request ends in
    [std::terminate]: it neither returns nor throws.  The destructor of
    a handle without request returns and leaves the world as it was. *)
Theorem dtor_pending_terminates (r : nat) (ts : list Tensor) (w : World) :
  (WorkCCL_dtor (mkWork (Some r) ts) w).1 = Terminate ∧
  (∀ u, (WorkCCL_dtor (mkWork (Some r) ts) w).1 ≠ Ret u) ∧
  (∀ e, (WorkCCL_dtor (mkWork (Some r) ts) w).1 ≠ Throw e) ∧
  WorkCCL_dtor (mkWork None ts) w = (Ret tt, w).
Proof. by cbn. Qed.

(** C8.  On a handle that holds no request, [isCompleted()] and [wait()]
    both return true at once: the handle is returned as it was and the
    world is untouched (no substrate call, no trace entry). *)
Theorem no_request_is_completed (self : WorkCCL) (w : World) :
  req self = None →
  isCompleted self w = (Ret (true, self), w) ∧
  wait self w = (Ret (true, self), w).
Proof. intros H. unfold isCompleted, wait. by rewrite H. Qed.

(** The theorem at a default-constructed handle. *)
Lemma no_request_is_completed_witness :
  isCompleted (mkWork None []) (fresh_world 0)
  = (Ret (true, mkWork None []), fresh_world 0) ∧
  wait (mkWork None []) (fresh_world 0)
  = (Ret (true, mkWork None []), fresh_world 0).
Proof.
  apply (no_request_is_completed (mkWork None []) (fresh_world 0)).
  reflexivity.
Defined.

(** A handle returned by [barrier] is such a handle. *)
Lemma barrier_handle pg w h w' :
  barrier pg w = (Ret h, w') → req h = None.
Proof.
  unfold barrier. intros H. apply bind_inv in H as (u & w1 & _ & H).
  by apply ret_inv in H as [<- _].
Qed.

(** ** Split sizes *)

Lemma to_int_add z x : to_int (to_int z + x) = to_int (z + x).
Proof.
  unfold to_int. f_equal.
  replace ((z + 2 ^ 31) `mod` 2 ^ 32 - 2 ^ 31 + x + 2 ^ 31)
    with ((z + 2 ^ 31) `mod` 2 ^ 32 + x) by lia.
  rewrite Zplus_mod_idemp_l. f_equal. lia.
Qed.

Lemma to_int_small z : - 2 ^ 31 ≤ z < 2 ^ 31 → to_int z = z.
Proof. intros H. unfold to_int. rewrite Z.mod_small; lia. Qed.

Lemma accumulate_int_from xs : ∀ acc,
  foldl (λ acc x, to_int (acc + x)) (to_int acc) xs = to_int (acc + total xs).
Proof.
  induction xs as [|x xs IH]; intros acc; cbn.
  - unfold total. cbn. by rewrite Z.add_0_r.
  - rewrite to_int_add, IH. f_equal. unfold total. cbn. lia.
Qed.

(** The [int] accumulator holds the sum reduced to 32 bits. *)
Lemma accumulate_int_total xs : accumulate_int xs = to_int (total xs).
Proof. apply (accumulate_int_from xs 0). Qed.

(** While the sum of the split sizes fits an [int], the check accepts
    exactly the valid split lists and fails with a [TORCH_CHECK] error
    otherwise, without touching the world. *)
Lemma checkSplitSizes_in_range (split_sizes : list Z) (t : Tensor) (d groupSize : Z)
    (w : World) :
  head (sizes t) = Some d →
  0 < groupSize < 2 ^ 31 →
  - 2 ^ 31 ≤ total split_sizes < 2 ^ 31 →
  (valid_split groupSize d split_sizes →
     checkSplitSizes split_sizes t groupSize w = (Ret tt, w)) ∧
  (¬ valid_split groupSize d split_sizes →
     ∃ msg, checkSplitSizes split_sizes t groupSize w = (Throw (TorchCheck msg), w)).
Proof.
  intros Hd Hg Hsum. unfold checkSplitSizes, size0.
  destruct (sizes t) as [|d' tl]; [discriminate|]. injection Hd as ->.
  assert (Hgs : to_size_t groupSize = groupSize)
    by (unfold to_size_t; apply Z.mod_small; lia).
  destruct split_sizes as [|x xs].
  - rewrite (bool_decide_eq_true_2 (length [] = 0%nat)) by done.
    unfold mbind, M_bind, mret, M_ret.
    rewrite (bool_decide_eq_false_2 (groupSize = 0)) by lia.
    unfold valid_split. split; intros H.
    + by rewrite bool_decide_eq_true_2.
    + rewrite bool_decide_eq_false_2 by done. eauto.
  - rewrite (bool_decide_eq_false_2 (length (x :: xs) = 0%nat)) by done.
    rewrite accumulate_int_total, to_int_small, Hgs by done.
    unfold valid_split. split; intros H.
    + destruct H as [H1 H2]. by msimpl.
    + destruct (decide (Z.of_nat (length (x :: xs)) = groupSize)) as [H1|H1];
        msimpl; [|eauto].
      destruct (decide (total (x :: xs) = d)) as [H2|H2]; msimpl; [|eauto].
      by destruct H.
Qed.

(** C5.  [checkSplitSizes] adds the split sizes up in an [int].  With
    a group of 2 and a leading dimension of 2 it accepts the split list
    [4294967297; 1], whose entries sum to 4294967298; and with a leading
    dimension of 2147483648 it rejects the split list [2147483648; 0],
    which has one entry per rank and sums to the leading dimension. *)
Theorem checkSplitSizes_sum_wraps :
  checkSplitSizes [4294967297; 1] (dense [2] kInt 0 0) 2 (fresh_world 1)
    = (Ret tt, fresh_world 1) ∧
  ¬ valid_split 2 2 [4294967297; 1] ∧
  checkSplitSizes [2147483648; 0] (dense [2147483648] kByte 0 0) 2 (fresh_world 1)
    = (Throw (TorchCheck "Split sizes doesn't match total dim 0 size"),
       fresh_world 1) ∧
  valid_split 2 2147483648 [2147483648; 0].
Proof.
  split_and!; [reflexivity| |reflexivity|by cbn].
  cbn. intros [_ H]. discriminate H.
Qed.

(** ** Counts of the variable all-to-all *)

(** The invariant rule of the [for] loop: a body that returns and keeps
    the invariant makes the loop return with the invariant. *)
Lemma for_range_invariant {S} (P : nat → S → World → Prop)
    (body : nat → S → M S) : ∀ count start s w,
  (∀ i s w, (start ≤ i < start + count)%nat → P i s w →
     ∃ s' w', body i s w = (Ret s', w') ∧ P (Datatypes.S i) s' w') →
  P start s w →
  ∃ s' w', for_range start count body s w = (Ret s', w') ∧
           P (start + count)%nat s' w'.
Proof.
  induction count as [|k IH]; intros start s w Hbody HP.
  - exists s, w. by rewrite Nat.add_0_r.
  - destruct (Hbody start s w) as (s1 & w1 & Hb & HP1); [lia|done|].
    destruct (IH (Datatypes.S start) s1 w1) as (s2 & w2 & Hr & HP2); [|done|].
    { intros i s' w' Hi. apply Hbody. lia. }
    exists s2, w2. split.
    + cbn [for_range]. by erewrite bind_ret.
    + by replace (start + Datatypes.S k)%nat with (Datatypes.S start + k)%nat by lia.
Qed.

Lemma total_replicate n (x : Z) : total (replicate n x) = Z.of_nat n * x.
Proof. unfold total. induction n as [|n IH]; cbn [replicate foldr]; lia. Qed.

Lemma numel_cons t d tl : sizes t = d :: tl → numel t = d * foldr Z.mul 1 tl.
Proof. unfold numel. by intros ->. Qed.

Lemma tail_prod_nonneg (tl : list Z) :
  Forall (λ d, 0 ≤ d) tl → 0 ≤ foldr Z.mul 1 tl.
Proof. induction 1; cbn; lia. Qed.

(** Lines 702-705 for an even split. *)
Lemma split_len_equal size_ t w :
  0 < size_ < 2 ^ 31 → tensor_ok t →
  split_len size_ t true w = (Ret (numel t / size_), w).
Proof.
  intros Hs Hok. unfold split_len. rewrite to_size_t_numel by done.
  destruct (decide (numel t = 0)) as [H0|H0]; msimpl.
  - by rewrite H0.
  - assert (Hz : to_size_t size_ = size_)
      by (unfold to_size_t; apply Z.mod_small; lia).
    rewrite Hz. by msimpl.
Qed.

(** Lines 702-705 for explicit splits: the length of one row. *)
Lemma split_len_rows t d tl w :
  sizes t = d :: tl → tensor_ok t →
  ∃ len, split_len 0 t false w = (Ret len, w) ∧ 0 ≤ len ∧ d * len = numel t ∧
         ∀ size_, split_len size_ t false w = (Ret len, w).
Proof.
  intros Hsz Hok. pose proof (numel_cons _ _ _ Hsz) as Hn.
  destruct Hok as [Hd Hlt]. rewrite Hsz in Hd.
  apply Forall_cons in Hd as [Hd Htl]. apply tail_prod_nonneg in Htl.
  unfold split_len, size0. rewrite Hsz.
  assert (Hsn : to_size_t (numel t) = numel t)
    by (unfold to_size_t; apply Z.mod_small; nia).
  rewrite Hsn.
  destruct (decide (numel t = 0)) as [H0|H0]; msimpl.
  - exists 0. split_and!; [by rewrite H0|lia|lia|by rewrite H0].
  - assert (Hp : 1 ≤ foldr Z.mul 1 tl) by nia.
    assert (Hdn : 0 < d ≤ numel t) by nia.
    assert (Hdd : to_size_t d = d)
      by (unfold to_size_t; apply Z.mod_small; lia).
    rewrite Hdd. msimpl.
    exists (foldr Z.mul 1 tl).
    assert (numel t / d = foldr Z.mul 1 tl) as ->
      by (rewrite Hn, Z.mul_comm; apply Z.div_mul; nia).
    split_and!; [done|lia|lia|done].
Qed.

Lemma insert_take_replicate (T : list Z) (i n : nat) (v : Z) :
  length T = n → T !! i = Some v →
  <[i := v]> (take i T ++ replicate (n - i) 0)
  = take (Datatypes.S i) T ++ replicate (n - Datatypes.S i) 0.
Proof.
  intros Hn Hi. pose proof (lookup_lt_Some _ _ _ Hi) as Hlt.
  rewrite insert_app_r_alt by (rewrite length_take; lia).
  rewrite length_take, Nat.min_l, Nat.sub_diag by lia.
  destruct (n - i)%nat as [|k] eqn:Hk; [lia|].
  replace (n - Datatypes.S i)%nat with k by lia. cbn.
  rewrite (take_S_r _ _ _ Hi), <- app_assoc. done.
Qed.

(** One entry of a count table (lines 709 and 710). *)
Lemma count_entry size_ len splits i w :
  (i < Z.to_nat size_)%nat →
  (splits = [] ∨ length splits = Z.to_nat size_) →
  ∃ v, (if bool_decide (length splits = 0%nat) then mret len
        else x ← vec_at splits i; mret (to_size_t (x * len))) w = (Ret v, w) ∧
       split_counts size_ len splits !! i = Some v.
Proof.
  intros Hi [-> | Hlen].
  - exists len. split; [done|]. cbn. by apply lookup_replicate_2.
  - destruct splits as [|x0 xs] eqn:Heq; [cbn in Hlen; lia|]. rewrite <- Heq in *.
    rewrite bool_decide_eq_false_2 by (rewrite Hlen; lia).
    destruct (lookup_lt_is_Some_2 splits i) as [x Hx]; [lia|].
    exists (to_size_t (x * len)). split.
    + unfold vec_at. rewrite Hx. by msimpl.
    + replace (split_counts size_ len splits)
        with ((λ x, to_size_t (x * len)) <$> splits) by by rewrite Heq.
      by rewrite list_lookup_fmap, Hx.
Qed.

Lemma split_counts_length size_ len splits :
  (splits = [] ∨ length splits = Z.to_nat size_) →
  length (split_counts size_ len splits) = Z.to_nat size_.
Proof.
  intros [-> | Hlen]; [apply length_replicate|].
  destruct splits; [apply length_replicate|].
  unfold split_counts. by rewrite length_fmap.
Qed.

(** Lines 695-711 compute the two tables of [split_counts]. *)
Lemma alltoall_base_counts_run size_ outputTensor inputTensor
    outputSplitSizes inputSplitSizes inLen outLen w :
  split_len size_ inputTensor (bool_decide (length inputSplitSizes = 0%nat)) w
    = (Ret inLen, w) →
  split_len size_ outputTensor (bool_decide (length outputSplitSizes = 0%nat)) w
    = (Ret outLen, w) →
  (inputSplitSizes = [] ∨ length inputSplitSizes = Z.to_nat size_) →
  (outputSplitSizes = [] ∨ length outputSplitSizes = Z.to_nat size_) →
  alltoall_base_counts size_ outputTensor inputTensor
    outputSplitSizes inputSplitSizes w
  = (Ret (split_counts size_ inLen inputSplitSizes,
          split_counts size_ outLen outputSplitSizes), w).
Proof.
  intros Hin Hout Hi Ho. unfold alltoall_base_counts.
  erewrite bind_ret by exact Hin. erewrite bind_ret by exact Hout.
  set (n := Z.to_nat size_).
  set (Ts := split_counts size_ inLen inputSplitSizes).
  set (Tr := split_counts size_ outLen outputSplitSizes).
  assert (HTs : length Ts = n) by by apply split_counts_length.
  assert (HTr : length Tr = n) by by apply split_counts_length.
  match goal with |- for_range _ _ ?b _ _ = _ => set (body := b) end.
  destruct (for_range_invariant
    (λ i '(s, r) w', w' = w ∧ s = take i Ts ++ replicate (n - i) 0 ∧
                     r = take i Tr ++ replicate (n - i) 0)
    body n 0%nat (replicate n 0, replicate n 0) w)
    as ([s r] & w' & Hrun & -> & -> & ->).
  - intros i [s r] w1 Hlt (-> & -> & ->).
    destruct (count_entry size_ inLen inputSplitSizes i w) as (vs & Hvs & Hls);
      [lia|done|].
    destruct (count_entry size_ outLen outputSplitSizes i w) as (vr & Hvr & Hlr);
      [lia|done|].
    eexists (_, _), w. split.
    + unfold body. erewrite bind_ret by exact Hvs.
      erewrite bind_ret by exact Hvr. reflexivity.
    + split; [done|]. by rewrite !insert_take_replicate.
  - by rewrite Nat.sub_0_r.
  - rewrite Hrun. cbn [Nat.add]. rewrite Nat.sub_diag. cbn [replicate].
    by rewrite !app_nil_r, <- HTs, firstn_all, HTs, <- HTr, firstn_all.
Qed.

Lemma total_nonneg (xs : list Z) : Forall (λ x, 0 ≤ x) xs → 0 ≤ total xs.
Proof. unfold total. induction 1; cbn; lia. Qed.

Lemma total_scaled (len : Z) (xs : list Z) :
  Forall (λ x, 0 ≤ x) xs → 0 ≤ len → total xs * len < 2 ^ 64 →
  total ((λ x, to_size_t (x * len)) <$> xs) = total xs * len.
Proof.
  intros Hxs Hlen. induction Hxs as [|x xs Hx Hxs IH]; [done|].
  pose proof (total_nonneg xs Hxs) as Hn. unfold total in *. cbn. intros Hb.
  rewrite IH by nia. unfold to_size_t. rewrite Z.mod_small by nia. lia.
Qed.

(** The counts of one buffer add up to its element count. *)
Lemma split_counts_total size_ t d splits w :
  0 < size_ < 2 ^ 31 → tensor_ok t → head (sizes t) = Some d →
  valid_split size_ d splits → Forall (λ x, 0 ≤ x) splits →
  ∃ len, split_len size_ t (bool_decide (length splits = 0%nat)) w = (Ret len, w) ∧
         total (split_counts size_ len splits) = numel t ∧
         (splits = [] ∨ length splits = Z.to_nat size_).
Proof.
  intros Hs Hok Hd Hv Hpos.
  destruct (sizes t) as [|d' tl] eqn:Hsz; [discriminate|]. injection Hd as ->.
  pose proof (numel_cons _ _ _ Hsz) as Hn.
  destruct splits as [|x xs].
  - exists (numel t / size_). split_and!; [by apply split_len_equal| |by left].
    cbn [split_counts]. rewrite total_replicate, Z2Nat.id by lia.
    cbn in Hv. apply Z.rem_divide in Hv as [k Hk]; [|lia].
    rewrite Hn, Hk.
    replace (k * size_ * foldr Z.mul 1 tl) with (k * foldr Z.mul 1 tl * size_) by lia.
    rewrite Z.div_mul by lia. lia.
  - destruct Hv as [Hlen Hsum].
    destruct (split_len_rows t d tl w Hsz Hok) as (len & _ & Hlen0 & Hmul & Hrun).
    exists len. rewrite bool_decide_eq_false_2 by done.
    split_and!; [apply Hrun| |right; lia].
    unfold split_counts. rewrite total_scaled; [by rewrite Hsum|done|done|].
    rewrite Hsum, Hmul. destruct Hok as [_ Hlt]. lia.
Qed.

(** ** The claims about split sizes and counts *)

(** C6, as stated, fails for a split list with a negative entry: the
    list [-1; 3] has one entry per rank and sums to the leading
    dimension 2, the check accepts it, and the send counts computed from
    it are 2^64 - 1 and 3, which do not sum to the 2 elements of the
    input buffer. *)
Lemma negative_split_breaks_sum :
  valid_split 2 2 [-1; 3] ∧ valid_split 2 2 [] ∧
  checkSplitSizes [-1; 3] (dense [2] kInt 0 0) 2 (fresh_world 2)
    = (Ret tt, fresh_world 2) ∧
  alltoall_base_counts 2 (dense [2] kInt 1 0) (dense [2] kInt 0 0) [] [-1; 3]
    (fresh_world 2)
    = (Ret ([18446744073709551615; 3], [1; 1]), fresh_world 2) ∧
  total [18446744073709551615; 3] ≠ numel (dense [2] kInt 0 0).
Proof. split_and!; done. Qed.

(** C6, amended.  For a group of 1 to 2^31 - 1 ranks and split lists
    that are valid for their buffers (empty with the group size dividing
    the leading dimension, or one entry per rank summing to it) and have
    no negative entry, lines 695-711 return send counts that sum to the
    element count of the input buffer and receive counts that sum to the
    element count of the output buffer; buffers without elements are
    included. *)
Theorem alltoall_counts_sum (size_ : Z) (outputTensor inputTensor : Tensor)
    (outputSplitSizes inputSplitSizes : list Z) (dout din : Z) (w : World) :
  0 < size_ < 2 ^ 31 →
  tensor_ok outputTensor → tensor_ok inputTensor →
  head (sizes outputTensor) = Some dout → head (sizes inputTensor) = Some din →
  valid_split size_ dout outputSplitSizes → valid_split size_ din inputSplitSizes →
  Forall (λ x, 0 ≤ x) outputSplitSizes → Forall (λ x, 0 ≤ x) inputSplitSizes →
  ∃ sendCounts recvCounts,
    alltoall_base_counts size_ outputTensor inputTensor
      outputSplitSizes inputSplitSizes w = (Ret (sendCounts, recvCounts), w) ∧
    total sendCounts = numel inputTensor ∧
    total recvCounts = numel outputTensor.
Proof.
  intros Hs Hoko Hoki Hdo Hdi Hvo Hvi Hpo Hpi.
  destruct (split_counts_total size_ inputTensor din inputSplitSizes w)
    as (inLen & Hin & Htin & Hli); [done..|].
  destruct (split_counts_total size_ outputTensor dout outputSplitSizes w)
    as (outLen & Hout & Htout & Hlo); [done..|].
  eexists _, _. split; [by apply alltoall_base_counts_run|done].
Qed.

(** The theorem at the uneven splits [1; 2; 3; 4] and [4; 3; 2; 1] of
    ten rows of three elements over four ranks. *)
Lemma alltoall_counts_sum_witness :
  ∃ sendCounts recvCounts,
    alltoall_base_counts 4 (dense [10; 3] kFloat 1 0) (dense [10; 3] kFloat 0 0)
      [4; 3; 2; 1] [1; 2; 3; 4] (fresh_world 2) = (Ret (sendCounts, recvCounts), fresh_world 2) ∧
    total sendCounts = numel (dense [10; 3] kFloat 0 0) ∧
    total recvCounts = numel (dense [10; 3] kFloat 1 0).
Proof.
  apply (alltoall_counts_sum 4 (dense [10; 3] kFloat 1 0) (dense [10; 3] kFloat 0 0)
           [4; 3; 2; 1] [1; 2; 3; 4] 10 10 (fresh_world 2));
    try reflexivity; try (cbn; lia); try (repeat constructor; cbn; lia).
Defined.

(** ** Rooted operations *)

Lemma checkSingleTensorHelper_cases t w :
  checkSingleTensorHelper t w = (Ret tt, w) ∨
  ∃ msg, checkSingleTensorHelper t w = (Throw (TorchCheck msg), w).
Proof.
  unfold checkSingleTensorHelper.
  destruct (is_contiguous t); msimpl; [|eauto].
  destruct (is_sparse t); msimpl; [eauto|].
  destruct (is_cuda t); msimpl; [eauto|].
  destruct (decide (0 ≤ numel t)); msimpl; eauto.
Qed.

Lemma checkSingleTensor_cases tensors w :
  (checkSingleTensor tensors w = (Ret tt, w) ∧ ∃ t, tensors = [t]) ∨
  ∃ msg, checkSingleTensor tensors w = (Throw (TorchCheck msg), w).
Proof.
  unfold checkSingleTensor.
  destruct tensors as [|t [|t' ts]]; msimpl; [eauto| |eauto].
  unfold vec_at. cbn [lookup list_lookup]. msimpl.
  destruct (checkSingleTensorHelper_cases t w) as [H | H]; eauto.
Qed.

(** [broadcast] and [reduce] call [checkRank]: with a root rank outside
    the group they fail with a [TORCH_CHECK] error in an unchanged
    world. *)
Lemma broadcast_prepare_bad_root pg tensors rootRank w :
  ¬ (0 ≤ rootRank < size_ pg) →
  ∃ msg, broadcast_prepare pg tensors rootRank w = (Throw (TorchCheck msg), w).
Proof.
  intros Hbad. unfold broadcast_prepare.
  destruct (checkSingleTensor_cases tensors w) as [[H _] | [msg H]].
  - erewrite bind_ret by exact H. unfold checkRank.
    destruct (decide (0 ≤ rootRank)), (decide (rootRank < size_ pg));
      msimpl; eauto. lia.
  - exists msg. unfold mbind, M_bind. by rewrite H.
Qed.

Lemma broadcast_bad_root pg tensors rootRank w :
  ¬ (0 ≤ rootRank < size_ pg) →
  ∃ msg, broadcast pg tensors rootRank w = (Throw (TorchCheck msg), w).
Proof.
  intros Hbad.
  destruct (broadcast_prepare_bad_root pg tensors rootRank w Hbad) as [msg H].
  exists msg. unfold broadcast, mbind, M_bind. by rewrite H.
Qed.

Lemma reduce_bad_root pg tensors reduceOp rootRank w :
  ¬ (0 ≤ rootRank < size_ pg) →
  ∃ msg, reduce pg tensors reduceOp rootRank w = (Throw (TorchCheck msg), w).
Proof.
  intros Hbad.
  destruct (broadcast_prepare_bad_root pg tensors rootRank w Hbad) as [msg H].
  exists msg. unfold reduce, mbind, M_bind. by rewrite H.
Qed.

(** [gather] on a rank other than the root: with valid buffers and a
    root rank outside the group, line 517 indexes outside [sendCounts]. *)
Lemma gather_bad_root pg in0 rootRank w :
  checkSingleTensor [in0] w = (Ret tt, w) →
  rank_ pg ≠ rootRank →
  ¬ (0 ≤ rootRank < size_ pg) →
  0 ≤ size_ pg →
  gather pg [] [in0] rootRank w = (Undefined, w).
Proof.
  intros Hcheck Hrank Hbad Hsize. unfold gather.
  apply bind_undefined. unfold gather_prepare.
  erewrite bind_ret by exact Hcheck.
  erewrite bind_ret by reflexivity.
  rewrite (bool_decide_eq_true_2 (rank_ pg ≠ rootRank)) by done.
  erewrite bind_ret by reflexivity.
  apply bind_undefined. unfold vec_set.
  rewrite length_replicate, Z2Nat.id by done.
  by rewrite bool_decide_eq_false_2.
Qed.

(** [scatter] likewise at line 605. *)
Lemma scatter_bad_root pg out0 rootRank w :
  checkSingleTensor [out0] w = (Ret tt, w) →
  rank_ pg ≠ rootRank →
  ¬ (0 ≤ rootRank < size_ pg) →
  0 ≤ size_ pg →
  scatter pg [out0] [] rootRank w = (Undefined, w).
Proof.
  intros Hcheck Hrank Hbad Hsize. unfold scatter.
  apply bind_undefined. unfold scatter_prepare.
  erewrite bind_ret by exact Hcheck.
  erewrite bind_ret by reflexivity.
  rewrite (bool_decide_eq_true_2 (rank_ pg ≠ rootRank)) by done.
  erewrite bind_ret by reflexivity.
  apply bind_undefined. unfold vec_set.
  rewrite length_replicate, Z2Nat.id by done.
  by rewrite bool_decide_eq_false_2.
Qed.

(** C2.  [gather] and [scatter] do not call [checkRank].  On rank 0 of
    a group of two, with otherwise valid arguments and the root rank 5
    (or -1), they raise no error: the root rank indexes the count
    vector of two entries, [sendCounts[opts.rootRank]] in [gather] and
    [recvCounts[opts.rootRank]] in [scatter], outside its bounds. *)
Theorem gather_scatter_unchecked_root :
  gather pg2 [] [in3] 5 (fresh_world 3) = (Undefined, fresh_world 3) ∧
  gather pg2 [] [in3] (-1) (fresh_world 3) = (Undefined, fresh_world 3) ∧
  scatter pg2 [in3] [] 5 (fresh_world 3) = (Undefined, fresh_world 3) ∧
  scatter pg2 [in3] [] (-1) (fresh_world 3) = (Undefined, fresh_world 3).
Proof. split_and!; reflexivity. Qed.

(** ** Lookups of element types and reduction operators *)



Lemma bind_run {A B} (m : M A) (f : A → M B) w :
  (m ≫= f) w =
  match m w with
  | (Ret a, w') => f a w'
  | (Throw e, w') => (Throw e, w')
  | (Undefined, w') => (Undefined, w')
  | (Terminate, w') => (Terminate, w')
  end.
Proof. unfold mbind, M_bind. by destruct (m w) as [[]]. Qed.

Lemma issue_run c w :
  issue c w =
  match next_behaviour w with
  | Raises => (Throw CclError, refused w)
  | Yields st => (Ret (length (requests w)), accepted c st w)
  end.
Proof.
  unfold issue, next_behaviour, refused, accepted.
  by destruct (script w) as [|[|st] sc].
Qed.

(** A substrate call with a supported element type, and the handle
    built from its request. *)
Lemma launch_run ty dt (call : ccl_data_type → Collective) keep
    (k : nat → M WorkCCL) w :
  map_find cclDatatypes ty = Some dt →
  (∀ r w', k r w' = (Ret (mkWork (Some r) keep), w')) →
  (req ← CCL_CHECK (dt ← map_at cclDatatypes ty; issue (call dt)); k req) w
  = launched (call dt) keep w.
Proof.
  intros Hty Hk. rewrite bind_run. unfold CCL_CHECK. rewrite bind_run.
  unfold map_at. rewrite Hty. unfold mret at 1, M_ret at 1.
  rewrite issue_run. unfold launched. destruct (next_behaviour w); [done|].
  apply Hk.
Qed.




(** ** Handles of the copy-back paths *)

(** The rule of the [for] loop for a property of the state and world
    that every iteration which returns preserves. *)
Lemma for_range_preserves {S} (P : S → World → Prop) (body : nat → S → M S) :
  (∀ i s w s' w', body i s w = (Ret s', w') → P s w → P s' w') →
  ∀ count start s w s' w',
    for_range start count body s w = (Ret s', w') → P s w → P s' w'.
Proof.
  intros Hbody. induction count as [|k IH]; intros start s w s' w' Hrun HP.
  - by apply ret_inv in Hrun as [<- <-].
  - cbn [for_range] in Hrun. apply bind_inv in Hrun as (s1 & w1 & Hb & Hrun).
    eapply IH; [exact Hrun|]. by eapply Hbody.
Qed.

Lemma vec_at_inv {A} (v : list A) i w a w' :
  vec_at v i w = (Ret a, w') → v !! i = Some a ∧ w' = w.
Proof.
  unfold vec_at. destruct (v !! i); [|discriminate].
  intros H. by apply ret_inv in H as [<- <-].
Qed.

Lemma issue_inv c w r w' :
  issue c w = (Ret r, w') → trace w' = trace w ++ [EvIssue c r].
Proof.
  unfold issue. destruct (script w) as [|[|st] sc]; intros [= <- <-]; done.
Qed.

(** A substrate call that returns a request has logged its issue. *)
Lemma issue_site_inv ty (call : ccl_data_type → Collective) w r w' :
  CCL_CHECK (dt ← map_at cclDatatypes ty; issue (call dt)) w = (Ret r, w') →
  ∃ c, trace w' = trace w ++ [EvIssue c r].
Proof.
  intros H. apply CCL_CHECK_inv, bind_inv in H as (dt & w1 & Hdt & H).
  unfold map_at in Hdt. destruct (map_find cclDatatypes ty); [|discriminate].
  apply ret_inv in Hdt as [_ <-]. exists (call dt). by apply issue_inv.
Qed.

Lemma req_wait_inv r w u w' :
  req_wait r w = (Ret u, w') → waited (trace w) r w'.
Proof.
  unfold req_wait, waited.
  destruct (requests w !! r) as [st|] eqn:Hr; [|discriminate].
  assert (Hlt : (r < length (requests w))%nat) by by eapply lookup_lt_Some.
  destruct st; try discriminate; intros [= _ <-]; cbn;
    (split; [by apply list_lookup_insert_eq|]; by exists []).
Qed.

Lemma copy_preserves_waited tr r dst src w u w' :
  copy_ dst src w = (Ret u, w') → waited tr r w → waited tr r w'.
Proof.
  unfold copy_, emit, waited. destruct (broadcastable _ _); [|discriminate].
  intros [= _ <-] (Hr & copies & Ht & Hc). cbn.
  split; [done|]. exists (copies ++ [EvCopy dst src]). split.
  - by rewrite Ht, <- app_assoc.
  - apply Forall_app. split; [done|]. by repeat constructor.
Qed.

Lemma copy_out_preserves_waited tr r size_ outputs splits w u w' :
  copy_out size_ outputs splits w = (Ret u, w') → waited tr r w → waited tr r w'.
Proof.
  unfold copy_out. intros Hrun Hw.
  eapply (for_range_preserves (λ _ w, waited tr r w)); [|exact Hrun|exact Hw].
  intros i [] w1 [] w2 Hb Hw1.
  apply bind_inv in Hb as (o & w3 & Ho & Hb). apply vec_at_inv in Ho as [_ ->].
  apply bind_inv in Hb as (s & w4 & Hs & Hb). apply vec_at_inv in Hs as [_ ->].
  by eapply copy_preserves_waited.
Qed.

(** From the issue of a collective and the wait for its request to the
    handle built around the request. *)
Lemma waited_after_issue locked c r w2 w' :
  trace w2 = trace locked ++ [EvIssue c r] →
  waited (trace w2) r w' →
  waited_in_dispatch locked (mkWork (Some r) []) w'.
Proof.
  intros Hissue (Hr & copies & Ht & Hc). exists r, c, copies.
  split_and!; [done..| |done]. by rewrite Ht, Hissue, <- app_assoc.
Qed.

(** A handle in that state answers a poll and a wait with true and
    drops the request; its destructor terminates the process. *)
Lemma waited_handle locked h w :
  waited_in_dispatch locked h w →
  (isCompleted h w).1 = Ret (true, mkWork None []) ∧
  (wait h w).1 = Ret (true, mkWork None []) ∧
  (WorkCCL_dtor h w).1 = Terminate.
Proof.
  intros (r & c & copies & Hreq & _ & Hr & _).
  unfold isCompleted, wait, WorkCCL_dtor. rewrite Hreq.
  unfold CCL_CHECK, mbind, M_bind, req_test, req_wait. rewrite Hr. done.
Qed.

(** Without [USE_VECTOR_ALLGATHERV] all-gather receives into a flat
    tensor. *)
Lemma allgather_prepare_flat pg outputTensors inputTensors in0 out0 buf rc w w1 :
  allgather_prepare false pg outputTensors inputTensors w
    = (Ret (in0, out0, buf, rc), w1) →
  ∃ flat, buf = flatOutputTensor flat.
Proof.
  intros Hprep. unfold allgather_prepare in Hprep.
  do 6 (apply bind_inv in Hprep as (? & ? & _ & Hprep)).
  apply bind_inv in Hprep as (b & wb & Hbuf & Hprep).
  apply bind_inv in Hbuf as (flat & wf & _ & Hbuf).
  apply ret_inv in Hbuf as [<- _]. apply ret_inv in Hprep as [[= _ _ <- _] _].
  by exists flat.
Qed.

(** The root of a gather, and an all-to-all, whose output buffers lie in
    separate allocations take the copy-back path. *)
Example gather_root_not_flat :
  ∃ in0 sendCounts recvCounts flatOutput locked,
    gather_prepare pg2 [[out3a; out3b]] [in3] 0 (fresh_world 3)
    = (Ret (in0, sendCounts, recvCounts, false, flatOutput), locked).
Proof. eexists _, _, _, _, _. vm_compute. reflexivity. Qed.

Example alltoall_not_flat :
  ∃ sendCounts recvCounts flatInput flatOutput locked,
    alltoall_prepare pg2 [out3a; out3b] [in3; in3] (fresh_world 3)
    = (Ret (sendCounts, recvCounts, flatInput, false, flatOutput), locked).
Proof. eexists _, _, _, _, _. vm_compute. reflexivity. Qed.


(** On the copy-back paths (all-gather into a flat destination, gather
    on the root with an output list that is not flat, list all-to-all
    with an output list that is not flat) a dispatch call that returns
    has, after taking the lock in world [locked], issued the collective,
    waited for its request and copied the results; the handle it returns
    holds that request, now completed, and no buffers.  Polling or
    waiting on the handle returns true and drops the request;
    destroying the handle while it holds the request terminates the
    process. *)
Lemma copy_back_handle_waited (pg : ProcessGroupCCL) (w locked w' : World)
    (h : WorkCCL) :
  (∀ outputTensors inputTensors in0 out0 buf recvCounts,
     allgather_prepare false pg outputTensors inputTensors w
       = (Ret (in0, out0, buf, recvCounts), locked) →
     allgather false pg outputTensors inputTensors w = (Ret h, w') →
     waited_in_dispatch locked h w') ∧
  (∀ outputTensors inputTensors rootRank in0 sendCounts recvCounts flatOutput,
     gather_prepare pg outputTensors inputTensors rootRank w
       = (Ret (in0, sendCounts, recvCounts, false, flatOutput), locked) →
     rank_ pg = rootRank →
     gather pg outputTensors inputTensors rootRank w = (Ret h, w') →
     waited_in_dispatch locked h w') ∧
  (∀ outputTensors inputTensors sendCounts recvCounts flatInput flatOutput,
     alltoall_prepare pg outputTensors inputTensors w
       = (Ret (sendCounts, recvCounts, flatInput, false, flatOutput), locked) →
     alltoall pg outputTensors inputTensors w = (Ret h, w') →
     waited_in_dispatch locked h w') ∧
  (waited_in_dispatch locked h w' →
     (isCompleted h w').1 = Ret (true, mkWork None []) ∧
     (wait h w').1 = Ret (true, mkWork None []) ∧
     (WorkCCL_dtor h w').1 = Terminate).
Proof.
  split_and!; [| | |apply waited_handle].
  - intros outs ins in0 out0 buf rc Hprep H.
    destruct (allgather_prepare_flat _ _ _ _ _ _ _ _ _ Hprep) as [flat ->].
    unfold allgather in H. erewrite bind_ret in H by exact Hprep.
    cbn beta iota in H.
    apply bind_inv in H as (r & w2 & Hissue & H).
    apply issue_site_inv in Hissue as [c Hissue].
    apply bind_inv in H as ([] & w3 & Hwait & H).
    apply bind_inv in H as ([] & w4 & Hloop & H).
    apply ret_inv in H as [<- <-].
    apply (waited_after_issue locked c r w2); [done|].
    eapply (for_range_preserves (λ _ w, waited (trace w2) r w));
      [|exact Hloop|by eapply req_wait_inv].
    intros i [] wa [] wb Hb Hwa.
    apply bind_inv in Hb as (o & wc & Ho & Hb).
    apply vec_at_inv in Ho as [_ ->]. by eapply copy_preserves_waited.
  - intros outs ins root in0 sc rc flat Hprep Hroot H. unfold gather in H.
    erewrite bind_ret in H by exact Hprep. cbn beta iota in H.
    apply bind_inv in H as (r & w2 & Hissue & H).
    apply issue_site_inv in Hissue as [c Hissue].
    rewrite bool_decide_eq_true_2 in H by done. cbn [negb] in H.
    apply bind_inv in H as (ts & w3 & Hfin & H). apply ret_inv in H as [<- <-].
    apply bind_inv in Hfin as ([] & w4 & Hwait & Hfin).
    apply bind_inv in Hfin as (out0 & w5 & Hout & Hfin).
    apply vec_at_inv in Hout as [_ ->].
    apply bind_inv in Hfin as ([] & w6 & Hcopy & Hfin).
    apply ret_inv in Hfin as [<- <-].
    apply (waited_after_issue locked c r w2); [done|].
    eapply copy_out_preserves_waited; [exact Hcopy|]. by eapply req_wait_inv.
  - intros outs ins sc rc fi flat Hprep H. unfold alltoall in H.
    erewrite bind_ret in H by exact Hprep. cbn beta iota in H.
    apply bind_inv in H as (r & w2 & Hissue & H).
    apply issue_site_inv in Hissue as [c Hissue]. cbn [negb] in H.
    apply bind_inv in H as (ts & w3 & Hfin & H). apply ret_inv in H as [<- <-].
    apply bind_inv in Hfin as ([] & w4 & Hwait & Hfin).
    apply bind_inv in Hfin as ([] & w6 & Hcopy & Hfin).
    apply ret_inv in Hfin as [<- <-].
    apply (waited_after_issue locked c r w2); [done|].
    eapply copy_out_preserves_waited; [exact Hcopy|]. by eapply req_wait_inv.
Qed.

(** The lemma at a flat-mode all-gather on two ranks. *)
Lemma copy_back_handle_waited_witness :
  waited_in_dispatch
    (allgather_prepare false pg2 [[out3a; out3b]] [in3] (fresh_world 3)).2
    (mkWork (Some 0%nat) [])
    (allgather false pg2 [[out3a; out3b]] [in3] (fresh_world 3)).2.
Proof.
  apply (proj1 (copy_back_handle_waited pg2 (fresh_world 3)
                  (allgather_prepare false pg2 [[out3a; out3b]] [in3]
                     (fresh_world 3)).2
                  (allgather false pg2 [[out3a; out3b]] [in3] (fresh_world 3)).2
                  (mkWork (Some 0%nat) []))
           [[out3a; out3b]] [in3] in3 [out3a; out3b]
           (flatOutputTensor (dense [2; 3] kInt 3 0)) [3; 3]);
    reflexivity.
Defined.

(** C1.  The handle of a copy-back path is not the handle of completed
    work.  Flat-mode all-gather, gather on the root and list all-to-all,
    each with two output buffers of separate allocations on rank 0 of a
    group of two, return after the collective was issued and waited
    for, and the request has completed in the substrate.  Yet the
    handle they return holds the request: [WorkCCL::wait] resets [req]
    after [req->wait()] (lines 253-255), the three paths do not (lines
    462-470, 552-574, 778-795).  On that handle [isSuccess] throws its
    error about work that has not completed, and the destructor
    terminates the process. *)
Theorem copy_back_handle_holds_request :
  let h := mkWork (Some 0%nat) [] in
  let returns_pending (r : Outcome WorkCCL * World) : Prop :=
    r.1 = Ret h ∧
    requests r.2 = [Completed] ∧
    EvWait 0 ∈ trace r.2 ∧
    isSuccess h r.2
    = (Throw (RuntimeError
                "invalid call to WorkCCL::isSuccess before work has completed"),
       r.2) ∧
    (WorkCCL_dtor h r.2).1 = Terminate in
  returns_pending (allgather false pg2 [[out3a; out3b]] [in3] (fresh_world 3)) ∧
  returns_pending (gather pg2 [[out3a; out3b]] [in3] 0 (fresh_world 3)) ∧
  returns_pending (alltoall pg2 [out3a; out3b] [in3; in3] (fresh_world 3)).
Proof.
  cbv zeta.
  split_and!; try reflexivity; apply list_elem_of_In; vm_compute; tauto.
Qed.

(** ** Further properties: the work handle *)

Lemma CCL_CHECK_throws {A} (cmd : M A) w e :
  (CCL_CHECK cmd w).1 = Throw e → is_runtime_error e.
Proof.
  unfold CCL_CHECK. destruct (cmd w) as [[a|e'| |] w']; try discriminate.
  destruct e'; intros [= <-]; exact I.
Qed.

(** X1.  Whenever [wait] returns, it returns true and the handle holds
    no request any more (and no buffers, when it held a request); from
    then on [isSuccess] and [isCompleted] answer true and leave the
    world as it is, and the destructor returns. *)
Theorem wait_completes (self : WorkCCL) (w : World) (b : bool)
    (self' : WorkCCL) (w' : World) :
  wait self w = (Ret (b, self'), w') →
  b = true ∧ req self' = None ∧
  (req self ≠ None → tensors self' = []) ∧
  isSuccess self' w' = (Ret true, w') ∧
  isCompleted self' w' = (Ret (true, self'), w') ∧
  WorkCCL_dtor self' w' = (Ret tt, w').
Proof.
  unfold wait. destruct self as [[r|] ts]; cbn [req].
  - intros H. apply bind_inv in H as ([] & w1 & _ & H).
    apply ret_inv in H as [[= <- <-] <-]. by split_and!.
  - intros H. apply ret_inv in H as [[= <- <-] <-]. by split_and!.
Qed.

Lemma wait_completes_witness :
  (true = true ∧ req (mkWork None []) = None ∧
   (req (mkWork (Some 0%nat) [in3]) ≠ None → tensors (mkWork None []) = []) ∧
   isSuccess (mkWork None []) (mkWorld [Completed] [] 1 [EvWait 0%nat])
     = (Ret true, mkWorld [Completed] [] 1 [EvWait 0%nat]) ∧
   isCompleted (mkWork None []) (mkWorld [Completed] [] 1 [EvWait 0%nat])
     = (Ret (true, mkWork None []), mkWorld [Completed] [] 1 [EvWait 0%nat]) ∧
   WorkCCL_dtor (mkWork None []) (mkWorld [Completed] [] 1 [EvWait 0%nat])
     = (Ret tt, mkWorld [Completed] [] 1 [EvWait 0%nat])).
Proof.
  apply (wait_completes (mkWork (Some 0%nat) [in3]) (mkWorld [InFlight 2] [] 1 [])
           true (mkWork None []) (mkWorld [Completed] [] 1 [EvWait 0%nat])).
  reflexivity.
Defined.

(** X2.  [isCompleted] answers true exactly when the handle holds no
    request afterwards: an answer of false leaves the handle as it was,
    and an answer of true on a handle that held a request has released
    the request and dropped the buffers. *)
Theorem isCompleted_flag (self : WorkCCL) (w : World) (flag : bool)
    (self' : WorkCCL) (w' : World) :
  isCompleted self w = (Ret (flag, self'), w') →
  (flag = true ↔ req self' = None) ∧
  (flag = false → self' = self) ∧
  (flag = true → req self ≠ None → self' = mkWork None []).
Proof.
  unfold isCompleted. destruct self as [[r|] ts]; cbn [req].
  - intros H. apply bind_inv in H as (f & w1 & _ & H). destruct f.
    + apply ret_inv in H as [[= <- <-] <-]. by split_and!.
    + apply ret_inv in H as [[= <- <-] <-]. by split_and!.
  - intros H. apply ret_inv in H as [[= <- <-] <-]. by split_and!.
Qed.

Lemma isCompleted_flag_witness :
  (false = true ↔ req (mkWork (Some 0%nat) [in3]) = None) ∧
  (false = false → mkWork (Some 0%nat) [in3] = mkWork (Some 0%nat) [in3]) ∧
  (false = true → req (mkWork (Some 0%nat) [in3]) ≠ None →
   mkWork (Some 0%nat) [in3] = mkWork None []).
Proof.
  apply (isCompleted_flag (mkWork (Some 0%nat) [in3]) (mkWorld [InFlight 2] [] 1 [])
           false (mkWork (Some 0%nat) [in3])
           (mkWorld [InFlight 1] [] 1 [EvTest 0%nat])).
  reflexivity.
Defined.

(** X3.  Every exception that leaves [wait], [isCompleted] or
    [isSuccess] is a [std::runtime_error]: a [ccl::ccl_error] of the
    substrate never escapes them; [wait] and [isCompleted] never reach
    [std::terminate]. *)
Theorem handle_errors_are_runtime_errors (self : WorkCCL) (w : World) (e : Exn) :
  ((wait self w).1 = Throw e → is_runtime_error e) ∧
  ((isCompleted self w).1 = Throw e → is_runtime_error e) ∧
  ((isSuccess self w).1 = Throw e → is_runtime_error e) ∧
  (wait self w).1 ≠ Terminate ∧ (isCompleted self w).1 ≠ Terminate.
Proof.
  destruct self as [[r|] ts]; unfold wait, isCompleted, isSuccess; cbn [req].
  - split_and!.
    + unfold mbind, M_bind. destruct (CCL_CHECK (req_wait r) w) as [[[]|e'| |] w1] eqn:H;
        cbn; try discriminate.
      intros [= <-]. apply (CCL_CHECK_throws (req_wait r) w). by rewrite H.
    + unfold mbind, M_bind. destruct (CCL_CHECK (req_test r) w) as [[[]|e'| |] w1] eqn:H;
        cbn; try discriminate.
      intros [= <-]. apply (CCL_CHECK_throws (req_test r) w). by rewrite H.
    + intros [= <-]. exact I.
    + unfold mbind, M_bind, CCL_CHECK, req_wait.
      destruct (requests w !! r) as [[]|]; done.
    + unfold mbind, M_bind, CCL_CHECK, req_test.
      destruct (requests w !! r) as [[[]| |]|]; done.
  - split_and!; done.
Qed.

Lemma handle_errors_are_runtime_errors_witness :
  is_runtime_error (RuntimeError "CCL error in: ").
Proof.
  apply (proj1 (handle_errors_are_runtime_errors (mkWork (Some 0%nat) [])
                  (mkWorld [Broken] [] 0 []) (RuntimeError "CCL error in: "))).
  reflexivity.
Defined.

(** ** Further properties: the input checks *)

Lemma checkSingleTensorHelper_spec t w :
  checkSingleTensorHelper t w =
  if host_dense t then (Ret tt, w)
  else (Throw (TorchCheck
    (if negb (is_contiguous t) then "input tensor has to be contiguous"
     else if is_sparse t then "input tensor has to be dense"
     else if is_cuda t then
       "CUDA tensor detected and CCL doesn't support CUDA buffers"
     else "input tensor numel should be non-negative")), w).
Proof.
  unfold checkSingleTensorHelper, host_dense.
  destruct (is_contiguous t); msimpl; [|done].
  destruct (is_sparse t); msimpl; [done|].
  destruct (is_cuda t); msimpl; [done|].
  destruct (decide (0 ≤ numel t)); by msimpl.
Qed.

(** A loop that checks the elements of a vector one after the other:
    it returns when every element passes and throws the error of the
    first element that fails; the world stays as it is. *)
Lemma check_loop (chk : Tensor → M unit) (ok : Tensor → bool)
    (err : Tensor → string) (v : list Tensor) :
  (∀ t w, chk t w = if ok t then (Ret tt, w) else (Throw (TorchCheck (err t)), w)) →
  ∀ post pre w, v = pre ++ post →
  for_range (length pre) (length post) (λ i _, ti ← vec_at v i; chk ti) tt w =
  match list_find (λ t, ok t = false) post with
  | None => (Ret tt, w)
  | Some (_, t) => (Throw (TorchCheck (err t)), w)
  end.
Proof.
  intros Hchk. induction post as [|t post IH]; intros pre w ->; [done|].
  cbn [for_range length list_find].
  rewrite bind_run, bind_run. unfold vec_at at 1.
  rewrite list_lookup_middle by done. unfold mret at 1, M_ret at 1.
  rewrite Hchk. destruct (ok t) eqn:Hok.
  - rewrite decide_False by done.
    specialize (IH (pre ++ [t]) w). rewrite length_app, Nat.add_1_r in IH.
    rewrite IH by by rewrite <- app_assoc.
    by destruct (list_find _ post) as [[]|].
  - by rewrite decide_True.
Qed.

Lemma list_find_none_forall (ok : Tensor → bool) (v : list Tensor) :
  list_find (λ t, ok t = false) v = None ↔ Forall (λ t, ok t = true) v.
Proof.
  rewrite list_find_None.
  split; intros H; eapply Forall_impl; try exact H; intros t; cbn;
    destruct (ok t); done.
Qed.

Lemma checkSameSizeAndType_body tensor ti w :
  (TORCH_CHECK (bool_decide (numel ti = numel tensor) &&
                bool_decide (scalar_type ti = scalar_type tensor))
     "tensors are not equal in size or data type";;
   checkSingleTensorHelper ti) w
  = if like tensor ti then (Ret tt, w)
    else (Throw (TorchCheck
      (if negb (bool_decide (numel ti = numel tensor) &&
                bool_decide (scalar_type ti = scalar_type tensor))
       then "tensors are not equal in size or data type"
       else if negb (is_contiguous ti) then "input tensor has to be contiguous"
       else if is_sparse ti then "input tensor has to be dense"
       else if is_cuda ti then
         "CUDA tensor detected and CCL doesn't support CUDA buffers"
       else "input tensor numel should be non-negative")), w).
Proof.
  unfold like.
  destruct (bool_decide (numel ti = numel tensor) &&
            bool_decide (scalar_type ti = scalar_type tensor)); msimpl; [|done].
  rewrite checkSingleTensorHelper_spec. by destruct (host_dense ti).
Qed.

Lemma checkSameSizeAndType_run tensor tensors w :
  checkSameSizeAndType tensor tensors w =
  match list_find (λ t, like tensor t = false) tensors with
  | None => (Ret tt, w)
  | Some (_, t) =>
      (Throw (TorchCheck
        (if negb (bool_decide (numel t = numel tensor) &&
                  bool_decide (scalar_type t = scalar_type tensor))
         then "tensors are not equal in size or data type"
         else if negb (is_contiguous t) then "input tensor has to be contiguous"
         else if is_sparse t then "input tensor has to be dense"
         else if is_cuda t then
           "CUDA tensor detected and CCL doesn't support CUDA buffers"
         else "input tensor numel should be non-negative")), w)
  end.
Proof.
  exact (check_loop _ (like tensor) _ tensors
           (checkSameSizeAndType_body tensor) tensors [] w eq_refl).
Qed.

Lemma checkSameSizeAndType_ok tensor tensors w :
  Forall (λ ti, like tensor ti = true) tensors →
  checkSameSizeAndType tensor tensors w = (Ret tt, w).
Proof.
  intros Hall. rewrite checkSameSizeAndType_run.
  apply list_find_none_forall in Hall. by rewrite Hall.
Qed.

(** X4.  [checkSameSizeAndType] returns exactly when every buffer of the
    list has the element count and the element type of the reference
    buffer and is a contiguous, dense, host buffer; otherwise it raises
    a validation error and has no other effect. *)
Theorem checkSameSizeAndType_accepts (tensor : Tensor) (tensors : list Tensor)
    (w : World) :
  (Forall (λ ti, like tensor ti = true) tensors →
     checkSameSizeAndType tensor tensors w = (Ret tt, w)) ∧
  (¬ Forall (λ ti, like tensor ti = true) tensors →
     ∃ msg, checkSameSizeAndType tensor tensors w = (Throw (TorchCheck msg), w)).
Proof.
  split; [apply checkSameSizeAndType_ok|]. intros Hnot.
  rewrite checkSameSizeAndType_run.
  destruct (list_find _ tensors) as [[i t]|] eqn:Hfind; [eauto|].
  by apply list_find_none_forall in Hfind.
Qed.

Lemma checkSameSizeAndType_accepts_witness :
  checkSameSizeAndType in3 [out3a; out3b] (fresh_world 3) = (Ret tt, fresh_world 3).
Proof.
  apply (proj1 (checkSameSizeAndType_accepts in3 [out3a; out3b] (fresh_world 3))).
  repeat constructor.
Defined.

Lemma checkSameType_body tensor ti w :
  (TORCH_CHECK (bool_decide (scalar_type ti = scalar_type tensor))
     "tensors are not equal in data type";;
   checkSingleTensorHelper ti) w
  = if same_type tensor ti then (Ret tt, w)
    else (Throw (TorchCheck
      (if negb (bool_decide (scalar_type ti = scalar_type tensor))
       then "tensors are not equal in data type"
       else if negb (is_contiguous ti) then "input tensor has to be contiguous"
       else if is_sparse ti then "input tensor has to be dense"
       else if is_cuda ti then
         "CUDA tensor detected and CCL doesn't support CUDA buffers"
       else "input tensor numel should be non-negative")), w).
Proof.
  unfold same_type.
  destruct (bool_decide (scalar_type ti = scalar_type tensor)); msimpl; [|done].
  rewrite checkSingleTensorHelper_spec. by destruct (host_dense ti).
Qed.

Lemma checkSameType_run tensor tensors w :
  checkSameType tensor tensors w =
  match list_find (λ t, same_type tensor t = false) tensors with
  | None => (Ret tt, w)
  | Some (_, t) =>
      (Throw (TorchCheck
        (if negb (bool_decide (scalar_type t = scalar_type tensor))
         then "tensors are not equal in data type"
         else if negb (is_contiguous t) then "input tensor has to be contiguous"
         else if is_sparse t then "input tensor has to be dense"
         else if is_cuda t then
           "CUDA tensor detected and CCL doesn't support CUDA buffers"
         else "input tensor numel should be non-negative")), w)
  end.
Proof.
  exact (check_loop _ (same_type tensor) _ tensors
           (checkSameType_body tensor) tensors [] w eq_refl).
Qed.

Lemma checkSameType_ok tensor tensors w :
  Forall (λ ti, same_type tensor ti = true) tensors →
  checkSameType tensor tensors w = (Ret tt, w).
Proof.
  intros Hall. rewrite checkSameType_run.
  apply list_find_none_forall in Hall. by rewrite Hall.
Qed.

(** X5.  [checkSameType] returns exactly when every buffer of the list
    has the element type of the reference buffer and is a contiguous,
    dense, host buffer, whatever the element counts are; otherwise it
    raises a validation error and has no other effect. *)
Theorem checkSameType_accepts (tensor : Tensor) (tensors : list Tensor)
    (w : World) :
  (Forall (λ ti, same_type tensor ti = true) tensors →
     checkSameType tensor tensors w = (Ret tt, w)) ∧
  (¬ Forall (λ ti, same_type tensor ti = true) tensors →
     ∃ msg, checkSameType tensor tensors w = (Throw (TorchCheck msg), w)).
Proof.
  split; [apply checkSameType_ok|]. intros Hnot.
  rewrite checkSameType_run.
  destruct (list_find _ tensors) as [[i t]|] eqn:Hfind; [eauto|].
  by apply list_find_none_forall in Hfind.
Qed.

Lemma checkSameType_accepts_witness :
  checkSameType in3 [out3a; dense [7] kInt 2 0] (fresh_world 3)
  = (Ret tt, fresh_world 3).
Proof.
  apply (proj1 (checkSameType_accepts in3 [out3a; dense [7] kInt 2 0]
                  (fresh_world 3))).
  repeat constructor.
Defined.

Lemma checkSingleTensor_ok t w :
  host_dense t = true → checkSingleTensor [t] w = (Ret tt, w).
Proof.
  intros H. unfold checkSingleTensor. msimpl. unfold vec_at. cbn [lookup list_lookup].
  msimpl. by rewrite checkSingleTensorHelper_spec, H.
Qed.

(** X6.  [checkSingleTensor] returns exactly when the list holds one
    buffer and that buffer is contiguous, dense and on the host; for an
    empty list, a longer list or any other buffer it raises a validation
    error and has no other effect. *)
Theorem checkSingleTensor_accepts (tensors : list Tensor) (w : World) :
  ((∃ t, tensors = [t] ∧ host_dense t = true) →
     checkSingleTensor tensors w = (Ret tt, w)) ∧
  (¬ (∃ t, tensors = [t] ∧ host_dense t = true) →
     ∃ msg, checkSingleTensor tensors w = (Throw (TorchCheck msg), w)).
Proof.
  split.
  - intros (t & -> & H). by apply checkSingleTensor_ok.
  - intros Hnot. unfold checkSingleTensor.
    destruct tensors as [|t [|t' ts]]; msimpl; [eauto| |eauto].
    unfold vec_at. cbn [lookup list_lookup]. msimpl.
    rewrite checkSingleTensorHelper_spec.
    destruct (host_dense t) eqn:H; [|eauto]. destruct Hnot. eauto.
Qed.

Lemma checkSingleTensor_accepts_witness :
  checkSingleTensor [in3] (fresh_world 1) = (Ret tt, fresh_world 1).
Proof.
  apply (proj1 (checkSingleTensor_accepts [in3] (fresh_world 1))).
  exists in3. split; reflexivity.
Defined.

(** ** Further properties: the reconciler *)

(** X7.  For a non-empty list with a length table of the same size the
    reconciler returns a verdict, and the verdict is true exactly when
    every non-empty buffer lies in the storage of the anchor (the first
    non-empty buffer) at the anchor's offset plus the element counts of
    all buffers before it. *)
Theorem reconciler_flat_iff (ts : list Tensor) (lengths : list Z) (a : Tensor)
    (w : World) :
  length lengths = length ts →
  anchor ts = Some a →
  ∃ b, flat_verdict ts lengths w = Some b ∧
    (b = true ↔
     ∀ i t, ts !! i = Some t → numel t ≠ 0 →
       storage t = storage a ∧
       storage_offset t = storage_offset a + total (numel <$> take i ts)).
Proof.
  intros Hl Ha. destruct ts as [|t0 ts]; [discriminate|].
  exists (all_in_place a 0 (t0 :: ts)). split; [by apply flat_verdict_spec|].
  rewrite all_in_place_iff. split; intros H i t Hi Hne.
  - destruct (H i t Hi Hne) as [Hs Ho]. split; [done|]. by rewrite Ho, Z.add_0_l.
  - destruct (H i t Hi Hne) as [Hs Ho]. split; [done|]. by rewrite Ho, Z.add_0_l.
Qed.

Lemma reconciler_flat_iff_witness :
  ∃ b, flat_verdict empty_then_two [0; 0; 0] (fresh_world 3) = Some b ∧
    (b = true ↔
     ∀ i t, empty_then_two !! i = Some t → numel t ≠ 0 →
       storage t = storage (dense [4] kInt 1 3) ∧
       storage_offset t = storage_offset (dense [4] kInt 1 3)
                          + total (numel <$> take i empty_then_two)).
Proof.
  apply (reconciler_flat_iff empty_then_two [0; 0; 0] (dense [4] kInt 1 3)
           (fresh_world 3)); reflexivity.
Defined.

(** X8.  When some non-empty buffer of the list is not at its place
    behind the anchor, the reconciler returns false, fills the length
    table with the element counts, and returns one freshly allocated
    one-dimensional buffer whose length is the sum of the element counts
    and whose options are those of the anchor; the allocation is its
    only effect. *)
Theorem reconciler_allocates (ts : list Tensor) (lengths : list Z) (a : Tensor)
    (w : World) (i : nat) (t : Tensor) :
  length lengths = length ts →
  Forall tensor_ok ts →
  anchor ts = Some a →
  ts !! i = Some t →
  numel t ≠ 0 →
  ¬ (storage t = storage a ∧
     storage_offset t = storage_offset a + total (numel <$> take i ts)) →
  let flat := mkTensor [total (numel <$> ts)] (scalar_type a) (next_storage w) 0
                       true (is_sparse a) (is_cuda a) in
  computeLengthsAndCheckAndGetFlat ts lengths w
  = (Ret (false, numel <$> ts, flat),
     mkWorld (requests w) (script w) (Datatypes.S (next_storage w))
             (trace w ++ [EvAlloc flat])).
Proof.
  intros Hl Hok Ha Hi Hne Hout flat. destruct ts as [|t0 ts]; [discriminate|].
  rewrite (reconciler_run _ _ _ a) by done.
  destruct (all_in_place a 0 (t0 :: ts)) eqn:Hp.
  - destruct Hout. rewrite all_in_place_iff in Hp.
    destruct (Hp i t Hi Hne) as [Hs Ho]. split; [done|]. by rewrite Ho, Z.add_0_l.
  - assert (((λ t, to_size_t (numel t)) <$> t0 :: ts) = (numel <$> t0 :: ts)) as ->.
    { apply Forall_fmap_ext_1. eapply Forall_impl; [exact Hok|].
      intros x Hx. by apply to_size_t_numel. }
    reflexivity.
Qed.

Lemma reconciler_allocates_witness :
  computeLengthsAndCheckAndGetFlat [out3a; out3b] [0; 0] (fresh_world 3)
  = (Ret (false, [3; 3], dense [6] kInt 3 0),
     mkWorld [] [] 4 [EvAlloc (dense [6] kInt 3 0)]).
Proof.
  apply (reconciler_allocates [out3a; out3b] [0; 0] out3a (fresh_world 3)
           1%nat out3b); try reflexivity.
  - unfold tensor_ok. repeat constructor; cbn; lia.
  - discriminate.
  - intros [H _]. discriminate H.
Defined.

Lemma for_range_add {S} (body : nat → S → M S) : ∀ n m start s w,
  for_range start (n + m) body s w
  = (s' ← for_range start n body s; for_range (start + n) m body s') w.
Proof.
  induction n as [|n IH]; intros m start s w.
  - cbn [Nat.add for_range]. rewrite bind_run. cbn. by rewrite Nat.add_0_r.
  - cbn [Nat.add for_range]. rewrite !bind_run.
    destruct (body start s w) as [[s1|e| |] w1]; try done.
    rewrite IH, !bind_run. by replace (start + Datatypes.S n)%nat
      with (Datatypes.S start + n)%nat by lia.
Qed.

(** The loop looks at as many buffers as the table has entries. *)
Lemma for_range_reconcile_prefix tensors post more : ∀ pre st w,
  tensors = pre ++ post ++ more →
  for_range (length pre) (length post)
    (λ i st, curTensor ← vec_at tensors i; mret (reconcile_step curTensor i st))
    st w
  = (Ret (reconcile_fold (length pre) post st), w).
Proof.
  induction post as [|t post IH]; intros pre st w ->; [done|].
  cbn [for_range length reconcile_fold].
  erewrite bind_ret; last first.
  { unfold vec_at. rewrite <- app_comm_cons, list_lookup_middle by done.
    reflexivity. }
  specialize (IH (pre ++ [t]) (reconcile_step t (length pre) st) w).
  rewrite length_app, Nat.add_1_r in IH. apply IH.
  by rewrite <- !app_assoc.
Qed.

(** X9.  The reconciler walks as many buffers as the length table has
    entries: buffers of the list beyond the table are ignored, and a
    table longer than the list makes it index the list outside its
    bounds, which is undefined behaviour. *)
Theorem reconciler_reads_table_size (ts more : list Tensor) (lengths : list Z)
    (w : World) :
  ts ≠ [] →
  (length lengths = length ts →
     computeLengthsAndCheckAndGetFlat (ts ++ more) lengths w
     = computeLengthsAndCheckAndGetFlat ts lengths w) ∧
  ((length ts < length lengths)%nat →
     computeLengthsAndCheckAndGetFlat ts lengths w = (Undefined, w)).
Proof.
  intros Hne. destruct ts as [|t0 ts]; [done|]. split.
  - intros Hl. unfold computeLengthsAndCheckAndGetFlat.
    rewrite (bind_run (reconcile_loop (t0 :: ts) lengths)), reconcile_loop_run by done.
    rewrite bind_run. unfold reconcile_loop.
    erewrite bind_ret by reflexivity. rewrite Hl.
    by rewrite (for_range_reconcile_prefix ((t0 :: ts) ++ more) (t0 :: ts) more []).
  - intros Hlt. unfold computeLengthsAndCheckAndGetFlat. apply bind_undefined.
    unfold reconcile_loop. erewrite bind_ret by reflexivity.
    replace (length lengths)
      with (length (t0 :: ts) + Datatypes.S (length lengths - length (t0 :: ts) - 1))%nat
      by lia.
    rewrite for_range_add.
    erewrite bind_ret
      by apply (for_range_reconcile_prefix (t0 :: ts) (t0 :: ts) [] []), eq_sym, app_nil_r.
    cbn [for_range]. apply bind_undefined, bind_undefined.
    unfold vec_at. by rewrite lookup_ge_None_2.
Qed.

Lemma reconciler_reads_table_size_witness :
  (length [0; 0] = length [out3a; out3b] →
     computeLengthsAndCheckAndGetFlat ([out3a; out3b] ++ [in3]) [0; 0] (fresh_world 3)
     = computeLengthsAndCheckAndGetFlat [out3a; out3b] [0; 0] (fresh_world 3)) ∧
  ((length [out3a; out3b] < length [0; 0])%nat →
     computeLengthsAndCheckAndGetFlat [out3a; out3b] [0; 0] (fresh_world 3)
     = (Undefined, fresh_world 3)).
Proof.
  apply (reconciler_reads_table_size [out3a; out3b] [in3] [0; 0] (fresh_world 3)).
  discriminate.
Defined.

(** ** Further properties: the operations *)

Lemma launch_op_run ty dt o op (call : ccl_data_type → ccl_reduction → Collective)
    keep (k : nat → M WorkCCL) w :
  map_find cclDatatypes ty = Some dt →
  map_find cclOps o = Some op →
  (∀ r w', k r w' = (Ret (mkWork (Some r) keep), w')) →
  (req ← CCL_CHECK (dt ← map_at cclDatatypes ty; op ← map_at cclOps o;
                    issue (call dt op));
   k req) w
  = launched (call dt op) keep w.
Proof.
  intros Hty Hop Hk. rewrite bind_run. unfold CCL_CHECK. rewrite bind_run.
  unfold map_at. rewrite Hty. unfold mret at 1, M_ret at 1.
  rewrite bind_run, Hop. unfold mret at 1, M_ret at 1.
  rewrite issue_run. unfold launched. destruct (next_behaviour w); [done|].
  apply Hk.
Qed.

Lemma broadcast_prepare_ok pg t rootRank w :
  host_dense t = true → 0 ≤ rootRank < size_ pg →
  broadcast_prepare pg [t] rootRank w = (Ret t, w).
Proof.
  intros Ht Hr. unfold broadcast_prepare.
  erewrite bind_ret by by apply checkSingleTensor_ok.
  unfold checkRank. by msimpl.
Qed.

Lemma allreduce_prepare_ok pg t w :
  host_dense t = true → allreduce_prepare pg [t] w = (Ret t, w).
Proof.
  intros Ht. unfold allreduce_prepare.
  by erewrite bind_ret by by apply checkSingleTensor_ok.
Qed.

(** X10.  On one contiguous, dense host buffer of a supported element
    type (with a supported reduction operator, and a root inside the
    group, where there is one), [broadcast], [allreduce] and [reduce]
    issue exactly one substrate call with the buffer's element count and
    do nothing else: a substrate error comes back as
    [std::runtime_error], and otherwise the handle holds the new request
    and keeps the buffer. *)
Theorem single_buffer_collectives (pg : ProcessGroupCCL) (t : Tensor)
    (dt : ccl_data_type) (w : World) :
  host_dense t = true →
  map_find cclDatatypes (scalar_type t) = Some dt →
  (∀ rootRank, 0 ≤ rootRank < size_ pg →
     broadcast pg [t] rootRank w
     = launched (c_bcast (to_size_t (numel t)) dt (to_size_t rootRank)) [t] w) ∧
  (∀ reduceOp op, map_find cclOps reduceOp = Some op →
     allreduce pg [t] reduceOp w
     = launched (c_allreduce (to_size_t (numel t)) dt op) [t] w) ∧
  (∀ reduceOp op rootRank, map_find cclOps reduceOp = Some op →
     0 ≤ rootRank < size_ pg →
     reduce pg [t] reduceOp rootRank w
     = launched (c_reduce (to_size_t (numel t)) dt op (to_size_t rootRank)) [t] w).
Proof.
  intros Ht Hdt. split_and!.
  - intros root Hroot. unfold broadcast.
    erewrite bind_ret by by apply broadcast_prepare_ok.
    by apply (launch_run _ _ (λ dt, c_bcast _ dt _)).
  - intros o op Hop. unfold allreduce.
    erewrite bind_ret by by apply allreduce_prepare_ok.
    by apply (launch_op_run _ _ _ _ (λ dt op, c_allreduce _ dt op)).
  - intros o op root Hop Hroot. unfold reduce.
    erewrite bind_ret by by apply broadcast_prepare_ok.
    by apply (launch_op_run _ _ _ _ (λ dt op, c_reduce _ dt op _)).
Qed.

Lemma single_buffer_collectives_witness :
  broadcast pg2 [in3] 1 (fresh_world 1)
  = launched (c_bcast (to_size_t (numel in3)) dt_int (to_size_t 1)) [in3]
      (fresh_world 1).
Proof.
  apply (proj1 (single_buffer_collectives pg2 in3 dt_int (fresh_world 1)
                  eq_refl eq_refl)).
  cbn. lia.
Defined.

(** X11.  With a root rank outside the group, [broadcast] and [reduce]
    always fail with a validation error and leave the world as it was,
    whatever the buffers are; when the buffer list itself is valid the
    error is that of [checkRank]. *)
Theorem rooted_collectives_check_root (pg : ProcessGroupCCL)
    (tensors : list Tensor) (rootRank : Z) (w : World) :
  ¬ (0 ≤ rootRank < size_ pg) →
  (∃ msg, broadcast pg tensors rootRank w = (Throw (TorchCheck msg), w)) ∧
  (∀ reduceOp,
     ∃ msg, reduce pg tensors reduceOp rootRank w = (Throw (TorchCheck msg), w)) ∧
  (∀ t reduceOp, tensors = [t] → host_dense t = true →
     broadcast pg tensors rootRank w = (Throw (TorchCheck "unexpected rank"), w) ∧
     reduce pg tensors reduceOp rootRank w
     = (Throw (TorchCheck "unexpected rank"), w)).
Proof.
  intros Hbad.
  destruct (broadcast_prepare_bad_root pg tensors rootRank w Hbad) as [msg H].
  split_and!.
  - exists msg. unfold broadcast. by apply bind_throw.
  - intros o. exists msg. unfold reduce. by apply bind_throw.
  - intros t o -> Ht.
    assert (Hp : broadcast_prepare pg [t] rootRank w
                 = (Throw (TorchCheck "unexpected rank"), w)).
    { unfold broadcast_prepare.
      erewrite bind_ret by by apply checkSingleTensor_ok.
      apply bind_throw. unfold checkRank.
      destruct (decide (0 ≤ rootRank)), (decide (rootRank < size_ pg));
        msimpl; try done. lia. }
    split; [unfold broadcast|unfold reduce]; by apply bind_throw.
Qed.

Lemma rooted_collectives_check_root_witness :
  ∃ msg, broadcast pg2 [in3] 2 (fresh_world 1)
         = (Throw (TorchCheck msg), fresh_world 1).
Proof.
  apply (proj1 (rooted_collectives_check_root pg2 [in3] 2 (fresh_world 1)
                  ltac:(cbn; lia))).
Defined.

Lemma checkSingleTensorHelper_ok t w :
  host_dense t = true → checkSingleTensorHelper t w = (Ret tt, w).
Proof. intros H. by rewrite checkSingleTensorHelper_spec, H. Qed.

(** X12.  [alltoall_base] without split sizes, on two contiguous dense
    host buffers with a leading dimension: buffers that differ in
    element count or type are rejected, a leading output dimension that
    the group size does not divide is rejected, both with a validation
    error and without effect; otherwise one fixed-size all-to-all of the
    element count divided by the group size is issued and the handle
    keeps both buffers. *)
Theorem alltoall_base_even (pg : ProcessGroupCCL) (outputTensor inputTensor : Tensor)
    (d : Z) (w : World) :
  host_dense inputTensor = true →
  host_dense outputTensor = true →
  head (sizes outputTensor) = Some d →
  size_ pg ≠ 0 →
  (¬ (numel outputTensor = numel inputTensor ∧
      scalar_type outputTensor = scalar_type inputTensor) →
     alltoall_base pg outputTensor inputTensor [] [] w
     = (Throw (TorchCheck "Tensors are not equal in size or data type"), w)) ∧
  (numel outputTensor = numel inputTensor →
   scalar_type outputTensor = scalar_type inputTensor →
   Z.rem d (size_ pg) ≠ 0 →
     alltoall_base pg outputTensor inputTensor [] [] w
     = (Throw (TorchCheck
          "Tensor's dim 0 does not divide equally across group size"), w)) ∧
  (∀ dt, numel outputTensor = numel inputTensor →
   scalar_type outputTensor = scalar_type inputTensor →
   Z.rem d (size_ pg) = 0 →
   map_find cclDatatypes (scalar_type outputTensor) = Some dt →
     alltoall_base pg outputTensor inputTensor [] [] w
     = launched (c_alltoall (to_size_t (numel outputTensor) / to_size_t (size_ pg)) dt)
         [inputTensor; outputTensor] w).
Proof.
  intros Hin Hout Hd Hsize.
  destruct (sizes outputTensor) as [|d' tl] eqn:Hsz; [discriminate|].
  injection Hd as ->.
  assert (Hprefix : ∀ (k : M (option (list Z * list Z))),
    (checkSingleTensorHelper inputTensor;; checkSingleTensorHelper outputTensor;; k) w
    = k w).
  { intros k. erewrite bind_ret by by apply checkSingleTensorHelper_ok.
    by erewrite bind_ret by by apply checkSingleTensorHelper_ok. }
  split_and!.
  - intros Hne. unfold alltoall_base. apply bind_throw.
    unfold alltoall_base_prepare. rewrite Hprefix. cbn [length].
    rewrite !(bool_decide_eq_true_2 (0%nat = 0%nat)) by done. cbn [andb].
    apply bind_throw.
    destruct (decide (numel outputTensor = numel inputTensor)),
             (decide (scalar_type outputTensor = scalar_type inputTensor));
      msimpl; try done. by destruct Hne.
  - intros Hn Hty Hrem. unfold alltoall_base. apply bind_throw.
    unfold alltoall_base_prepare. rewrite Hprefix. cbn [length].
    rewrite !(bool_decide_eq_true_2 (0%nat = 0%nat)) by done. cbn [andb].
    unfold size0. rewrite Hsz. by msimpl.
  - intros dt Hn Hty Hrem Hdt. unfold alltoall_base.
    erewrite bind_ret; last first.
    { unfold alltoall_base_prepare. rewrite Hprefix. cbn [length].
      rewrite !(bool_decide_eq_true_2 (0%nat = 0%nat)) by done. cbn [andb].
      unfold size0. rewrite Hsz. by msimpl. }
    by apply (launch_run _ _ (λ dt, c_alltoall _ dt)).
Qed.

Lemma alltoall_base_even_witness :
  alltoall_base pg2 (dense [4; 3] kFloat 1 0) (dense [4; 3] kFloat 0 0) [] []
    (fresh_world 2)
  = launched (c_alltoall (to_size_t 12 / to_size_t 2) dt_float)
      [dense [4; 3] kFloat 0 0; dense [4; 3] kFloat 1 0] (fresh_world 2).
Proof.
  apply (proj2 (proj2 (alltoall_base_even pg2 (dense [4; 3] kFloat 1 0)
                         (dense [4; 3] kFloat 0 0) 4 (fresh_world 2)
                         eq_refl eq_refl eq_refl ltac:(discriminate)))
           dt_float); reflexivity.
Defined.

(** X13.  [alltoall_base] with split sizes, at least one list being
    non-empty, that are valid, non-negative and within [int]: the call
    passes all checks and issues exactly one variable all-to-all whose
    send and receive tables have one entry per rank and sum to the
    element counts of the input and of the output buffer; the handle
    keeps both buffers. *)
Theorem alltoall_base_uneven (pg : ProcessGroupCCL)
    (outputTensor inputTensor : Tensor)
    (outputSplitSizes inputSplitSizes : list Z) (dout din : Z)
    (dt : ccl_data_type) (w : World) :
  0 < size_ pg < 2 ^ 31 →
  host_dense inputTensor = true → host_dense outputTensor = true →
  tensor_ok inputTensor → tensor_ok outputTensor →
  head (sizes outputTensor) = Some dout → head (sizes inputTensor) = Some din →
  ¬ (outputSplitSizes = [] ∧ inputSplitSizes = []) →
  valid_split (size_ pg) dout outputSplitSizes →
  valid_split (size_ pg) din inputSplitSizes →
  Forall (λ x, 0 ≤ x) outputSplitSizes → Forall (λ x, 0 ≤ x) inputSplitSizes →
  dout < 2 ^ 31 → din < 2 ^ 31 →
  map_find cclDatatypes (scalar_type outputTensor) = Some dt →
  ∃ sendCounts recvCounts,
    alltoall_base pg outputTensor inputTensor outputSplitSizes inputSplitSizes w
    = launched (c_alltoallv sendCounts recvCounts dt) [inputTensor; outputTensor] w ∧
    Z.of_nat (length sendCounts) = size_ pg ∧
    Z.of_nat (length recvCounts) = size_ pg ∧
    total sendCounts = numel inputTensor ∧
    total recvCounts = numel outputTensor.
Proof.
  intros Hs Hin Hout Hoki Hoko Hdo Hdi Hne Hvo Hvi Hpo Hpi Hbo Hbi Hdt.
  destruct (split_counts_total (size_ pg) inputTensor din inputSplitSizes w)
    as (inLen & Hil & Hti & Hli); [done..|].
  destruct (split_counts_total (size_ pg) outputTensor dout outputSplitSizes w)
    as (outLen & Hol & Hto & Hlo); [done..|].
  assert (Hrange : ∀ d splits, valid_split (size_ pg) d splits →
            Forall (λ x, 0 ≤ x) splits → d < 2 ^ 31 →
            - 2 ^ 31 ≤ total splits < 2 ^ 31).
  { intros d splits Hv Hp Hb. pose proof (total_nonneg _ Hp) as Hn.
    destruct splits as [|x xs]; [unfold total; cbn [foldr]; lia|].
    destruct Hv as [_ Hv]. lia. }
  exists (split_counts (size_ pg) inLen inputSplitSizes),
         (split_counts (size_ pg) outLen outputSplitSizes).
  split_and!; [|rewrite split_counts_length by done; lia..|done|done].
  unfold alltoall_base. erewrite bind_ret; last first.
  { unfold alltoall_base_prepare.
    erewrite bind_ret by by apply checkSingleTensorHelper_ok.
    erewrite bind_ret by by apply checkSingleTensorHelper_ok.
    assert (bool_decide (length outputSplitSizes = 0%nat) &&
            bool_decide (length inputSplitSizes = 0%nat) = false) as ->.
    { destruct outputSplitSizes, inputSplitSizes; try done. by destruct Hne. }
    erewrite bind_ret; last first.
    { by apply (checkSplitSizes_in_range inputSplitSizes inputTensor din); eauto. }
    erewrite bind_ret; last first.
    { by apply (checkSplitSizes_in_range outputSplitSizes outputTensor dout); eauto. }
    erewrite bind_ret by by apply alltoall_base_counts_run.
    reflexivity. }
  by apply (launch_run _ _ (λ dt, c_alltoallv _ _ dt)).
Qed.

Lemma alltoall_base_uneven_witness :
  ∃ sendCounts recvCounts,
    alltoall_base (mkPG 0 4) (dense [10; 3] kFloat 1 0) (dense [10; 3] kFloat 0 0)
      [4; 3; 2; 1] [1; 2; 3; 4] (fresh_world 2)
    = launched (c_alltoallv sendCounts recvCounts dt_float)
        [dense [10; 3] kFloat 0 0; dense [10; 3] kFloat 1 0] (fresh_world 2) ∧
    Z.of_nat (length sendCounts) = size_ (mkPG 0 4) ∧
    Z.of_nat (length recvCounts) = size_ (mkPG 0 4) ∧
    total sendCounts = numel (dense [10; 3] kFloat 0 0) ∧
    total recvCounts = numel (dense [10; 3] kFloat 1 0).
Proof.
  apply (alltoall_base_uneven (mkPG 0 4) (dense [10; 3] kFloat 1 0)
           (dense [10; 3] kFloat 0 0) [4; 3; 2; 1] [1; 2; 3; 4] 10 10 dt_float
           (fresh_world 2));
    try reflexivity; try (cbn; lia); try (repeat constructor; cbn; lia).
  intros [H _]. discriminate H.
Defined.

Lemma add_trace_nil w : add_trace [] w = w.
Proof. unfold add_trace. rewrite app_nil_r. by destruct w. Qed.

Lemma add_trace_app evs1 evs2 w :
  add_trace evs2 (add_trace evs1 w) = add_trace (evs1 ++ evs2) w.
Proof. unfold add_trace. cbn. by rewrite app_assoc. Qed.

(** The copy loop of all-gather: output [i] receives slice [i] of the
    flat tensor, whose shape is that of a row of the flat tensor. *)
Lemma allgather_copy_loop flat out0 : ∀ post pre w,
  out0 = pre ++ post →
  Forall (λ o, broadcastable (tail (sizes flat)) (sizes o) = true) post →
  for_range (length pre) (length post)
    (λ i _, o ← vec_at out0 i; copy_ o (select0 flat i)) tt w
  = (Ret tt, add_trace (imap (λ i o, EvCopy o (select0 flat (length pre + i))) post) w).
Proof.
  induction post as [|o post IH]; intros pre w -> Hfit.
  - cbn. by rewrite add_trace_nil.
  - apply Forall_cons in Hfit as [Ho Hfit].
    cbn [for_range length]. rewrite bind_run, bind_run. unfold vec_at at 1.
    rewrite list_lookup_middle by done. unfold mret at 1, M_ret at 1.
    unfold copy_ at 1. cbn [sizes select0]. rewrite Ho. unfold emit.
    specialize (IH (pre ++ [o]) (log (EvCopy o (select0 flat (length pre))) w)).
    rewrite length_app, Nat.add_1_r in IH.
    rewrite IH by (by rewrite <- ?app_assoc).
    f_equal. cbn [imap]. rewrite Nat.add_0_r.
    change (log ?e w) with (add_trace [e] w). rewrite add_trace_app. do 2 f_equal.
    apply imap_ext. intros i x _. cbn. f_equal. f_equal. lia.
Qed.


Lemma to_size_t_small z : 0 ≤ z < 2 ^ 64 → to_size_t z = z.
Proof. intros H. unfold to_size_t. by apply Z.mod_small. Qed.

Lemma TORCH_CHECK_ok c msg w : c = true → TORCH_CHECK c msg w = (Ret tt, w).
Proof. by intros ->. Qed.

Lemma vec_at_ok {A} (v : list A) i a w :
  v !! i = Some a → vec_at v i w = (Ret a, w).
Proof. intros H. unfold vec_at. by rewrite H. Qed.

Lemma allgather_prepare_ok vector pg t os w :
  0 < size_ pg < 2 ^ 31 →
  Z.of_nat (length os) = size_ pg →
  host_dense t = true →
  Forall (λ o, like t o = true) os →
  allgather_prepare vector pg [os] [t] w
  = (buf ← (if vector then mret (agRecvBuffers os)
            else f ← newLikeFlat os; mret (flatOutputTensor f));
     mret (t, os, buf, replicate (length os) (to_size_t (numel t)))) w.
Proof.
  intros Hs Hlen Ht Hos. unfold allgather_prepare.
  erewrite bind_ret by by apply checkSingleTensor_ok.
  erewrite bind_ret by by apply TORCH_CHECK_ok, bool_decide_eq_true_2.
  erewrite bind_ret by by apply vec_at_ok.
  erewrite bind_ret
    by (apply TORCH_CHECK_ok, bool_decide_eq_true_2; rewrite to_size_t_small; lia).
  erewrite bind_ret by by apply vec_at_ok.
  erewrite bind_ret by by apply checkSameSizeAndType_ok.
  by rewrite <- Hlen, Nat2Z.id.
Qed.

(** X14.  [allgather] in vector mode (USE_VECTOR_ALLGATHERV), on a valid
    input and one output buffer per rank of the input's size and type:
    exactly one allgatherv is issued, with the element count as send
    count and as every receive count; nothing is allocated, waited for
    or copied, and the handle holds the request and keeps the outputs
    followed by the input. *)
Theorem allgather_vector_mode (pg : ProcessGroupCCL) (t : Tensor)
    (os : list Tensor) (dt : ccl_data_type) (w : World) :
  0 < size_ pg < 2 ^ 31 →
  Z.of_nat (length os) = size_ pg →
  host_dense t = true →
  Forall (λ o, like t o = true) os →
  map_find cclDatatypes (scalar_type t) = Some dt →
  allgather true pg [os] [t] w
  = launched (c_allgatherv (to_size_t (numel t))
                (replicate (length os) (to_size_t (numel t))) dt)
      (os ++ [t]) w.
Proof.
  intros Hs Hlen Ht Hos Hdt. unfold allgather.
  erewrite bind_ret; last first.
  { rewrite allgather_prepare_ok by done. reflexivity. }
  cbn beta iota.
  by apply (launch_run _ _ (λ dt, c_allgatherv _ _ dt)).
Qed.

Lemma allgather_vector_mode_witness :
  allgather true pg2 [[out3a; out3b]] [in3] (fresh_world 3)
  = launched (c_allgatherv (to_size_t (numel in3))
                (replicate 2 (to_size_t (numel in3))) dt_int)
      ([out3a; out3b] ++ [in3]) (fresh_world 3).
Proof.
  apply (allgather_vector_mode pg2 in3 [out3a; out3b] dt_int (fresh_world 3));
    try reflexivity; try (cbn; lia). repeat constructor.
Defined.

(** Flat-mode all-gather up to its call of [req->wait()]. *)
Lemma allgather_flat_issue pg t os o0 dt st w :
  0 < size_ pg < 2 ^ 31 →
  Z.of_nat (length os) = size_ pg →
  host_dense t = true →
  Forall (λ o, like t o = true) os →
  head os = Some o0 →
  map_find cclDatatypes (scalar_type t) = Some dt →
  next_behaviour w = Yields st →
  let r := length (requests w) in
  let n := to_size_t (numel t) in
  let flat := mkTensor (Z.of_nat (length os) :: sizes o0) (scalar_type o0)
                       (next_storage w) 0 true (is_sparse o0) (is_cuda o0) in
  allgather false pg [os] [t] w
  = (req_wait r;;
     for_range 0 (length os) (λ i _, o ← vec_at os i; copy_ o (select0 flat i)) tt;;
     mret (mkWork (Some r) []))
      (accepted (c_allgatherv n (replicate (length os) n) dt) st (allocated flat w)).
Proof.
  intros Hs Hlen Ht Hos Hhd Hdt Hnext r n flat. unfold allgather.
  erewrite bind_ret; last first.
  { rewrite allgather_prepare_ok by done.
    erewrite bind_ret; [reflexivity|].
    erewrite bind_ret; [reflexivity|].
    destruct os as [|o os']; [discriminate|]. injection Hhd as ->. reflexivity. }
  cbn beta iota.
  erewrite bind_ret; [reflexivity|].
  unfold CCL_CHECK. rewrite bind_run. unfold map_at. rewrite Hdt.
  unfold mret at 1, M_ret at 1. rewrite issue_run.
  unfold next_behaviour in Hnext |- *. cbn [script]. rewrite Hnext.
  reflexivity.
Qed.

(** X15.  [allgather] in flat mode, on valid buffers such that a buffer
    of the shape of the first output can be copied into every output (as
    when all outputs have one shape), when the substrate accepts the
    call and the request completes: the effects are, in this order, the
    allocation of one flat buffer with one row per rank, the allgatherv,
    a synchronous wait on the request, and for each rank a copy of its
    row of the flat buffer into its output; the handle holds the
    completed request and keeps no buffer. *)
Theorem allgather_flat_copies_back (pg : ProcessGroupCCL) (t : Tensor)
    (os : list Tensor) (o0 : Tensor) (dt : ccl_data_type) (st : ReqState)
    (w : World) :
  0 < size_ pg < 2 ^ 31 →
  Z.of_nat (length os) = size_ pg →
  host_dense t = true →
  Forall (λ o, like t o = true) os →
  head os = Some o0 →
  Forall (λ o, broadcastable (sizes o0) (sizes o) = true) os →
  map_find cclDatatypes (scalar_type t) = Some dt →
  next_behaviour w = Yields st →
  st ≠ Broken →
  let r := length (requests w) in
  let n := to_size_t (numel t) in
  let flat := mkTensor (Z.of_nat (length os) :: sizes o0) (scalar_type o0)
                       (next_storage w) 0 true (is_sparse o0) (is_cuda o0) in
  allgather false pg [os] [t] w
  = (Ret (mkWork (Some r) []),
     mkWorld (requests w ++ [Completed]) (tail (script w))
             (Datatypes.S (next_storage w))
             (trace w ++
              [EvAlloc flat;
               EvIssue (c_allgatherv n (replicate (length os) n) dt) r;
               EvWait r] ++
              imap (λ i o, EvCopy o (select0 flat i)) os)).
Proof.
  intros Hs Hlen Ht Hos Hhd Hfit Hdt Hnext Hst r n flat.
  rewrite (allgather_flat_issue pg t os o0 dt st w) by done.
  fold r n flat.
  set (w2 := accepted _ st (allocated flat w)).
  assert (Hwait : req_wait r w2
    = (Ret tt, log (EvWait r) (set_requests (requests w ++ [Completed]) w2))).
  { unfold req_wait. subst w2. cbn [requests accepted allocated].
    rewrite list_lookup_middle by done.
    rewrite (insert_app_r_alt _ _ r) by (subst r; lia).
    subst r. rewrite Nat.sub_diag.
    destruct st; [done|done|congruence]. }
  erewrite bind_ret by exact Hwait.
  erewrite bind_ret by exact (allgather_copy_loop flat os os [] _ eq_refl Hfit).
  unfold mret, M_ret, add_trace, log, set_requests. subst w2.
  unfold accepted, allocated. cbn [requests script next_storage trace Nat.add].
  f_equal. f_equal. by rewrite <- !app_assoc.
Qed.

Lemma allgather_flat_copies_back_witness :
  allgather false pg2 [[out3a; out3b]] [in3] (fresh_world 3)
  = (Ret (mkWork (Some 0%nat) []),
     mkWorld [Completed] [] 4
       ([EvAlloc (dense [2; 3] kInt 3 0);
         EvIssue (c_allgatherv 3 [3; 3] dt_int) 0;
         EvWait 0] ++
        [EvCopy out3a (dense [3] kInt 3 0); EvCopy out3b (dense [3] kInt 3 3)])).
Proof.
  apply (allgather_flat_copies_back pg2 in3 [out3a; out3b] out3a dt_int
           (InFlight 0) (fresh_world 3));
    try reflexivity; try (cbn; lia); try discriminate; by repeat constructor.
Defined.



(** X16.  In flat mode the synchronous wait of [allgather] is outside
    [CCL_CHECK]: when the request fails, the [ccl::ccl_error] of the
    substrate leaves [allgather] as it is, not as a
    [std::runtime_error]. *)
Theorem allgather_flat_wait_error (pg : ProcessGroupCCL) (t : Tensor)
    (os : list Tensor) (o0 : Tensor) (dt : ccl_data_type) (w : World) :
  0 < size_ pg < 2 ^ 31 →
  Z.of_nat (length os) = size_ pg →
  host_dense t = true →
  Forall (λ o, like t o = true) os →
  head os = Some o0 →
  map_find cclDatatypes (scalar_type t) = Some dt →
  next_behaviour w = Yields Broken →
  (allgather false pg [os] [t] w).1 = Throw CclError.
Proof.
  intros Hs Hlen Ht Hos Hhd Hdt Hnext.
  rewrite (allgather_flat_issue pg t os o0 dt Broken w) by done.
  rewrite bind_run. unfold req_wait. cbn [requests accepted allocated].
  by rewrite list_lookup_middle.
Qed.

Lemma allgather_flat_wait_error_witness :
  (allgather false pg2 [[out3a; out3b]] [in3] (mkWorld [] [Yields Broken] 3 [])).1
  = Throw CclError.
Proof.
  apply (allgather_flat_wait_error pg2 in3 [out3a; out3b] out3a dt_int
           (mkWorld [] [Yields Broken] 3 []));
    try reflexivity; try (cbn; lia). repeat constructor.
Defined.

(** A loop that walks two vectors side by side and runs on each pair a
    step that logs one event. *)
Lemma zip_loop (f : Tensor → Tensor → M unit) (ev : Tensor → Tensor → Event)
    (va vb : list Tensor) :
  ∀ posta postb prea preb w,
  va = prea ++ posta → vb = preb ++ postb →
  length prea = length preb →
  Forall2 (λ a b, ∀ w, f a b w = (Ret tt, log (ev a b) w)) posta postb →
  for_range (length prea) (length posta)
    (λ i _, a ← vec_at va i; b ← vec_at vb i; f a b) tt w
  = (Ret tt, add_trace (zip_with ev posta postb) w).
Proof.
  induction posta as [|a posta IH]; intros postb prea preb w -> -> Hpre Hpost.
  - apply Forall2_nil_inv_l in Hpost as ->. cbn. by rewrite add_trace_nil.
  - apply Forall2_cons_inv_l in Hpost as (b & postb' & Hab & Hpost & ->).
    cbn [for_range length]. rewrite bind_run, bind_run. unfold vec_at at 1.
    rewrite list_lookup_middle by done. unfold mret at 1, M_ret at 1.
    rewrite bind_run. unfold vec_at at 1.
    rewrite list_lookup_middle by done. unfold mret at 1, M_ret at 1.
    rewrite Hab.
    specialize (IH postb' (prea ++ [a]) (preb ++ [b]) (log (ev a b) w)).
    rewrite length_app, Nat.add_1_r in IH.
    rewrite IH; [|by rewrite <- app_assoc..|rewrite !length_app; cbn; lia|done].
    change (log ?e w) with (add_trace [e] w). by rewrite add_trace_app.
Qed.

Lemma expands_to_refl l : expands_to l l = true.
Proof.
  induction l as [|x l IH]; cbn; [done|].
  by rewrite bool_decide_eq_true_2, IH.
Qed.

Lemma broadcastable_refl l : broadcastable l l = true.
Proof. apply expands_to_refl. Qed.

Lemma copy_run dst src w :
  sizes src = sizes dst → copy_ dst src w = (Ret tt, log (EvCopy dst src) w).
Proof. intros H. unfold copy_. by rewrite H, broadcastable_refl. Qed.

(** The slices that [split_with_sizes] cuts for the lengths of [ts]
    have the shapes of the flattened views of [ts]. *)
Lemma split_from_fit flat ts :
  Forall (λ t, to_size_t (numel t) = numel t) ts →
  ∀ start, Forall2 (λ t s, sizes s = sizes (view_flat t)) ts
             (split_from flat start (lengths_of ts)).
Proof.
  induction 1 as [|t ts Ht _ IH]; intros start; cbn; [constructor|].
  constructor; [|apply IH]. cbn. by rewrite Ht.
Qed.

Lemma copy_out_run size_ outputs lens flat w :
  length outputs = Z.to_nat size_ →
  lens = lengths_of outputs →
  Forall (λ t, to_size_t (numel t) = numel t) outputs →
  copy_out size_ outputs (split_with_sizes flat lens) w
  = (Ret tt, add_trace (zip_with (λ o s, EvCopy (view_flat o) s) outputs
                          (split_with_sizes flat lens)) w).
Proof.
  intros Ho -> Hok. unfold copy_out. rewrite <- Ho.
  apply (zip_loop (λ o s, copy_ (view_flat o) s) (λ o s, EvCopy (view_flat o) s)
           outputs (split_with_sizes flat (lengths_of outputs))
           outputs (split_with_sizes flat (lengths_of outputs)) [] [] w
           eq_refl eq_refl eq_refl).
  eapply Forall2_impl; [by apply split_from_fit|].
  intros o s Hs w'. by apply copy_run.
Qed.

Lemma copy_in_run size_ inputs lens flat w :
  length inputs = Z.to_nat size_ →
  lens = lengths_of inputs →
  Forall (λ t, to_size_t (numel t) = numel t) inputs →
  copy_in size_ (split_with_sizes flat lens) inputs w
  = (Ret tt, add_trace (zip_with (λ s t, EvCopy s (view_flat t))
                          (split_with_sizes flat lens) inputs) w).
Proof.
  intros Hi -> Hok. unfold copy_in.
  pose proof (split_from_fit flat inputs Hok 0) as Hfit.
  replace (Z.to_nat size_)
    with (length (split_with_sizes flat (lengths_of inputs)))
    by (rewrite <- Hi; symmetry; by eapply Forall2_length).
  apply (zip_loop (λ s t, copy_ s (view_flat t)) (λ s t, EvCopy s (view_flat t))
           (split_with_sizes flat (lengths_of inputs)) inputs
           (split_with_sizes flat (lengths_of inputs)) inputs [] [] w
           eq_refl eq_refl eq_refl).
  apply Forall2_flip. eapply Forall2_impl; [exact Hfit|].
  intros t s Hs w'. by apply copy_run.
Qed.

Lemma like_counts t ts :
  tensor_ok t → Forall (λ o, like t o = true) ts →
  Forall (λ o, to_size_t (numel o) = numel o) ts.
Proof.
  intros Hok H. eapply Forall_impl; [exact H|]. intros o Ho.
  apply andb_true_iff in Ho as [Ho _]. apply andb_true_iff in Ho as [Ho _].
  apply bool_decide_eq_true in Ho. rewrite Ho. by apply to_size_t_numel.
Qed.

Lemma tensor_ok_counts ts :
  Forall tensor_ok ts → Forall (λ t, to_size_t (numel t) = numel t) ts.
Proof.
  intros H. eapply Forall_impl; [exact H|]. intros t. apply to_size_t_numel.
Qed.

Lemma split_from_length flat counts : ∀ start,
  length (split_from flat start counts) = length counts.
Proof. induction counts as [|c cs IH]; intros start; cbn; [done|]. by rewrite IH. Qed.

Lemma vec_set_ok (v : list Z) i x w :
  0 ≤ i < Z.of_nat (length v) →
  vec_set v i x w = (Ret (<[Z.to_nat i := x]> v), w).
Proof. intros H. unfold vec_set. by rewrite bool_decide_eq_true_2. Qed.

Lemma vec_atZ_ok (v : list Z) i x w :
  0 ≤ i → v !! Z.to_nat i = Some x → vec_atZ v i w = (Ret x, w).
Proof.
  intros H Hx. unfold vec_atZ. rewrite bool_decide_eq_true_2 by done.
  by apply vec_at_ok.
Qed.

(** X17.  [gather] on a rank that is not the root, with a root inside
    the group, no output list and one valid input: an empty flat output
    is allocated and one alltoallv is issued whose send table is zero
    except for the element count at the root's slot and whose receive
    table is zero; nothing is waited for or copied, and the handle keeps
    the input. *)
Theorem gather_non_root (pg : ProcessGroupCCL) (t : Tensor) (rootRank : Z)
    (dt : ccl_data_type) (w : World) :
  host_dense t = true →
  rank_ pg ≠ rootRank →
  0 ≤ rootRank < size_ pg →
  map_find cclDatatypes (scalar_type t) = Some dt →
  let zeros := replicate (Z.to_nat (size_ pg)) 0 in
  let flatOutput := mkTensor [0] (scalar_type t) (next_storage w) 0 true
                             (is_sparse t) (is_cuda t) in
  gather pg [] [t] rootRank w
  = launched (c_alltoallv (<[Z.to_nat rootRank := to_size_t (numel t)]> zeros)
                          zeros dt)
      [t] (allocated flatOutput w).
Proof.
  intros Ht Hrank Hroot Hdt zeros flatOutput. unfold gather.
  erewrite bind_ret; last first.
  { unfold gather_prepare.
    erewrite bind_ret by by apply checkSingleTensor_ok.
    erewrite bind_ret by by apply vec_at_ok.
    rewrite (bool_decide_eq_true_2 (rank_ pg ≠ rootRank)) by done.
    erewrite bind_ret by by apply TORCH_CHECK_ok.
    erewrite bind_ret
      by (apply vec_set_ok; rewrite length_replicate, Z2Nat.id; lia).
    rewrite (bool_decide_eq_false_2 (rank_ pg = rootRank)) by done.
    erewrite bind_ret by reflexivity. reflexivity. }
  cbn beta iota. rewrite (bool_decide_eq_false_2 (rank_ pg = rootRank)) by done.
  by apply (launch_run _ _ (λ dt, c_alltoallv _ _ dt)).
Qed.

Lemma gather_non_root_witness :
  gather (mkPG 1 2) [] [in3] 0 (fresh_world 1)
  = launched (c_alltoallv (<[Z.to_nat 0 := to_size_t (numel in3)]> (replicate 2 0))
                          (replicate 2 0) dt_int)
      [in3] (allocated (dense [0] kInt 1 0) (fresh_world 1)).
Proof.
  apply (gather_non_root (mkPG 1 2) in3 0 dt_int (fresh_world 1));
    try reflexivity; cbn; lia.
Defined.

Lemma like_inv t o :
  like t o = true →
  numel o = numel t ∧ scalar_type o = scalar_type t ∧ host_dense o = true.
Proof.
  unfold like. rewrite !andb_true_iff, !bool_decide_eq_true. tauto.
Qed.

Lemma lengths_like t os :
  Forall (λ o, like t o = true) os →
  (λ o, to_size_t (numel o)) <$> os = replicate (length os) (to_size_t (numel t)).
Proof.
  induction 1 as [|o os Ho _ IH]; [done|]. cbn. rewrite IH.
  apply like_inv in Ho as (-> & _ & _). done.
Qed.

Lemma numels_like t os :
  Forall (λ o, like t o = true) os →
  total (numel <$> os) = Z.of_nat (length os) * numel t.
Proof.
  induction 1 as [|o os Ho _ IH]; [unfold total; cbn; lia|].
  apply like_inv in Ho as (Hn & _ & _). unfold total in *. cbn [fmap list_fmap foldr length].
  change (foldr Z.add 0 (list_fmap _ _ numel os)) with (foldr Z.add 0 (numel <$> os)).
  rewrite IH, Hn. lia.
Qed.

Lemma anchor_elem os a : anchor os = Some a → a ∈ os.
Proof.
  unfold anchor. pose proof (first_nonempty_split os) as Hs.
  destruct (first_nonempty os) as [a'|].
  - intros [= ->]. destruct Hs as (zs & rest & -> & _). 
    apply elem_of_app. right. by left.
  - destruct os; [discriminate|]. intros [= ->]. by left.
Qed.

(** The part of [gather] before the lock, on the root. *)
Lemma gather_prepare_root pg t os a w :
  0 ≤ rank_ pg < size_ pg →
  size_ pg < 2 ^ 31 →
  Z.of_nat (length os) = size_ pg →
  host_dense t = true →
  Forall (λ o, like t o = true) os →
  anchor os = Some a →
  let n := to_size_t (numel t) in
  let sendCounts := <[Z.to_nat (rank_ pg) := n]> (replicate (length os) 0) in
  let recvCounts := replicate (length os) n in
  let flat := mkTensor [Z.of_nat (length os) * numel t] (scalar_type a)
                       (next_storage w) 0 true (is_sparse a) (is_cuda a) in
  gather_prepare pg [os] [t] (rank_ pg) w
  = if all_in_place a 0 os
    then (Ret (t, sendCounts, recvCounts, true, a), w)
    else (Ret (t, sendCounts, recvCounts, false, flat), allocated flat w).
Proof.
  intros Hrank Hsize Hlen Ht Hos Ha n sendCounts recvCounts flat.
  assert (Hnat : Z.to_nat (size_ pg) = length os) by lia.
  unfold gather_prepare.
  erewrite bind_ret by by apply checkSingleTensor_ok.
  erewrite bind_ret by by apply vec_at_ok.
  rewrite (bool_decide_eq_false_2 (rank_ pg ≠ rank_ pg)) by (intros H; by apply H).
  erewrite bind_ret; last first.
  { erewrite bind_ret by by apply TORCH_CHECK_ok.
    erewrite bind_ret by by apply vec_at_ok.
    erewrite bind_ret
      by (apply TORCH_CHECK_ok, bool_decide_eq_true_2; rewrite to_size_t_small; lia).
    by apply checkSameSizeAndType_ok. }
  rewrite Hnat.
  erewrite bind_ret by (apply vec_set_ok; rewrite length_replicate; lia).
  rewrite (bool_decide_eq_true_2 (rank_ pg = rank_ pg)) by done.
  erewrite bind_ret by by apply vec_at_ok.
  destruct os as [|o0 os']; [discriminate|].
  set (os := o0 :: os') in *.
  rewrite bind_run, (reconciler_run o0 os' _ a) by (by rewrite ?length_replicate).
  fold os. rewrite (lengths_like t), (numels_like t) by done. fold n recvCounts flat.
  assert (Hfin : ∀ (b : bool) (f : Tensor) (w' : World),
    (s ← vec_atZ sendCounts (rank_ pg);
     c ← vec_atZ recvCounts (rank_ pg);
     TORCH_CHECK (bool_decide (s = c)) "Gather: Send and recv count doesn't match";;
     mret (t, sendCounts, recvCounts, b, f)) w'
    = (Ret (t, sendCounts, recvCounts, b, f), w')).
  { intros b f w'.
    erewrite bind_ret; last first.
    { apply vec_atZ_ok; [lia|]. subst sendCounts.
      apply list_lookup_insert_eq. rewrite length_replicate. lia. }
    erewrite bind_ret; last first.
    { apply vec_atZ_ok; [lia|]. apply lookup_replicate_2. lia. }
    by erewrite bind_ret by by apply TORCH_CHECK_ok, bool_decide_eq_true_2. }
  destruct (all_in_place a 0 os).
  - apply Hfin.
  - rewrite bind_run. unfold at_empty, mret at 1, M_ret at 1. apply Hfin.
Qed.

Lemma anchor_type t os a :
  Forall (λ o, like t o = true) os → anchor os = Some a →
  scalar_type a = scalar_type t.
Proof.
  intros Hos Ha. apply anchor_elem in Ha.
  rewrite Forall_forall in Hos. by apply Hos, like_inv in Ha as (_ & ? & _).
Qed.

(** X18.  [gather] on the root with one output per rank of the input's
    size and type, all in place behind the anchor: one alltoallv is
    issued, with a send table that is zero except for the element count
    at the root's own slot and a receive table that holds the element
    count everywhere; nothing is allocated, waited for or copied, and
    the handle keeps the anchor and the input. *)
Theorem gather_root_zero_copy (pg : ProcessGroupCCL) (t : Tensor)
    (os : list Tensor) (a : Tensor) (dt : ccl_data_type) (w : World) :
  0 ≤ rank_ pg < size_ pg →
  size_ pg < 2 ^ 31 →
  Z.of_nat (length os) = size_ pg →
  host_dense t = true →
  Forall (λ o, like t o = true) os →
  anchor os = Some a →
  (∀ i o, os !! i = Some o → numel o ≠ 0 →
     storage o = storage a ∧
     storage_offset o = storage_offset a + total (numel <$> take i os)) →
  map_find cclDatatypes (scalar_type t) = Some dt →
  let n := to_size_t (numel t) in
  gather pg [os] [t] (rank_ pg) w
  = launched (c_alltoallv (<[Z.to_nat (rank_ pg) := n]> (replicate (length os) 0))
                          (replicate (length os) n) dt)
      [a; t] w.
Proof.
  intros Hrank Hsize Hlen Ht Hos Ha Hplace Hdt n. unfold gather.
  assert (Hflat : all_in_place a 0 os = true).
  { apply all_in_place_iff. intros i o Hi Hne.
    destruct (Hplace i o Hi Hne) as [Hs Ho]. split; [done|]. by rewrite Ho, Z.add_0_l. }
  erewrite bind_ret; last first.
  { rewrite (gather_prepare_root pg t os a) by done. by rewrite Hflat. }
  cbn beta iota. rewrite (bool_decide_eq_true_2 (rank_ pg = rank_ pg)) by done.
  cbn [negb]. rewrite <- (anchor_type t os a) in Hdt by done.
  by apply (launch_run _ _ (λ dt, c_alltoallv _ _ dt)).
Qed.

Lemma gather_root_zero_copy_witness :
  gather (mkPG 1 2) [[dense [3] kInt 1 0; dense [3] kInt 1 3]] [in3] 1 (fresh_world 2)
  = launched (c_alltoallv (<[Z.to_nat 1 := to_size_t 3]> (replicate 2 0))
                          (replicate 2 (to_size_t 3)) dt_int)
      [dense [3] kInt 1 0; in3] (fresh_world 2).
Proof.
  apply (gather_root_zero_copy (mkPG 1 2) in3
           [dense [3] kInt 1 0; dense [3] kInt 1 3] (dense [3] kInt 1 0) dt_int
           (fresh_world 2));
    try reflexivity; try (cbn; lia).
  - repeat constructor.
  - intros [|[|i]] o [= <-] _; split; reflexivity.
Defined.

(** X19.  [gather] on the root with a buffer that ATen can build as
    input and valid outputs of which one is not in place behind the
    anchor, when the substrate accepts the call and the
    request completes: the effects are, in this order, the allocation of
    one flat buffer for all ranks, the alltoallv, a synchronous wait,
    and for each rank a copy of its slice of the flat buffer into the
    flattened view of its output; the handle holds the completed request
    and keeps no buffer. *)
Theorem gather_root_copies_back (pg : ProcessGroupCCL) (t : Tensor)
    (os : list Tensor) (a : Tensor) (dt : ccl_data_type) (st : ReqState)
    (w : World) (i : nat) (o : Tensor) :
  0 ≤ rank_ pg < size_ pg →
  size_ pg < 2 ^ 31 →
  Z.of_nat (length os) = size_ pg →
  host_dense t = true →
  tensor_ok t →
  Forall (λ o, like t o = true) os →
  anchor os = Some a →
  os !! i = Some o → numel o ≠ 0 →
  ¬ (storage o = storage a ∧
     storage_offset o = storage_offset a + total (numel <$> take i os)) →
  map_find cclDatatypes (scalar_type t) = Some dt →
  next_behaviour w = Yields st →
  st ≠ Broken →
  let r := length (requests w) in
  let n := to_size_t (numel t) in
  let recvCounts := replicate (length os) n in
  let flat := mkTensor [Z.of_nat (length os) * numel t] (scalar_type a)
                       (next_storage w) 0 true (is_sparse a) (is_cuda a) in
  gather pg [os] [t] (rank_ pg) w
  = (Ret (mkWork (Some r) []),
     mkWorld (requests w ++ [Completed]) (tail (script w))
             (Datatypes.S (next_storage w))
             (trace w ++
              [EvAlloc flat;
               EvIssue (c_alltoallv
                          (<[Z.to_nat (rank_ pg) := n]> (replicate (length os) 0))
                          recvCounts dt) r;
               EvWait r] ++
              zip_with (λ o s, EvCopy (view_flat o) s) os
                       (split_with_sizes flat recvCounts))).
Proof.
  intros Hrank Hsize Hlen Ht Hok Hos Ha Hi Hne Hout Hdt Hnext Hst r n recvCounts flat.
  unfold gather.
  assert (Hflat : all_in_place a 0 os = false).
  { apply not_true_is_false. intros Hp. apply Hout.
    rewrite all_in_place_iff in Hp. destruct (Hp i o Hi Hne) as [Hs Ho].
    split; [done|]. by rewrite Ho, Z.add_0_l. }
  erewrite bind_ret; last first.
  { rewrite (gather_prepare_root pg t os a) by done. by rewrite Hflat. }
  cbn beta iota. rewrite (bool_decide_eq_true_2 (rank_ pg = rank_ pg)) by done.
  cbn [negb]. fold n recvCounts flat.
  rewrite <- (anchor_type t os a) in Hdt by done.
  erewrite bind_ret; last first.
  { unfold CCL_CHECK. rewrite bind_run. unfold map_at.
    change (scalar_type flat) with (scalar_type a). rewrite Hdt. unfold mret at 1, M_ret at 1. rewrite issue_run.
    unfold next_behaviour in Hnext |- *. cbn [script allocated]. rewrite Hnext.
    reflexivity. }
  set (c := c_alltoallv _ recvCounts dt).
  set (w2 := accepted c st (allocated flat w)).
  assert (Hwait : req_wait (length (requests (allocated flat w))) w2
    = (Ret tt, log (EvWait r) (set_requests (requests w ++ [Completed]) w2))).
  { unfold req_wait. subst w2. cbn [requests accepted allocated].
    rewrite list_lookup_middle by done.
    rewrite (insert_app_r_alt _ _ (length (requests w))) by lia.
    rewrite Nat.sub_diag. destruct st; [done|done|congruence]. }
  erewrite bind_ret; last first.
  { erewrite bind_ret by exact Hwait.
    erewrite bind_ret by by apply vec_at_ok.
    erewrite bind_ret; [reflexivity|].
    apply copy_out_run; [lia| |by apply (like_counts t)].
    subst recvCounts n. unfold lengths_of. by rewrite (lengths_like t). }
  unfold mret, M_ret, add_trace, log, set_requests. subst w2.
  unfold accepted, allocated. cbn [requests script next_storage trace].
  f_equal. f_equal. by rewrite <- !app_assoc.
Qed.

Lemma gather_root_copies_back_witness :
  gather pg2 [[out3a; out3b]] [in3] 0 (fresh_world 3)
  = (Ret (mkWork (Some 0%nat) []),
     mkWorld [Completed] [] 4
       ([EvAlloc (dense [6] kInt 3 0);
         EvIssue (c_alltoallv [3; 0] [3; 3] dt_int) 0;
         EvWait 0] ++
        [EvCopy out3a (dense [3] kInt 3 0); EvCopy out3b (dense [3] kInt 3 3)])).
Proof.
  apply (gather_root_copies_back pg2 in3 [out3a; out3b] out3a dt_int (InFlight 0)
           (fresh_world 3) 1%nat out3b);
    try reflexivity; try (cbn; lia); try discriminate;
    try (by repeat constructor); intros [H _]; discriminate H.
Defined.

Lemma reconciler_reconciled ts l a w :
  length l = length ts →
  anchor ts = Some a →
  computeLengthsAndCheckAndGetFlat ts l w
  = (Ret ((reconciled ts a w).1.1, lengths_of ts, (reconciled ts a w).1.2),
     (reconciled ts a w).2).
Proof.
  intros Hl Ha. destruct ts as [|t0 ts]; [discriminate|].
  rewrite (reconciler_run _ _ _ a) by done. unfold reconciled, lengths_of.
  by destruct (all_in_place a 0 (t0 :: ts)).
Qed.

Lemma reconciled_script ts a w :
  script (reconciled ts a w).2 = script w ∧
  requests (reconciled ts a w).2 = requests w.
Proof. unfold reconciled. by destruct (all_in_place a 0 ts). Qed.

(** The staging of the inputs (lines 615-625 and 752-762). *)
Lemma stage_run size_ ts isFlat flat w :
  length ts = Z.to_nat size_ →
  Forall (λ t, to_size_t (numel t) = numel t) ts →
  (if negb isFlat
   then copy_in size_ (split_with_sizes flat (lengths_of ts)) ts
   else mret tt) w
  = (Ret tt, staged ts isFlat flat w).
Proof.
  intros Hlen Hok. unfold staged. destruct isFlat; [done|].
  cbn [negb]. by apply copy_in_run.
Qed.

Lemma staged_script ts isFlat flat w :
  script (staged ts isFlat flat w) = script w ∧
  requests (staged ts isFlat flat w) = requests w.
Proof. unfold staged. by destruct isFlat. Qed.

Lemma reconciled_type ts a w :
  scalar_type (reconciled ts a w).1.2 = scalar_type a.
Proof. unfold reconciled. by destruct (all_in_place a 0 ts). Qed.

(** X20.  [scatter] on a rank that is not the root, with a root inside
    the group, no input list and one valid output: an empty flat input
    is allocated and one alltoallv is issued whose send table is zero
    and whose receive table is zero except for the element count at the
    root's slot; the handle keeps the output only. *)
Theorem scatter_non_root (pg : ProcessGroupCCL) (t : Tensor) (rootRank : Z)
    (dt : ccl_data_type) (w : World) :
  host_dense t = true →
  rank_ pg ≠ rootRank →
  0 ≤ rootRank < size_ pg →
  map_find cclDatatypes (scalar_type t) = Some dt →
  let zeros := replicate (Z.to_nat (size_ pg)) 0 in
  let flatInput := mkTensor [0] (scalar_type t) (next_storage w) 0 true
                            (is_sparse t) (is_cuda t) in
  scatter pg [t] [] rootRank w
  = launched (c_alltoallv zeros
                (<[Z.to_nat rootRank := to_size_t (numel t)]> zeros) dt)
      [t] (allocated flatInput w).
Proof.
  intros Ht Hrank Hroot Hdt zeros flatInput. unfold scatter.
  erewrite bind_ret; last first.
  { unfold scatter_prepare.
    erewrite bind_ret by by apply checkSingleTensor_ok.
    erewrite bind_ret by by apply vec_at_ok.
    rewrite (bool_decide_eq_true_2 (rank_ pg ≠ rootRank)) by done.
    erewrite bind_ret by by apply TORCH_CHECK_ok.
    erewrite bind_ret
      by (apply vec_set_ok; rewrite length_replicate, Z2Nat.id; lia).
    rewrite (bool_decide_eq_false_2 (rank_ pg = rootRank)) by done.
    erewrite bind_ret by reflexivity. reflexivity. }
  cbn beta iota. rewrite (bool_decide_eq_false_2 (rank_ pg = rootRank)) by done.
  by apply (launch_run _ _ (λ dt, c_alltoallv _ _ dt)).
Qed.

Lemma scatter_non_root_witness :
  scatter (mkPG 1 2) [in3] [] 0 (fresh_world 1)
  = launched (c_alltoallv (replicate 2 0)
                (<[Z.to_nat 0 := to_size_t (numel in3)]> (replicate 2 0)) dt_int)
      [in3] (allocated (dense [0] kInt 1 0) (fresh_world 1)).
Proof.
  apply (scatter_non_root (mkPG 1 2) in3 0 dt_int (fresh_world 1));
    try reflexivity; cbn; lia.
Defined.

(** X21.  [scatter] on the root with a buffer that ATen can build as
    output and one input per rank of the output's size and type: the inputs are reconciled into one flat buffer (the
    anchor when they are in place; otherwise a fresh buffer into whose
    slices every input is copied before the call), then one alltoallv is
    issued with the element count in every send slot and in the root's
    own receive slot.  Nothing is waited for; the handle keeps the
    output and the flat input. *)
Theorem scatter_root (pg : ProcessGroupCCL) (t : Tensor) (ins : list Tensor)
    (a : Tensor) (dt : ccl_data_type) (w : World) :
  0 ≤ rank_ pg < size_ pg →
  size_ pg < 2 ^ 31 →
  Z.of_nat (length ins) = size_ pg →
  host_dense t = true →
  tensor_ok t →
  Forall (λ i, like t i = true) ins →
  anchor ins = Some a →
  map_find cclDatatypes (scalar_type t) = Some dt →
  let n := to_size_t (numel t) in
  let r := reconciled ins a w in
  scatter pg [t] [ins] (rank_ pg) w
  = launched (c_alltoallv (replicate (length ins) n)
                (<[Z.to_nat (rank_ pg) := n]> (replicate (length ins) 0)) dt)
      [t; r.1.2] (staged ins r.1.1 r.1.2 r.2).
Proof.
  intros Hrank Hsize Hlen Ht Hok Hins Ha Hdt n r.
  assert (Hnat : Z.to_nat (size_ pg) = length ins) by lia.
  unfold scatter.
  erewrite bind_ret; last first.
  { unfold scatter_prepare.
    erewrite bind_ret by by apply checkSingleTensor_ok.
    erewrite bind_ret by by apply vec_at_ok.
    rewrite (bool_decide_eq_false_2 (rank_ pg ≠ rank_ pg)) by (intros H; by apply H).
    erewrite bind_ret; last first.
    { erewrite bind_ret by by apply TORCH_CHECK_ok.
      erewrite bind_ret by by apply vec_at_ok.
      erewrite bind_ret
        by (apply TORCH_CHECK_ok, bool_decide_eq_true_2; rewrite to_size_t_small; lia).
      by apply checkSameSizeAndType_ok. }
    rewrite Hnat.
    erewrite bind_ret by (apply vec_set_ok; rewrite length_replicate; lia).
    rewrite (bool_decide_eq_true_2 (rank_ pg = rank_ pg)) by done.
    erewrite bind_ret by by apply vec_at_ok.
    erewrite bind_ret
      by (apply (reconciler_reconciled ins _ a); [by rewrite length_replicate|done]).
    cbn beta iota.
    erewrite bind_ret by (apply stage_run; [lia|by apply (like_counts t)]).
    erewrite bind_ret; last first.
    { apply vec_atZ_ok; [lia|].
      apply list_lookup_insert_eq. rewrite length_replicate. lia. }
    erewrite bind_ret; last first.
    { apply vec_atZ_ok; [lia|]. unfold lengths_of. rewrite (lengths_like t) by done.
      apply lookup_replicate_2. lia. }
    erewrite bind_ret by by apply TORCH_CHECK_ok, bool_decide_eq_true_2.
    reflexivity. }
  cbn beta iota. rewrite (bool_decide_eq_true_2 (rank_ pg = rank_ pg)) by done.
  unfold lengths_of at 1. rewrite (lengths_like t) by done. fold n r.
  apply (launch_run _ _ (λ dt, c_alltoallv _ _ dt)); [|done].
  subst r. by rewrite reconciled_type, (anchor_type t ins a).
Qed.

Lemma scatter_root_witness :
  scatter pg2 [in3] [[out3a; out3b]] 0 (fresh_world 3)
  = launched (c_alltoallv (replicate 2 (to_size_t 3))
                (<[Z.to_nat 0 := to_size_t 3]> (replicate 2 0)) dt_int)
      [in3; dense [6] kInt 3 0]
      (add_trace [EvCopy (dense [3] kInt 3 0) out3a;
                  EvCopy (dense [3] kInt 3 3) out3b]
         (allocated (dense [6] kInt 3 0) (fresh_world 3))).
Proof.
  apply (scatter_root pg2 in3 [out3a; out3b] out3a dt_int (fresh_world 3));
    try reflexivity; try (cbn; lia); by repeat constructor.
Defined.

Lemma wait_run c st w :
  st ≠ Broken →
  req_wait (length (requests w)) (accepted c st w)
  = (Ret tt, log (EvWait (length (requests w)))
               (set_requests (requests w ++ [Completed]) (accepted c st w))).
Proof.
  intros Hst. unfold req_wait. cbn [requests accepted].
  rewrite list_lookup_middle by done.
  rewrite (insert_app_r_alt _ _ (length (requests w))) by lia.
  rewrite Nat.sub_diag. destruct st; [done|done|congruence].
Qed.

Lemma alltoall_prepare_ok pg outs ins o0 i0 ai ao w :
  0 < size_ pg < 2 ^ 31 →
  Z.of_nat (length ins) = size_ pg →
  Z.of_nat (length outs) = size_ pg →
  head outs = Some o0 →
  head ins = Some i0 →
  Forall (λ i, same_type o0 i = true) ins →
  Forall (λ o, same_type i0 o = true) outs →
  Forall tensor_ok ins →
  anchor ins = Some ai →
  anchor outs = Some ao →
  let ri := reconciled ins ai w in
  let ro := reconciled outs ao ri.2 in
  alltoall_prepare pg outs ins w
  = (Ret (lengths_of ins, lengths_of outs, ri.1.2, ro.1.1, ro.1.2),
     staged ins ri.1.1 ri.1.2 ro.2).
Proof.
  intros Hs Hli Hlo Ho0 Hi0 Hins Houts Hiok Hai Hao ri ro.
  unfold alltoall_prepare.
  erewrite bind_ret
    by (apply TORCH_CHECK_ok, bool_decide_eq_true_2; rewrite to_size_t_small; lia).
  erewrite bind_ret
    by (apply TORCH_CHECK_ok, bool_decide_eq_true_2; rewrite to_size_t_small; lia).
  erewrite bind_ret by (apply vec_at_ok; by rewrite <- head_lookup).
  erewrite bind_ret by by apply checkSameType_ok.
  erewrite bind_ret by (apply vec_at_ok; by rewrite <- head_lookup).
  erewrite bind_ret by by apply checkSameType_ok.
  erewrite bind_ret
    by (apply (reconciler_reconciled ins _ ai); [rewrite length_replicate; lia|done]).
  cbn beta iota.
  erewrite bind_ret
    by (apply (reconciler_reconciled outs _ ao); [rewrite length_replicate; lia|done]).
  cbn beta iota. fold ri ro.
  erewrite bind_ret by (apply stage_run; [lia|by apply tensor_ok_counts]).
  reflexivity.
Qed.

(** X22.  List-form [alltoall] with one input and one output per rank,
    all contiguous dense host buffers of one element type, the inputs
    being buffers that ATen can build, and the outputs in place behind
    their anchor: the inputs are staged (used in
    place, or copied into a fresh flat buffer), then one alltoallv is
    issued whose send and receive tables are the element counts of the
    inputs and of the outputs; nothing is waited for or copied back, and
    the handle keeps the outputs' anchor and the flat input. *)
Theorem alltoall_zero_copy_out (pg : ProcessGroupCCL) (outs ins : list Tensor)
    (o0 i0 ai ao : Tensor) (dt : ccl_data_type) (w : World) :
  0 < size_ pg < 2 ^ 31 →
  Z.of_nat (length ins) = size_ pg →
  Z.of_nat (length outs) = size_ pg →
  head outs = Some o0 →
  head ins = Some i0 →
  Forall (λ i, same_type o0 i = true) ins →
  Forall (λ o, same_type i0 o = true) outs →
  Forall tensor_ok ins →
  anchor ins = Some ai →
  anchor outs = Some ao →
  all_in_place ao 0 outs = true →
  map_find cclDatatypes (scalar_type ao) = Some dt →
  let ri := reconciled ins ai w in
  alltoall pg outs ins w
  = launched (c_alltoallv (lengths_of ins) (lengths_of outs) dt)
      [ao; ri.1.2] (staged ins ri.1.1 ri.1.2 ri.2).
Proof.
  intros Hs Hli Hlo Ho0 Hi0 Hins Houts Hiok Hai Hao Hflat Hdt ri.
  unfold alltoall.
  erewrite bind_ret by by apply (alltoall_prepare_ok pg outs ins o0 i0 ai ao).
  cbn beta iota. fold ri.
  assert (Hro : reconciled outs ao ri.2 = (true, ao, ri.2))
    by (unfold reconciled; by rewrite Hflat).
  rewrite Hro. cbn [fst snd negb].
  by apply (launch_run _ _ (λ dt, c_alltoallv _ _ dt)).
Qed.

Lemma alltoall_zero_copy_out_witness :
  alltoall pg2 [out3a; dense [3] kInt 1 3] [in3; out3b] (fresh_world 3)
  = launched (c_alltoallv [3; 3] [3; 3] dt_int)
      [out3a; dense [6] kInt 3 0]
      (add_trace [EvCopy (dense [3] kInt 3 0) in3;
                  EvCopy (dense [3] kInt 3 3) out3b]
         (allocated (dense [6] kInt 3 0) (fresh_world 3))).
Proof.
  apply (alltoall_zero_copy_out pg2 [out3a; dense [3] kInt 1 3] [in3; out3b]
           out3a in3 in3 out3a dt_int (fresh_world 3));
    try reflexivity; try (cbn; lia); by repeat constructor.
Defined.

(** X23.  List-form [alltoall] with valid buffers that ATen can build
    and whose outputs are not in place, when the substrate accepts the call and the request
    completes: after the inputs are reconciled, a flat output is
    allocated and the inputs are staged, the call issues one alltoallv,
    waits synchronously, and copies each slice of the flat output into
    the flattened view of its output; the handle holds the completed
    request and keeps no buffer. *)
Theorem alltoall_copies_back (pg : ProcessGroupCCL) (outs ins : list Tensor)
    (o0 i0 ai ao : Tensor) (dt : ccl_data_type) (st : ReqState) (w : World) :
  0 < size_ pg < 2 ^ 31 →
  Z.of_nat (length ins) = size_ pg →
  Z.of_nat (length outs) = size_ pg →
  head outs = Some o0 →
  head ins = Some i0 →
  Forall (λ i, same_type o0 i = true) ins →
  Forall (λ o, same_type i0 o = true) outs →
  Forall tensor_ok ins →
  Forall tensor_ok outs →
  anchor ins = Some ai →
  anchor outs = Some ao →
  all_in_place ao 0 outs = false →
  map_find cclDatatypes (scalar_type ao) = Some dt →
  next_behaviour w = Yields st →
  st ≠ Broken →
  let r := length (requests w) in
  let ri := reconciled ins ai w in
  let flatOutput := mkTensor [total (numel <$> outs)] (scalar_type ao)
                      (next_storage ri.2) 0 true (is_sparse ao) (is_cuda ao) in
  let w3 := staged ins ri.1.1 ri.1.2 (allocated flatOutput ri.2) in
  alltoall pg outs ins w
  = (Ret (mkWork (Some r) []),
     mkWorld (requests w ++ [Completed]) (tail (script w)) (next_storage w3)
       (trace w3 ++
        [EvIssue (c_alltoallv (lengths_of ins) (lengths_of outs) dt) r;
         EvWait r] ++
        zip_with (λ o s, EvCopy (view_flat o) s) outs
          (split_with_sizes flatOutput (lengths_of outs)))).
Proof.
  intros Hs Hli Hlo Ho0 Hi0 Hins Houts Hiok Hook Hai Hao Hflat Hdt Hnext Hst
    r ri flatOutput w3.
  unfold alltoall.
  erewrite bind_ret by by apply (alltoall_prepare_ok pg outs ins o0 i0 ai ao).
  cbn beta iota. fold ri.
  assert (Hro : reconciled outs ao ri.2
                = (false, flatOutput, allocated flatOutput ri.2))
    by (unfold reconciled; by rewrite Hflat).
  rewrite Hro. cbn [fst snd negb]. fold w3.
  assert (Hw3 : script w3 = script w ∧ requests w3 = requests w).
  { subst w3. destruct (staged_script ins ri.1.1 ri.1.2 (allocated flatOutput ri.2))
      as [-> ->]. cbn [allocated script requests]. apply reconciled_script. }
  destruct Hw3 as [Hsc Hrq].
  erewrite bind_ret; last first.
  { unfold CCL_CHECK. rewrite bind_run. unfold map_at.
    change (scalar_type flatOutput) with (scalar_type ao). rewrite Hdt.
    unfold mret at 1, M_ret at 1. rewrite issue_run.
    unfold next_behaviour in Hnext |- *. rewrite Hsc, Hnext. reflexivity. }
  erewrite bind_ret; last first.
  { erewrite bind_ret by by apply wait_run.
    erewrite bind_ret; [reflexivity|].
    apply copy_out_run; [lia|done|by apply tensor_ok_counts]. }
  unfold mret, M_ret, add_trace, log, set_requests, accepted.
  cbn [requests script next_storage trace]. rewrite Hsc, Hrq.
  f_equal. f_equal. fold r. by rewrite <- !app_assoc.
Qed.

Lemma alltoall_copies_back_witness :
  alltoall pg2 [out3a; out3b] [in3; dense [3] kInt 0 3] (fresh_world 3)
  = (Ret (mkWork (Some 0%nat) []),
     mkWorld [Completed] [] 4
       ([EvAlloc (dense [6] kInt 3 0)] ++
        [EvIssue (c_alltoallv [3; 3] [3; 3] dt_int) 0; EvWait 0] ++
        [EvCopy out3a (dense [3] kInt 3 0); EvCopy out3b (dense [3] kInt 3 3)])).
Proof.
  apply (alltoall_copies_back pg2 [out3a; out3b] [in3; dense [3] kInt 0 3]
           out3a in3 in3 out3a dt_int (InFlight 0) (fresh_world 3));
    try reflexivity; try (cbn; lia); try discriminate; by repeat constructor.
Defined.

(** ** Process-wide initialisation *)

Lemma cclInitOnce_cases g :
  (cclInitOnceFlag g = true ∧ cclInitOnce g = (Ret tt, g)) ∨
  (cclInitOnceFlag g = false ∧
   ∃ msg g', cclInitOnce g = (Throw (RuntimeError msg), g') ∧
     cclInitOnceFlag g' = false ∧ exit_handlers g' = exit_handlers g ∧
     substrate_comm g' = substrate_comm g) ∨
  (cclInitOnceFlag g = false ∧
   ∃ g', cclInitOnce g = (Ret tt, g') ∧
     cclInitOnceFlag g' = true ∧ globalComm g' = Some (substrate_comm g) ∧
     exit_handlers g' = Datatypes.S (exit_handlers g) ∧
     created g' = Datatypes.S (created g) ∧
     substrate_comm g' = substrate_comm g).
Proof.
  unfold cclInitOnce. destruct (cclInitOnceFlag g) eqn:Hflag; [by left|right].
  unfold cclInitOnce_body, G_bind, CCL_CHECK_init, create_communicator,
    set_globalComm, atexit_cclFini.
  destruct (create_script g) as [|[|] cs];
    destruct (atexit_script g) as [|[|] es]; cbn;
    try (right; split; [done|]; by eexists);
    left; split; try done; by do 2 eexists.
Qed.

Lemma ctor_cases rank size g :
  match ProcessGroupCCL_ctor rank size g with
  | (Ret pg, g') =>
      ∃ c, globalComm g = Some c ∧
        pg = mkPG (to_int (comm_rank c)) (to_int (comm_size c)) ∧
        cclInitOnceFlag g' = cclInitOnceFlag g ∧ globalComm g' = globalComm g ∧
        exit_handlers g' = exit_handlers g ∧
        created g' = Datatypes.S (created g)
  | (Throw e, g') =>
      is_runtime_error e ∧
      cclInitOnceFlag g' = cclInitOnceFlag g ∧ globalComm g' = globalComm g ∧
      exit_handlers g' = exit_handlers g ∧ created g' = created g
  | (Undefined, g') => globalComm g = None ∧ g' = g
  | (Terminate, _) => False
  end.
Proof.
  unfold ProcessGroupCCL_ctor, G_bind, deref_globalComm, CCL_CHECK_init,
    create_communicator.
  destruct (globalComm g) as [c|] eqn:Hc; [|done].
  destruct (create_script g) as [|[|] cs]; cbn; try done; by exists c.
Qed.

Lemma to_int_to_size_t x :
  - 2 ^ 31 ≤ x < 2 ^ 31 → to_int (to_size_t x) = x.
Proof.
  intros Hx. unfold to_int, to_size_t.
  destruct (Z_lt_le_dec x 0) as [Hneg|Hpos].
  - replace (x mod 2 ^ 64) with (x + 2 ^ 64)
      by (apply Z.mod_unique with (-1); lia).
    replace (x + 2 ^ 64 + 2 ^ 31) with (x + 2 ^ 31 + 2 ^ 32 * 2 ^ 32) by lia.
    rewrite Z_mod_plus_full, Z.mod_small; lia.
  - rewrite (Z.mod_small x) by lia. rewrite Z.mod_small; lia.
Qed.

(** X24.  Whenever [createProcessGroupCCL] returns a group, the
    initialisation has completed, each of the arguments is either the
    wildcard -1 or equal, as [size_t], to the rank or size of the global
    communicator, and the group has the rank and size of the global
    communicator converted to [int]; an argument other than -1 is
    therefore the value the group has. *)
Theorem createProcessGroupCCL_result (rank size : Z) (g g' : Globals)
    (pg : ProcessGroupCCL) :
  createProcessGroupCCL rank size g = (Ret pg, g') →
  ∃ c, globalComm g' = Some c ∧
    cclInitOnceFlag g' = true ∧
    (rank = -1 ∨ to_size_t rank = comm_rank c) ∧
    (size = -1 ∨ to_size_t size = comm_size c) ∧
    rank_ pg = to_int (comm_rank c) ∧
    size_ pg = to_int (comm_size c) ∧
    (rank ≠ -1 → - 2 ^ 31 ≤ rank < 2 ^ 31 → rank_ pg = rank) ∧
    (size ≠ -1 → - 2 ^ 31 ≤ size < 2 ^ 31 → size_ pg = size).
Proof.
  unfold createProcessGroupCCL. unfold G_bind at 1.
  destruct (cclInitOnce g) as [[[]| | |] g1] eqn:Hinit; try done.
  assert (Hflag : cclInitOnceFlag g1 = true).
  { destruct (cclInitOnce_cases g) as [[Hf H]|[(_ & msg & g2 & H & _)|(_ & g2 & H & Hf & _)]];
      rewrite Hinit in H; by simplify_eq. }
  unfold G_bind at 1.
  destruct (globalComm g1) as [c|] eqn:Hc; last first.
  { unfold ProcessGroupCCL_ctor, G_bind, deref_globalComm.
    destruct (bool_decide (rank = -1)); cbn beta; rewrite ?Hc; try done;
      destruct (bool_decide (size = -1)); cbn beta; by rewrite ?Hc. }
  assert (Hr : ∀ x y (msg : string),
    (if bool_decide (x = -1) then (λ g, (Ret tt, g))
     else G_bind deref_globalComm (λ c g,
       if bool_decide (to_size_t x = y c) then (Ret tt, g)
       else (Throw (TorchCheck msg), g))) g1
    = if bool_decide (x = -1) || bool_decide (to_size_t x = y c)
      then (Ret tt, g1) else (Throw (TorchCheck msg), g1)).
  { intros x y msg. unfold G_bind, deref_globalComm.
    destruct (bool_decide (x = -1)); cbn beta; by rewrite ?Hc. }
  rewrite (Hr rank comm_rank).
  destruct (bool_decide (rank = -1) || bool_decide (to_size_t rank = comm_rank c))
    eqn:Hrank; [|done].
  unfold G_bind at 1. rewrite (Hr size comm_size).
  destruct (bool_decide (size = -1) || bool_decide (to_size_t size = comm_size c))
    eqn:Hsize; [|done].
  intros Heq. pose proof (ctor_cases rank size g1) as H. rewrite Heq in H.
  destruct H as (c' & Hc' & -> & Hf' & Hg' & _).
  assert (c' = c) as -> by congruence.
  apply orb_true_iff in Hrank, Hsize.
  rewrite !bool_decide_eq_true in Hrank, Hsize.
  exists c. cbn [rank_ size_].
  repeat split; try done; try congruence.
  - intros Hne Hrange. destruct Hrank as [|Hrank]; [done|].
    rewrite <- Hrank. by apply to_int_to_size_t.
  - intros Hne Hrange. destruct Hsize as [|Hsize]; [done|].
    rewrite <- Hsize. by apply to_int_to_size_t.
Qed.

Lemma createProcessGroupCCL_result_witness :
  ∃ c, globalComm running2 = Some c ∧
    cclInitOnceFlag running2 = true ∧
    (0 = -1 ∨ to_size_t 0 = comm_rank c) ∧
    (2 = -1 ∨ to_size_t 2 = comm_size c) ∧
    rank_ pg2 = to_int (comm_rank c) ∧
    size_ pg2 = to_int (comm_size c) ∧
    (0 ≠ -1 → - 2 ^ 31 ≤ 0 < 2 ^ 31 → rank_ pg2 = 0) ∧
    (2 ≠ -1 → - 2 ^ 31 ≤ 2 < 2 ^ 31 → size_ pg2 = 2).
Proof.
  apply (createProcessGroupCCL_result 0 2 start2 running2 pg2). reflexivity.
Defined.

Lemma checks_frame rank size g1 o g' :
  (G_bind (if bool_decide (rank = -1) then (λ g, (Ret tt, g))
          else G_bind deref_globalComm (λ c g,
            if bool_decide (to_size_t rank = comm_rank c) then (Ret tt, g)
            else (Throw (TorchCheck "unexpected rank "), g))) (λ _,
  G_bind (if bool_decide (size = -1) then (λ g, (Ret tt, g))
          else G_bind deref_globalComm (λ c g,
            if bool_decide (to_size_t size = comm_size c) then (Ret tt, g)
            else (Throw (TorchCheck "unexpected size "), g))) (λ _,
  ProcessGroupCCL_ctor rank size)) g1) = (o, g') →
  cclInitOnceFlag g' = cclInitOnceFlag g1 ∧ globalComm g' = globalComm g1 ∧
  exit_handlers g' = exit_handlers g1.
Proof.
  assert (Hr : ∀ x y (msg : string),
    (if bool_decide (x = -1) return G unit then (λ g, (Ret tt, g))
     else G_bind deref_globalComm (λ c g,
       if bool_decide (to_size_t x = y c) then (Ret tt, g)
       else (Throw (TorchCheck msg), g))) g1
    = (Ret tt, g1) ∨
    ∃ o, (if bool_decide (x = -1) return G unit then (λ g, (Ret tt, g))
     else G_bind deref_globalComm (λ c g,
       if bool_decide (to_size_t x = y c) then (Ret tt, g)
       else (Throw (TorchCheck msg), g))) g1 = (o, g1) ∧
      match o with Ret _ => False | _ => True end).
  { intros x y msg. unfold G_bind, deref_globalComm.
    destruct (bool_decide (x = -1)); cbn beta; [by left|].
    destruct (globalComm g1) as [c|]; [|right; by eexists].
    destruct (bool_decide (to_size_t x = y c)); [by left|right; by eexists]. }
  unfold G_bind at 1.
  destruct (Hr rank comm_rank "unexpected rank ") as [->|(o1 & -> & Ho)];
    [|destruct o1; [done|..]; cbv beta iota; by intros [= <- <-]].
  unfold G_bind at 1.
  destruct (Hr size comm_size "unexpected size ") as [->|(o1 & -> & Ho)];
    [|destruct o1; [done|..]; cbv beta iota; by intros [= <- <-]].
  pose proof (ctor_cases rank size g1) as H. intros Heq. rewrite Heq in H.
  destruct o as [pg|e| |].
  - by destruct H as (c & _ & _ & -> & -> & -> & _).
  - by destruct H as (_ & -> & -> & -> & _).
  - by destruct H as [_ ->].
  - done.
Qed.

Lemma createProcessGroupCCL_frame rank size g :
  let g1 := (cclInitOnce g).2 in
  let g' := (createProcessGroupCCL rank size g).2 in
  cclInitOnceFlag g' = cclInitOnceFlag g1 ∧ globalComm g' = globalComm g1 ∧
  exit_handlers g' = exit_handlers g1.
Proof.
  intros g1 g'. subst g1 g'.
  destruct (createProcessGroupCCL rank size g) as [o g'] eqn:Heq.
  unfold createProcessGroupCCL in Heq. unfold G_bind at 1 in Heq.
  destruct (cclInitOnce g) as [[[]| | |] g1]; cbn [snd];
    try (by injection Heq as <- <-).
  by apply (checks_frame rank size g1 o g').
Qed.

(** X25.  [createProcessGroupCCL] and [cclFini] keep the invariant that
    the exit handler is registered once when the once-flag is set and
    not at all before; once the flag is set, [createProcessGroupCCL],
    however it ends, leaves the flag, the global communicator and the
    exit handlers as they are. *)
Theorem exit_handler_registered_once (rank size : Z) (g : Globals) :
  init_inv g →
  let g' := (createProcessGroupCCL rank size g).2 in
  init_inv g' ∧
  init_inv (cclFini g).2 ∧
  (cclInitOnceFlag g = true →
   cclInitOnceFlag g' = true ∧ globalComm g' = globalComm g ∧
   exit_handlers g' = exit_handlers g).
Proof.
  intros Hinv g'.
  destruct (createProcessGroupCCL_frame rank size g) as (Hf & Hc & Hh).
  fold g' in Hf, Hc, Hh. unfold init_inv in *.
  split; [|split].
  - rewrite Hf, Hh.
    destruct (cclInitOnce_cases g)
      as [[Hflag ->]|[(Hflag & msg & g1 & -> & Hf1 & Hh1 & _)
                     |(Hflag & g1 & -> & Hf1 & _ & Hh1 & _)]];
      cbn [snd]; [done| |].
    + by rewrite Hf1, Hh1, Hinv, Hflag.
    + by rewrite Hf1, Hh1, Hinv, Hflag.
  - done.
  - intros Hflag. rewrite Hf, Hc, Hh.
    destruct (cclInitOnce_cases g)
      as [[_ ->]|[(Hflag' & _)|(Hflag' & _)]]; [done|congruence|congruence].
Qed.

Lemma exit_handler_registered_once_witness :
  init_inv (createProcessGroupCCL 0 2 start2).2 ∧
  init_inv (cclFini start2).2 ∧
  (cclInitOnceFlag start2 = true →
   cclInitOnceFlag (createProcessGroupCCL 0 2 start2).2 = true ∧
   globalComm (createProcessGroupCCL 0 2 start2).2 = globalComm start2 ∧
   exit_handlers (createProcessGroupCCL 0 2 start2).2 = exit_handlers start2).
Proof.
  apply (exit_handler_registered_once 0 2 start2). reflexivity.
Defined.

(** X26.  [cclInitOnce] either returns with the once-flag set (doing
    nothing if it was set already; otherwise having created the global
    communicator and registered the exit handler once), or throws a
    [std::runtime_error] with the flag still unset and no exit handler
    registered, so that the next call runs the initialisation again.  It
    ends in no other way. *)
Theorem cclInitOnce_outcomes (g : Globals) :
  match cclInitOnce g with
  | (Ret _, g') =>
      cclInitOnceFlag g' = true ∧
      (if cclInitOnceFlag g then g' = g
       else globalComm g' = Some (substrate_comm g) ∧
            exit_handlers g' = Datatypes.S (exit_handlers g) ∧
            created g' = Datatypes.S (created g))
  | (Throw e, g') =>
      is_runtime_error e ∧ cclInitOnceFlag g = false ∧
      cclInitOnceFlag g' = false ∧ exit_handlers g' = exit_handlers g
  | _ => False
  end.
Proof.
  destruct (cclInitOnce_cases g)
    as [[Hflag ->]|[(Hflag & msg & g1 & -> & Hf1 & Hh1 & _)
                   |(Hflag & g1 & -> & Hf1 & Hc1 & Hh1 & Hn1 & _)]].
  - by rewrite Hflag.
  - done.
  - by rewrite Hflag.
Qed.

(** X27.  After [cclFini] has reset the global communicator of an
    initialised process, [createProcessGroupCCL] does not initialise
    again and dereferences the null global communicator, whatever rank
    and size are passed: the behaviour is undefined. *)
Theorem createProcessGroupCCL_after_cclFini (rank size : Z) (g : Globals) :
  cclInitOnceFlag g = true →
  createProcessGroupCCL rank size (cclFini g).2 = (Undefined, (cclFini g).2).
Proof.
  intros Hflag.
  unfold createProcessGroupCCL, ProcessGroupCCL_ctor, G_bind, cclInitOnce,
    deref_globalComm, cclFini, set_globalComm.
  cbn [snd cclInitOnceFlag globalComm]. rewrite Hflag.
  by destruct (bool_decide (rank = -1)), (bool_decide (size = -1)).
Qed.

Lemma createProcessGroupCCL_after_cclFini_witness :
  createProcessGroupCCL (-1) (-1) (cclFini running2).2
  = (Undefined, (cclFini running2).2).
Proof.
  apply (createProcessGroupCCL_after_cclFini (-1) (-1) running2). reflexivity.
Defined.
